(** * immich_auto_album.py: a shallow embedding of the album reconciliation script

    The script talks to a remote Immich server over HTTP, logs through
    [logging], reads module-level configuration and mutates Python objects.
    The embedding keeps these effects explicit:

    - a [World] carries the server (a total function from the history of
      requests and the current request to a response), the trace of requests
      issued so far, the log records written (records below level INFO are
      left out), the store of list objects that are sorted in place, the
      values the random generator is going to yield, and the files read;
    - a computation is a function [World -> Outcome A * World]; an [Outcome]
      is a returned value or a raised exception;
    - module-level names read inside functions ([share_role], [album],
      [users], [version], ...) are the fields of a record [Globals] that is
      passed explicitly. *)

From Stdlib Require Import ZArith List String Ascii Bool Lia Arith.
From Stdlib Require Import Sorting.Permutation Sorting.Sorted.
Import ListNotations.

Local Open Scope string_scope.
Local Open Scope Z_scope.

Set Implicit Arguments.

(** ** Exceptions *)

(** The exceptions the modelled code can raise.  [RequestsHTTPError] is
    [requests.exceptions.HTTPError], raised by [Response.raise_for_status];
    [UrllibHTTPError] is [urllib.error.HTTPError].  [PayloadError] stands for
    the [KeyError], [TypeError] or [JSONDecodeError] raised when a decoded
    payload has not the documented shape.  [FuelExhausted] is not a Python
    exception: it marks a [while] loop cut off by the model's fuel. *)
Inductive Exn : Type :=
| RequestsHTTPError (status : Z)
| UrllibHTTPError
| AssertionError
| ValueError
| IndexError
| PayloadError
| UnboundLocalError
| FileNotFoundError
| SystemExit (code : Z)
| FuelExhausted.

(** Exception classes that occur in [except] clauses. *)
Inductive ExcClass : Type :=
| cls_urllib_error_HTTPError
| cls_requests_exceptions_HTTPError
| cls_AssertionError
| cls_FileNotFoundError
| cls_OSError.

(** [isinstance(e, cls)] along the class hierarchies of the two libraries:
    [requests.exceptions.HTTPError < RequestException < OSError] and
    [urllib.error.HTTPError < URLError < OSError]; neither HTTPError class
    derives from the other. *)
Definition isinstance (e : Exn) (c : ExcClass) : bool :=
  match c, e with
  | cls_urllib_error_HTTPError, UrllibHTTPError => true
  | cls_requests_exceptions_HTTPError, RequestsHTTPError _ => true
  | cls_AssertionError, AssertionError => true
  | cls_FileNotFoundError, FileNotFoundError => true
  | cls_OSError, (RequestsHTTPError _ | UrllibHTTPError | FileNotFoundError) => true
  | _, _ => false
  end.

(** Line 15 of the module: [from urllib.error import HTTPError]. *)
Definition HTTPError : ExcClass := cls_urllib_error_HTTPError.

Inductive Outcome (A : Type) : Type :=
| Ret (a : A)
| Exc (e : Exn).

Arguments Ret {A} a.
Arguments Exc {A} e.

(** ** Data exchanged with the server *)

Record Asset : Type := mkAsset {
  asset_id : string;
  originalPath : string;
  fileCreatedAt : string;
  isOffline : bool
}.

Record User : Type := mkUser {
  user_id : string;
  user_name : string;
  user_email : string
}.

Record Version : Type := mkVersion {
  major : Z;
  minor : Z;
  patch : Z
}.

(** One element of the answer to [PUT albums/<id>/assets]. *)
Record AddResult : Type := mkAddResult {
  res_id : string;
  res_success : bool;
  res_error : string
}.

(** An element of [albumUsers] in an album's info: [user.id] and [role]. *)
Record AlbumUser : Type := mkAlbumUser {
  au_user_id : string;
  au_role : string
}.

Record AlbumInfo : Type := mkAlbumInfo {
  info_albumUsers : list AlbumUser;
  info_assets : list Asset
}.

(** An element of the answer to [GET albums]. *)
Record AlbumEntry : Type := mkAlbumEntry {
  entry_id : string;
  entry_albumName : string;
  entry_assetCount : Z
}.

Inductive Payload : Type :=
| PEmpty
| PVersion (v : Version)
| PCreated (id : string)
| PAddResults (l : list AddResult)
| PAlbumInfo (i : AlbumInfo)
| PAlbums (l : list AlbumEntry)
| PSearch (items : list Asset)
| PLibraries (ids : list string)
| PUsers (l : list User)
| PError (message : string).

(** Python truthiness of a decoded payload: empty containers are false. *)
Definition payload_truthy (p : Payload) : bool :=
  match p with
  | PEmpty => false
  | PAddResults [] | PAlbums [] | PLibraries [] | PUsers [] => false
  | _ => true
  end.

Record Response : Type := mkResponse {
  status_code : Z;
  reason : string;
  payload : Payload
}.

Inductive Method : Type := GET | POST | PUT | PATCH | DELETE.

(** An entry [{'role': r, 'userId': u}] of the payload of a share request. *)
Record ShareInfo : Type := mkShareInfo {
  si_role : string;
  si_userId : string
}.

(** The payload [data] of [update_album_properties]: a key is present when
    its field is [Some]; the values under ['description'] and ['order'] are
    strings or [None]. *)
Record PatchData : Type := mkPatchData {
  pd_albumThumbnailAssetId : option string;
  pd_description : option (option string);
  pd_order : option (option string);
  pd_isActivityEnabled : option bool
}.

(** The value under ['page'] of a search body: the first request sends
    [str(page)], the following ones the integer. *)
Inductive PageValue : Type :=
| PageStr (s : string)
| PageInt (n : Z).

Record SearchOptions : Type := mkSearchOptions {
  so_isNotInAlbum : option bool;
  so_withArchived : option bool;
  so_trashedAfter : option string
}.

Inductive Body : Type :=
| NoBody
| BodyAlbumName (albumName : string)
| BodyIds (ids : list string)
| BodyRole (role : string)
| BodyAlbumUsers (albumUsers : list ShareInfo)
| BodyDeleteAssets (force : bool) (ids : list string)
| BodyArchive (ids : list string) (isArchived : bool)
| BodyPatch (data : PatchData)
| BodySearch (options : SearchOptions) (size : Z) (page : PageValue).

Record Request : Type := mkRequest {
  req_method : Method;
  req_url : string;
  req_body : Body
}.

Inductive Level : Type := INFO | WARNING | ERROR | FATAL.

(** A log record: level, format string, and the string arguments. *)
Record LogRecord : Type := mkLog {
  log_level : Level;
  log_format : string;
  log_args : list string
}.

(** ** The world *)

Definition Server : Type := list Request -> Request -> Response.

Record World : Type := mkWorld {
  server : Server;
  trace : list Request;
  logged : list LogRecord;
  store : nat -> list Asset;
  store_next : nat;
  draws : list nat;
  files : string -> option string
}.

Definition M (A : Type) : Type := World -> Outcome A * World.

Definition ret {A} (a : A) : M A := fun w => (Ret a, w).

Definition raise {A} (e : Exn) : M A := fun w => (Exc e, w).

Definition bind {A B} (m : M A) (k : A -> M B) : M B :=
  fun w =>
    match m w with
    | (Ret a, w') => k a w'
    | (Exc e, w') => (Exc e, w')
    end.

Declare Scope py_scope.
Delimit Scope py_scope with py.
Notation "x <- m ;; k" := (bind m (fun x => k))
  (at level 100, m at next level, right associativity) : py_scope.
Notation "m ;;; k" := (bind m (fun _ => k))
  (at level 100, right associativity) : py_scope.
Local Open Scope py_scope.

(** [try: m except cls: handler] *)
Definition try_except {A} (m : M A) (classes : list ExcClass)
    (handler : Exn -> M A) : M A :=
  fun w =>
    match m w with
    | (Ret a, w') => (Ret a, w')
    | (Exc e, w') =>
        if existsb (isinstance e) classes then handler e w' else (Exc e, w')
    end.

(** [for x in l: body x] *)
Fixpoint for_each {A} (l : list A) (body : A -> M unit) : M unit :=
  match l with
  | [] => ret tt
  | x :: l' => body x ;;; for_each l' body
  end.

Definition logging (lvl : Level) (fmt : string) (args : list string) : M unit :=
  fun w =>
    (Ret tt,
     mkWorld (server w) (trace w) (logged w ++ [mkLog lvl fmt args])
             (store w) (store_next w) (draws w) (files w)).

(** One HTTP round trip: the request joins the trace, the server answers
    from the history before it. *)
Definition http (r : Request) : M Response :=
  fun w =>
    (Ret (server w (trace w) r),
     mkWorld (server w) (trace w ++ [r]) (logged w)
             (store w) (store_next w) (draws w) (files w)).

(** [Response.raise_for_status]: statuses 400..599 raise
    [requests.exceptions.HTTPError]. *)
Definition is_error_status (s : Z) : bool := (400 <=? s) && (s <? 600).

Definition raise_for_status (r : Response) : M unit :=
  if is_error_status (status_code r)
  then raise (RequestsHTTPError (status_code r))
  else ret tt.

(** [check_api_response], lines 930-953. *)
Definition check_api_response (response : Response) : M unit :=
  try_except (raise_for_status response) [HTTPError]
    (fun _ =>
       if payload_truthy (payload response)
       then logging ERROR "Error in API call: %s" []
       else logging ERROR "API response did not contain a payload" []) ;;;
  raise_for_status response.

(** ** Python helpers *)

(** [s in l] for a list of strings. *)
Definition str_in (s : string) (l : list string) : bool :=
  existsb (String.eqb s) l.

(** Truthiness of a string and of an optional string ([None] and [''] are
    false). *)
Definition str_truthy (s : string) : bool := negb (s =? "")%string.

Definition opt_truthy (o : option string) : bool :=
  match o with
  | Some s => str_truthy s
  | None => false
  end.

(** [f'{x}'] for a value that is a string or [None]. *)
Definition fmt (o : option string) : string :=
  match o with
  | Some s => s
  | None => "None"
  end.

(** An insertion-ordered [dict] with string keys: assigning to an existing
    key keeps its position. *)
Definition Dict (V : Type) : Type := list (string * V).

Fixpoint dict_get {V} (k : string) (d : Dict V) : option V :=
  match d with
  | [] => None
  | (k', v) :: d' => if (k' =? k)%string then Some v else dict_get k d'
  end.

Fixpoint dict_set {V} (k : string) (v : V) (d : Dict V) : Dict V :=
  match d with
  | [] => [(k, v)]
  | (k', v') :: d' =>
      if (k' =? k)%string then (k, v) :: d' else (k', v') :: dict_set k v d'
  end.

Definition dict_mem {V} (k : string) (d : Dict V) : bool :=
  match dict_get k d with
  | Some _ => true
  | None => false
  end.

(** [l[idx]] with Python's negative indices; out of range raises. *)
Definition py_index {A} (l : list A) (idx : Z) : M A :=
  let n := Z.of_nat (List.length l) in
  let i := if idx <? 0 then idx + n else idx in
  if (i <? 0) || (n <=? i) then raise IndexError
  else
    match nth_error l (Z.to_nat i) with
    | Some a => ret a
    | None => raise IndexError
    end.

(** [range(0, stop, step)]: a zero step raises [ValueError], a negative step
    gives the empty range (the start is 0 and [stop] is a length). *)
Definition py_range_from_0 (stop step : Z) : M (list Z) :=
  if step =? 0 then raise ValueError
  else if step <? 0 then ret []
  else
    ret (map (fun i => Z.of_nat i * step)
             (seq 0 (Z.to_nat ((stop + step - 1) / step)))).

(** [l[j:j + size]] for [0 <= j] and [0 < size]. *)
Definition py_slice {A} (l : list A) (j size : Z) : list A :=
  firstn (Z.to_nat size) (skipn (Z.to_nat j) l).

(** [divide_chunks], lines 231-235; the generator is consumed at once by
    [list(...)] in its only caller. *)
Definition divide_chunks {A} (full_list : list A) (chunk_size : Z)
    : M (list (list A)) :=
  js <- py_range_from_0 (Z.of_nat (List.length full_list)) chunk_size ;;
  ret (map (fun j => py_slice full_list j chunk_size) js).

(** *** The store of list objects *)

Definition set_store (w : World) (s : nat -> list Asset) (n : nat) : World :=
  mkWorld (server w) (trace w) (logged w) s n (draws w) (files w).

(** A new list object holding [l]; the result is its address. *)
Definition list_new (l : list Asset) : M nat :=
  fun w =>
    let r := store_next w in
    (Ret r,
     set_store w (fun r' => if Nat.eqb r' r then l else store w r') (S r)).

Definition list_read (r : nat) : M (list Asset) :=
  fun w => (Ret (store w r), w).

Definition list_write (r : nat) (l : list Asset) : M unit :=
  fun w =>
    (Ret tt,
     set_store w (fun r' => if Nat.eqb r' r then l else store w r')
               (store_next w)).

(** *** [list.sort(key=lambda x: x['fileCreatedAt'])]

    Python's sort is stable and compares keys with [<]; for strings that is
    the lexicographic order on code points.  The stable sort of a list is
    unique, so an insertion sort that puts an element before the first one
    with a key not smaller gives the list Python computes. *)
Definition created_leb (a b : Asset) : bool :=
  String.leb (fileCreatedAt a) (fileCreatedAt b).

Fixpoint insert_asset (a : Asset) (l : list Asset) : list Asset :=
  match l with
  | [] => [a]
  | b :: l' =>
      if created_leb a b then a :: b :: l' else b :: insert_asset a l'
  end.

Fixpoint sort_by_fileCreatedAt (l : list Asset) : list Asset :=
  match l with
  | [] => []
  | a :: l' => insert_asset a (sort_by_fileCreatedAt l')
  end.

Definition list_sort_by_fileCreatedAt (r : nat) : M unit :=
  l <- list_read r ;;
  list_write r (sort_by_fileCreatedAt l).

(** *** [random.randint(a, b)]

    The generator is the sequence of values it is going to yield; a value
    is reduced into the requested range, so that every element of the range
    is the image of equally many values.  An empty range raises. *)
Definition random_randint (a b : Z) : M Z :=
  fun w =>
    if b <? a then (Exc ValueError, w)
    else
      match draws w with
      | [] => (Ret a, w)
      | d :: ds =>
          (Ret (a + Z.of_nat d mod (b - a + 1)),
           mkWorld (server w) (trace w) (logged w) (store w) (store_next w)
                   ds (files w))
      end.

(** ** Script constants, lines 36-49 *)

Definition SHARE_ROLES : list string := ["editor"; "viewer"].

Definition ALBUM_THUMBNAIL_RANDOM_ALL : string := "random-all".

Definition ALBUM_THUMBNAIL_SETTINGS : list string :=
  ["first"; "last"; "random"].

Definition ALBUM_THUMBNAIL_SETTINGS_GLOBAL : list string :=
  ALBUM_THUMBNAIL_SETTINGS ++ [ALBUM_THUMBNAIL_RANDOM_ALL].

Definition ALBUM_THUMBNAIL_STATIC_INDICES : Dict Z :=
  [("first", 0); ("last", -1)].

(** ** [choose_thumbnail], lines 817-854

    [thumbnail_asset_list] is the address of the caller's list object;
    [thumbnail_assets] is a second name for the same object, which
    [sort] reorders in place. *)
Definition choose_thumbnail (thumbnail_setting : string)
    (thumbnail_asset_list : nat) : M (option Asset) :=
  if negb (str_in thumbnail_setting ALBUM_THUMBNAIL_SETTINGS_GLOBAL) then
    l <- list_read thumbnail_asset_list ;;
    ret (find (fun asset => (originalPath asset =? thumbnail_setting)%string) l)
  else
    let thumbnail_assets := thumbnail_asset_list in
    l <- list_read thumbnail_assets ;;
    if (0 <? Z.of_nat (List.length l)) then
      list_sort_by_fileCreatedAt thumbnail_assets ;;;
      idx <- (if negb (dict_mem thumbnail_setting ALBUM_THUMBNAIL_STATIC_INDICES)
              then random_randint 0 (Z.of_nat (List.length l) - 1)
              else
                match dict_get thumbnail_setting ALBUM_THUMBNAIL_STATIC_INDICES with
                | Some i => ret i
                | None => raise PayloadError
                end) ;;
      sorted <- list_read thumbnail_assets ;;
      a <- py_index sorted idx ;;
      ret (Some a)
    else ret None.

(** ** The album model, lines 59-141 *)

(** An entry [{'user': u, 'role': r}] of [share_with]. *)
Record ShareUser : Type := mkShareUser {
  su_user : string;
  su_role : string
}.

Module AlbumModel.

Record t : Type := mk {
  id : option string;
  name : string;
  override_name : option string;
  description : option string;
  assets : list Asset;
  share_with : list ShareUser;
  thumbnail_setting : option string;
  sort_order : option string;
  archive : option bool;
  comments_and_likes_enabled : option bool
}.

(** [AlbumModel(name)] *)
Definition init (name : string) : t :=
  mk None name None None [] [] None None None None.

Definition get_asset_uuids (self : t) : list string :=
  map asset_id (assets self).

Definition get_final_name (self : t) : string :=
  if opt_truthy (override_name self)
  then fmt (override_name self)
  else name self.

Definition set_id (self : t) (v : option string) : t :=
  mk v (name self) (override_name self) (description self) (assets self)
     (share_with self) (thumbnail_setting self) (sort_order self)
     (archive self) (comments_and_likes_enabled self).

Definition set_assets (self : t) (v : list Asset) : t :=
  mk (id self) (name self) (override_name self) (description self) v
     (share_with self) (thumbnail_setting self) (sort_order self)
     (archive self) (comments_and_likes_enabled self).

Definition set_share_with (self : t) (v : list ShareUser) : t :=
  mk (id self) (name self) (override_name self) (description self)
     (assets self) v (thumbnail_setting self) (sort_order self)
     (archive self) (comments_and_likes_enabled self).

Definition set_thumbnail_setting (self : t) (v : option string) : t :=
  mk (id self) (name self) (override_name self) (description self)
     (assets self) (share_with self) v (sort_order self)
     (archive self) (comments_and_likes_enabled self).

Definition set_sort_order (self : t) (v : option string) : t :=
  mk (id self) (name self) (override_name self) (description self)
     (assets self) (share_with self) (thumbnail_setting self) v
     (archive self) (comments_and_likes_enabled self).

Definition set_archive (self : t) (v : option bool) : t :=
  mk (id self) (name self) (override_name self) (description self)
     (assets self) (share_with self) (thumbnail_setting self)
     (sort_order self) v (comments_and_likes_enabled self).

Definition set_comments_and_likes_enabled (self : t) (v : option bool) : t :=
  mk (id self) (name self) (override_name self) (description self)
     (assets self) (share_with self) (thumbnail_setting self)
     (sort_order self) (archive self) v.

End AlbumModel.

(** ** Module-level names, lines 1151-1178, 1229, 1280 and the loop variable
    [album] of lines 1274 and 1288 *)
Record Globals : Type := mkGlobals {
  root_url : string;
  number_of_images_per_request : Z;
  number_of_assets_to_fetch_per_request : Z;
  share_with : option (list string);
  share_role : string;
  set_album_thumbnail : option string;
  archive : bool;
  album_order : option string;
  comments_and_likes_enabled : bool;
  comments_and_likes_disabled : bool;
  update_album_props_mode : Z;
  sync_mode : Z;
  version : Version;
  users : list User;
  album : AlbumModel.t
}.

Definition set_album (g : Globals) (a : AlbumModel.t) : Globals :=
  mkGlobals (root_url g) (number_of_images_per_request g)
    (number_of_assets_to_fetch_per_request g) (share_with g) (share_role g)
    (set_album_thumbnail g) (archive g) (album_order g)
    (comments_and_likes_enabled g) (comments_and_likes_disabled g)
    (update_album_props_mode g) (sync_mode g) (version g) (users g) a.

(** ** String functions *)

(** A Python [str] is modelled by its UTF-8 encoding, one [ascii] per
    byte.  Equality, concatenation, the order of the code points, the
    search for an ASCII character and the removal of a prefix are the same
    on the encodings.

    [str.strip()] removes the characters for which [str.isspace()] holds:
    U+0009..U+000D, U+001C..U+0020, U+0085, U+00A0, U+1680,
    U+2000..U+200A, U+2028, U+2029, U+202F, U+205F and U+3000.  The first
    ten are one byte long, the next two are encoded on two bytes and the
    others on three. *)
Definition is_space (c : ascii) : bool :=
  let n := nat_of_ascii c in
  ((9 <=? n) && (n <=? 13) || (28 <=? n) && (n <=? 32))%nat.

(** U+0085 is [C2 85] and U+00A0 is [C2 A0]. *)
Definition is_space2 (c1 c2 : ascii) : bool :=
  let n1 := nat_of_ascii c1 in
  let n2 := nat_of_ascii c2 in
  ((n1 =? 194) && ((n2 =? 133) || (n2 =? 160)))%nat.

(** U+1680 is [E1 9A 80]; U+2000..U+200A, U+2028, U+2029 and U+202F are
    [E2 80 80] to [E2 80 8A], [E2 80 A8], [E2 80 A9] and [E2 80 AF];
    U+205F is [E2 81 9F]; U+3000 is [E3 80 80]. *)
Definition is_space3 (c1 c2 c3 : ascii) : bool :=
  let n1 := nat_of_ascii c1 in
  let n2 := nat_of_ascii c2 in
  let n3 := nat_of_ascii c3 in
  ((n1 =? 225) && (n2 =? 154) && (n3 =? 128)
   || (n1 =? 226) && (n2 =? 128)
      && ((128 <=? n3) && (n3 <=? 138)
          || (n3 =? 168) || (n3 =? 169) || (n3 =? 175))
   || (n1 =? 226) && (n2 =? 129) && (n3 =? 159)
   || (n1 =? 227) && (n2 =? 128) && (n3 =? 128))%nat.

Fixpoint lstrip (s : string) : string :=
  match s with
  | String c1 s1 =>
      if is_space c1 then lstrip s1
      else
        match s1 with
        | String c2 s2 =>
            if is_space2 c1 c2 then lstrip s2
            else
              match s2 with
              | String c3 s3 => if is_space3 c1 c2 c3 then lstrip s3 else s
              | EmptyString => s
              end
        | EmptyString => s
        end
  | EmptyString => EmptyString
  end.

(** From the right: a character is removed when what follows it has been
    removed and what remains after it is the rest of its encoding. *)
Fixpoint rstrip (s : string) : string :=
  match s with
  | String c s' =>
      match rstrip s' with
      | EmptyString => if is_space c then EmptyString else String c EmptyString
      | String c2 EmptyString =>
          if is_space2 c c2 then EmptyString
          else String c (String c2 EmptyString)
      | String c2 (String c3 EmptyString) =>
          if is_space3 c c2 c3 then EmptyString
          else String c (String c2 (String c3 EmptyString))
      | r => String c r
      end
  | EmptyString => EmptyString
  end.

Definition strip (s : string) : string := rstrip (lstrip s).

(** [items = s.split(sep)] followed by [items[0]] and
    [sep.join(items[1:])] (absent when there is one item), for a separator
    of one character. *)
Fixpoint split_first (sep : ascii) (s : string) : string * option string :=
  match s with
  | EmptyString => (EmptyString, None)
  | String c s' =>
      if Ascii.eqb c sep then (EmptyString, Some s')
      else
        let (k, v) := split_first sep s' in
        (String c k, v)
  end.

(** [parse_separated_string], lines 237-253. *)
Definition parse_separated_string (separated_string : string)
    (separator : ascii) : string * option string :=
  let (item0, rest) := split_first separator separated_string in
  (strip item0, rest).

(** ** [set_album_properties_in_model], lines 955-995 *)
Definition set_album_properties_in_model (g : Globals)
    (album_model_to_update : AlbumModel.t) : AlbumModel.t :=
  let m1 :=
    match share_with g with
    | Some (share_user0 :: share_users) =>
        fold_left
          (fun m album_share_user =>
             let (share_user_name, share_user_role) :=
               parse_separated_string album_share_user "="%char in
             let share_user_role :=
               match share_user_role with
               | None => share_role g
               | Some r => r
               end in
             AlbumModel.set_share_with m
               (AlbumModel.share_with m
                  ++ [mkShareUser share_user_name share_user_role]))
          (share_user0 :: share_users) album_model_to_update
    | _ => album_model_to_update
    end in
  let m2 :=
    if opt_truthy (set_album_thumbnail g)
    then AlbumModel.set_thumbnail_setting m1 (set_album_thumbnail g)
    else m1 in
  let m3 :=
    if archive g then AlbumModel.set_archive m2 (Some (archive g)) else m2 in
  let m4 :=
    if opt_truthy (album_order g)
    then AlbumModel.set_sort_order m3 (album_order g)
    else m3 in
  if comments_and_likes_enabled g
  then AlbumModel.set_comments_and_likes_enabled m4 (Some true)
  else if comments_and_likes_disabled g
  then AlbumModel.set_comments_and_likes_enabled m4 (Some false)
  else m4.

(** ** [build_album_list], lines 1015-1063

    The files read are inputs: [google_albums] is the concatenation of the
    two decoded album lists, [album_file album_id] the decoded
    [album-<id>.json], a list of media ids. *)
Record GoogleAlbum : Type := mkGoogleAlbum {
  ga_has_mediaItemsCount : bool;
  ga_title : option string;
  ga_id : string;
  ga_coverPhotoMediaItemId : option string
}.

Record BuildState : Type := mkBuildState {
  album_ids : list string;
  album_asset_ids : Dict (list string);
  album_models : Dict AlbumModel.t
}.

(** The inner loop over the media of one album: [asset_ids] is the set
    of ids seen for this album name, [model] the album model. *)
Definition add_google_assets (asset_by_gpid : Dict Asset)
    (google_assets : list string) (asset_ids : list string)
    (model : AlbumModel.t) : list string * AlbumModel.t :=
  fold_left
    (fun st asset_id =>
       let '(asset_ids, model) := st in
       if str_in asset_id asset_ids then st
       else
         let asset_ids := (asset_ids ++ [asset_id])%list in
         match dict_get asset_id asset_by_gpid with
         | None => (asset_ids, model)
         | Some asset =>
             (asset_ids,
              AlbumModel.set_assets model (AlbumModel.assets model ++ [asset]))
         end)
    google_assets (asset_ids, model).

(** The model a Google album starts from, lines 1038-1044. *)
Definition new_album_model_for (g : Globals) (asset_by_gpid : Dict Asset)
    (album_name : string) (google_album : GoogleAlbum) : AlbumModel.t :=
  let new_album_model := AlbumModel.init album_name in
  let new_album_model :=
    match ga_coverPhotoMediaItemId google_album with
    | Some thumbnail_id =>
        match dict_get thumbnail_id asset_by_gpid with
        | Some thumbnail_asset =>
            AlbumModel.set_thumbnail_setting new_album_model
              (Some (originalPath thumbnail_asset))
        | None => new_album_model
        end
    | None => new_album_model
    end in
  set_album_properties_in_model g new_album_model.

Definition build_album_step (g : Globals) (asset_by_gpid : Dict Asset)
    (album_file : string -> list string)
    (st : BuildState) (google_album : GoogleAlbum) : BuildState :=
  match ga_has_mediaItemsCount google_album, ga_title google_album with
  | true, Some album_name =>
      let album_id := ga_id google_album in
      if str_in album_id (album_ids st) then st
      else
        let ids := (album_ids st ++ [album_id])%list in
        let new_album_model :=
          match dict_get album_name (album_models st) with
          | None => new_album_model_for g asset_by_gpid album_name google_album
          | Some m => m
          end in
        let asset_ids :=
          match dict_get album_name (album_asset_ids st) with
          | Some s => s
          | None => []
          end in
        let '(asset_ids, new_album_model) :=
          add_google_assets asset_by_gpid (album_file album_id)
                            asset_ids new_album_model in
        mkBuildState ids
          (dict_set album_name asset_ids (album_asset_ids st))
          (dict_set (AlbumModel.get_final_name new_album_model)
                    new_album_model (album_models st))
  | _, _ => st
  end.

Definition build_album_list (g : Globals) (asset_by_gpid : Dict Asset)
    (google_albums : list GoogleAlbum) (album_file : string -> list string)
    : Dict AlbumModel.t :=
  album_models
    (fold_left (build_album_step g asset_by_gpid album_file)
               google_albums (mkBuildState [] [] [])).

(** ** The remote service client *)

(** [for x in l: s = body s x], for loops that update local variables. *)
Fixpoint for_fold {A S} (l : list A) (s : S) (body : S -> A -> M S) : M S :=
  match l with
  | [] => ret s
  | x :: l' => s' <- body s x ;; for_fold l' s' body
  end.

(** [fetch_albums], lines 360-367. *)
Definition fetch_albums (g : Globals) : M (list AlbumEntry) :=
  let api_endpoint := "albums" in
  r <- http (mkRequest GET (root_url g ++ api_endpoint) NoBody) ;;
  check_api_response r ;;;
  match payload r with
  | PAlbums l => ret l
  | _ => raise PayloadError
  end.

(** [fetch_album_info], lines 369-384. *)
Definition fetch_album_info (g : Globals) (album_id_for_info : string)
    : M AlbumInfo :=
  let api_endpoint := "albums/" ++ album_id_for_info in
  r <- http (mkRequest GET (root_url g ++ api_endpoint) NoBody) ;;
  check_api_response r ;;;
  match payload r with
  | PAlbumInfo i => ret i
  | _ => raise PayloadError
  end.

(** [delete_album], lines 386-412. *)
Definition delete_album (g : Globals) (album_delete : AlbumEntry) : M bool :=
  let api_endpoint := "albums" in
  r <- http (mkRequest DELETE
               (root_url g ++ api_endpoint ++ "/" ++ entry_id album_delete)
               NoBody) ;;
  try_except
    (check_api_response r ;;; ret true)
    [HTTPError]
    (fun _ =>
       logging ERROR "Error deleting album %s: %s"
               [entry_albumName album_delete; reason r] ;;;
       ret false).

(** [create_album], lines 414-441. *)
Definition create_album (g : Globals) (album_name_to_create : string)
    : M string :=
  let api_endpoint := "albums" in
  let data := BodyAlbumName album_name_to_create in
  r <- http (mkRequest POST (root_url g ++ api_endpoint) data) ;;
  check_api_response r ;;;
  match payload r with
  | PCreated id => ret id
  | _ => raise PayloadError
  end.

(** The loop over one decoded response of [add_assets_to_album],
    lines 477-482. *)
Definition collect_added (response : list AddResult)
    (asset_list_added : list string) : M (list string) :=
  for_fold response asset_list_added
    (fun added res =>
       if negb (res_success res) then
         (if negb (res_error res =? "duplicate")%string
          then logging WARNING "Error adding an asset to an album: %s"
                       [res_error res]
          else ret tt) ;;;
         ret added
       else ret (added ++ [res_id res])%list).

(** [add_assets_to_album], lines 444-484. *)
Definition add_assets_to_album (g : Globals) (assets_add_album_id : string)
    (asset_list : list string) : M (list string) :=
  let api_endpoint := "albums" in
  assets_chunked <- divide_chunks asset_list (number_of_images_per_request g) ;;
  for_fold assets_chunked []
    (fun asset_list_added assets_chunk =>
       let data := BodyIds assets_chunk in
       r <- http (mkRequest PUT
                    (root_url g ++ api_endpoint ++ "/" ++ assets_add_album_id
                       ++ "/assets")
                    data) ;;
       check_api_response r ;;;
       match payload r with
       | PAddResults response => collect_added response asset_list_added
       | _ => raise PayloadError
       end).

(** [fetch_users], lines 486-493. *)
Definition fetch_users (g : Globals) : M (list User) :=
  let api_endpoint := "users" in
  r <- http (mkRequest GET (root_url g ++ api_endpoint) NoBody) ;;
  check_api_response r ;;;
  match payload r with
  | PUsers l => ret l
  | _ => raise PayloadError
  end.

(** [find_user_by_name_or_email], lines 1065-1086. *)
Definition find_user_by_name_or_email (name_or_email : string)
    (user_list : list User) : option User :=
  find (fun user => str_in name_or_email [user_name user; user_email user])
       user_list.

(** [unshare_album_with_user], lines 579-595. *)
Definition unshare_album_with_user (g : Globals) (album_id_to_unshare : string)
    (unshare_user_id : string) : M unit :=
  let api_endpoint :=
    "albums/" ++ album_id_to_unshare ++ "/user/" ++ unshare_user_id in
  r <- http (mkRequest DELETE (root_url g ++ api_endpoint) NoBody) ;;
  check_api_response r.

(** [assert cond] *)
Definition assert (cond : bool) : M unit :=
  if cond then ret tt else raise AssertionError.

(** [update_album_share_user_role], lines 597-623.  The asserted name is
    the module-level [share_role]. *)
Definition update_album_share_user_role (g : Globals)
    (album_id_to_share : string) (share_user_id : string)
    (share_user_role : string) : M unit :=
  let api_endpoint :=
    "albums/" ++ album_id_to_share ++ "/user/" ++ share_user_id in
  assert (str_in (share_role g) SHARE_ROLES) ;;;
  let data := BodyRole share_user_role in
  r <- http (mkRequest PUT (root_url g ++ api_endpoint) data) ;;
  check_api_response r.

(** [share_album_with_user_and_role], lines 625-661.  The asserted name is
    the module-level [share_role]. *)
Definition share_album_with_user_and_role (g : Globals)
    (album_id_to_share : string) (user_ids_to_share_with : list string)
    (user_share_role : string) : M unit :=
  let api_endpoint := "albums/" ++ album_id_to_share ++ "/users" in
  assert (str_in (share_role g) SHARE_ROLES) ;;;
  let album_users :=
    map (fun user_id_to_share_with =>
           mkShareInfo user_share_role user_id_to_share_with)
        user_ids_to_share_with in
  let data := BodyAlbumUsers album_users in
  r <- http (mkRequest PUT (root_url g ++ api_endpoint) data) ;;
  check_api_response r.

(** *** [update_album_shared_state], lines 497-577 *)

(** Lines 516-523: the expected roles by user id.  The loop reads
    [album.share_with] and [users], both module-level names. *)
Definition expected_share_roles (g : Globals) : M (Dict string) :=
  for_fold (AlbumModel.share_with (album g)) []
    (fun share_users_to_roles_expected share_user =>
       match find_user_by_name_or_email (su_user share_user) (users g) with
       | None =>
           logging WARNING "User %s to share album %s with does not exist!"
                   [su_user share_user; AlbumModel.get_final_name (album g)] ;;;
           ret share_users_to_roles_expected
       | Some share_user_in_immich =>
           ret (dict_set (user_id share_user_in_immich) (su_role share_user)
                         share_users_to_roles_expected)
       end).

(** Lines 532-534. *)
Definition actual_share_roles (album_to_share_info : AlbumInfo) : Dict string :=
  fold_left
    (fun album_share_info share_user_actual =>
       dict_set (au_user_id share_user_actual) (au_role share_user_actual)
                album_share_info)
    (info_albumUsers album_to_share_info) [].

(** [d[k].append(v)] after [if k not in d: d[k] = []]. *)
Definition dict_append (k : string) (v : string) (d : Dict (list string))
    : Dict (list string) :=
  match dict_get k d with
  | None => dict_set k [v] d
  | Some l => dict_set k (l ++ [v])%list d
  end.

Definition update_album_shared_state (g : Globals)
    (album_to_share : AlbumModel.t) (unshare_users : bool) : M unit :=
  share_users_to_roles_expected <- expected_share_roles g ;;
  if (Nat.eqb (List.length share_users_to_roles_expected) 0)
       && negb unshare_users
  then ret tt
  else
    album_to_share_info <-
      fetch_album_info g (fmt (AlbumModel.id album_to_share)) ;;
    let album_share_info := actual_share_roles album_to_share_info in
    (* lines 537-554 *)
    share_roles_to_users_expected <-
      for_fold share_users_to_roles_expected []
        (fun share_roles_to_users_expected item =>
           let '(user_to_share_with, share_role_expected) := item in
           match dict_get user_to_share_with album_share_info with
           | None =>
               ret (dict_append share_role_expected user_to_share_with
                                share_roles_to_users_expected)
           | Some role_actual =>
               (if negb (role_actual =? share_role_expected)%string then
                  try_except
                    (update_album_share_user_role g
                       (fmt (AlbumModel.id album_to_share))
                       user_to_share_with share_role_expected)
                    [HTTPError]
                    (fun _ =>
                       logging WARNING
                         "Sharing: Error updating share role for user %s in album %s to %s"
                         [user_to_share_with;
                          AlbumModel.get_final_name album_to_share;
                          share_role_expected])
                else ret tt) ;;;
               ret share_roles_to_users_expected
           end) ;;
    (* lines 556-565 *)
    (if unshare_users then
       for_each album_share_info
         (fun item =>
            let shared_user := fst item in
            if negb (dict_mem shared_user share_users_to_roles_expected) then
              try_except
                (unshare_album_with_user g
                   (fmt (AlbumModel.id album_to_share)) shared_user)
                [HTTPError]
                (fun _ =>
                   logging WARNING
                     "Sharing: Error removing user %s from album %s"
                     [shared_user; AlbumModel.get_final_name album_to_share])
            else ret tt)
     else ret tt) ;;;
    (* lines 567-577 *)
    if (0 <? List.length share_roles_to_users_expected)%nat then
      for_each share_roles_to_users_expected
        (fun item =>
           let '(share_role_group, share_users) := item in
           try_except
             (share_album_with_user_and_role g
                (fmt (AlbumModel.id album_to_share)) share_users
                share_role_group)
             [cls_AssertionError; HTTPError]
             (fun _ =>
                logging WARNING
                  "Error sharing album %s for users %s in role %s"
                  [AlbumModel.get_final_name album_to_share;
                   share_role_group]))
    else ret tt.

(** *** Searching and deleting assets *)

(** [response_json['assets']['items']] *)
Definition search_items (r : Response) : M (list Asset) :=
  match payload r with
  | PSearch items => ret items
  | _ => raise PayloadError
  end.

(** The [while] loop of [fetch_assets_with_options], lines 348-356.  The
    loop has no bound of its own: [fuel] bounds the number of further
    pages. *)
Fixpoint fetch_more_pages (g : Globals) (search_options : SearchOptions)
    (size : Z) (fuel : nat) (page : Z)
    (assets_received assets_found : list Asset) : M (list Asset) :=
  if Z.of_nat (List.length assets_received) =? size then
    match fuel with
    | O => raise FuelExhausted
    | S fuel' =>
        let page := page + 1 in
        r <- http (mkRequest POST (root_url g ++ "search/metadata")
                              (BodySearch search_options size (PageInt page))) ;;
        check_api_response r ;;;
        assets_received <- search_items r ;;
        fetch_more_pages g search_options size fuel' page assets_received
                         (assets_found ++ assets_received)
    end
  else ret assets_found.

(** [fetch_assets_with_options], lines 317-357. *)
Definition fetch_assets_with_options (g : Globals) (fuel : nat)
    (search_options : SearchOptions) : M (list Asset) :=
  let number_of_assets_to_fetch_per_request_search :=
    Z.min 1000 (number_of_assets_to_fetch_per_request g) in
  let page := 1 in
  r <- http (mkRequest POST (root_url g ++ "search/metadata")
               (BodySearch search_options
                  number_of_assets_to_fetch_per_request_search
                  (PageStr "1"))) ;;
  raise_for_status r ;;;
  assets_received <- search_items r ;;
  fetch_more_pages g search_options
    number_of_assets_to_fetch_per_request_search fuel page assets_received
    ([] ++ assets_received).

(** [fetch_assets], lines 294-315. *)
Definition fetch_assets (g : Globals) (fuel : nat)
    (is_not_in_album find_archived : bool) : M (list Asset) :=
  fetch_assets_with_options g fuel
    (mkSearchOptions (Some is_not_in_album) (Some find_archived) None).

(** [delete_assets], lines 714-738. *)
Definition delete_assets (g : Globals) (assets_to_delete : list Asset)
    (force : bool) : M unit :=
  let api_endpoint := "assets" in
  let asset_ids_to_delete := map asset_id assets_to_delete in
  let data := BodyDeleteAssets force asset_ids_to_delete in
  r <- http (mkRequest DELETE (root_url g ++ api_endpoint) data) ;;
  check_api_response r.

(** [fetch_libraries], lines 759-772. *)
Definition fetch_libraries (g : Globals) : M (list string) :=
  let api_endpoint := "libraries" in
  r <- http (mkRequest GET (root_url g ++ api_endpoint) NoBody) ;;
  check_api_response r ;;;
  match payload r with
  | PLibraries ids => ret ids
  | _ => raise PayloadError
  end.

(** [trigger_offline_asset_removal_async], lines 774-793. *)
Definition trigger_offline_asset_removal_async (g : Globals)
    (library_id : string) : M unit :=
  let api_endpoint := "libraries/" ++ library_id ++ "/removeOffline" in
  r <- http (mkRequest POST (root_url g ++ api_endpoint) NoBody) ;;
  if status_code r =? 403 then
    logging FATAL "--sync-mode 2 requires an Admin User API key!" []
  else check_api_response r.

(** [trigger_offline_asset_removal_pre_minor_version_116], lines 742-757. *)
Definition trigger_offline_asset_removal_pre_minor_version_116 (g : Globals)
    : M unit :=
  libraries <- fetch_libraries g ;;
  for_each libraries
    (fun library => trigger_offline_asset_removal_async g library).

(** [trigger_offline_asset_removal_since_minor_version_116],
    lines 685-711. *)
Definition trigger_offline_asset_removal_since_minor_version_116
    (g : Globals) (fuel : nat) : M unit :=
  trashed_assets <-
    fetch_assets_with_options g fuel
      (mkSearchOptions None None (Some "1970-01-01T00:00:00.000Z")) ;;
  let offline_assets := filter isOffline trashed_assets in
  if (0 <? List.length offline_assets)%nat then
    logging INFO "Deleting %s offline assets" [] ;;;
    delete_assets g offline_assets true
  else logging INFO "No offline assets found!" [].

(** [trigger_offline_asset_removal], lines 663-683. *)
Definition trigger_offline_asset_removal (g : Globals) (fuel : nat) : M unit :=
  if (major (version g) =? 1) && (minor (version g) <? 116) then
    trigger_offline_asset_removal_pre_minor_version_116 g
  else trigger_offline_asset_removal_since_minor_version_116 g fuel.

(** *** Album properties *)

Definition empty_data : PatchData := mkPatchData None None None None.

(** [len(data)] *)
Definition key_count {A} (o : option A) : nat :=
  match o with
  | Some _ => 1
  | None => 0
  end.

Definition data_len (d : PatchData) : nat :=
  (key_count (pd_albumThumbnailAssetId d) + key_count (pd_description d)
   + key_count (pd_order d) + key_count (pd_isActivityEnabled d))%nat.

(** [update_album_properties], lines 857-903.  The description, the order
    and the arguments of the warning are read from the module-level
    [album]. *)
Definition update_album_properties (g : Globals)
    (album_to_update : AlbumModel.t) : M unit :=
  let data := empty_data in
  data <-
    (if opt_truthy (AlbumModel.thumbnail_setting album_to_update)
        && negb (fmt (AlbumModel.thumbnail_setting album_to_update)
                 =? ALBUM_THUMBNAIL_RANDOM_ALL)%string
     then
       album_to_update_info <-
         fetch_album_info g (fmt (AlbumModel.id album_to_update)) ;;
       album_assets <- list_new (info_assets album_to_update_info) ;;
       thumbnail_asset <-
         choose_thumbnail (fmt (AlbumModel.thumbnail_setting album_to_update))
                          album_assets ;;
       match thumbnail_asset with
       | Some thumbnail_asset =>
           logging INFO "Using asset %s as thumbnail for album %s"
                   [originalPath thumbnail_asset;
                    AlbumModel.get_final_name album_to_update] ;;;
           ret (mkPatchData (Some (asset_id thumbnail_asset))
                            (pd_description data) (pd_order data)
                            (pd_isActivityEnabled data))
       | None =>
           logging WARNING
                   "Unable to determine thumbnail for setting '%s' in album %s"
                   [fmt (AlbumModel.thumbnail_setting (album g));
                    AlbumModel.get_final_name (album g)] ;;;
           ret data
       end
     else ret data) ;;
  let data :=
    if opt_truthy (AlbumModel.description album_to_update)
    then mkPatchData (pd_albumThumbnailAssetId data)
                     (Some (AlbumModel.description (album g)))
                     (pd_order data) (pd_isActivityEnabled data)
    else data in
  let data :=
    if opt_truthy (AlbumModel.sort_order album_to_update)
    then mkPatchData (pd_albumThumbnailAssetId data) (pd_description data)
                     (Some (AlbumModel.sort_order (album g)))
                     (pd_isActivityEnabled data)
    else data in
  let data :=
    match AlbumModel.comments_and_likes_enabled album_to_update with
    | Some b => mkPatchData (pd_albumThumbnailAssetId data)
                            (pd_description data) (pd_order data) (Some b)
    | None => data
    end in
  if (0 <? data_len data)%nat then
    let api_endpoint := "albums/" ++ fmt (AlbumModel.id album_to_update) in
    response <- http (mkRequest PATCH (root_url g ++ api_endpoint)
                                (BodyPatch data)) ;;
    check_api_response response
  else ret tt.

(** [set_assets_archived], lines 905-928. *)
Definition set_assets_archived (g : Globals)
    (asset_ids_to_archive : list string) (is_archived : bool) : M unit :=
  let api_endpoint := "assets" in
  let data := BodyArchive asset_ids_to_archive is_archived in
  r <- http (mkRequest PUT (root_url g ++ api_endpoint) data) ;;
  check_api_response r.

(** ** Start of the script, lines 1146-1236 *)

(** The parsed command line, [args]. *)
Record Args : Type := mkArgs {
  arg_local_root_path : string;
  arg_immich_root_path : string;
  arg_api_url : string;
  arg_api_key : string;
  arg_api_key_type : string;
  arg_chunk_size : Z;
  arg_fetch_chunk_size : Z;
  arg_share_with : option (list string);
  arg_share_role : string;
  arg_sync_mode : Z;
  arg_album_order : option string;
  arg_set_album_thumbnail : option string;
  arg_archive : bool;
  arg_comments_and_likes_enabled : bool;
  arg_comments_and_likes_disabled : bool;
  arg_update_album_props_mode : Z;
  arg_sync_library : option string
}.

(** [read_file], lines 144-161. *)
Definition read_file (file_path : string) : M string :=
  fun w =>
    match files w file_path with
    | Some contents => (Ret (strip contents), w)
    | None => (Exc FileNotFoundError, w)
    end.

(** [determine_api_key], lines 183-206. *)
Definition determine_api_key (api_key_source key_type : string)
    : M (option string) :=
  if (key_type =? "literal")%string then ret (Some api_key_source)
  else if (key_type =? "file")%string then
    s <- read_file api_key_source ;;
    ret (Some s)
  else
    logging ERROR
      "Unknown key type (-t, --key-type). Must be either 'literal' or 'file'."
      [] ;;;
    ret None.

(** [sys.exit(code)] *)
Definition sys_exit {A} (code : Z) : M A := raise (SystemExit code).

(** [s[-1]] *)
Fixpoint last_char (s : string) : option ascii :=
  match s with
  | EmptyString => None
  | String c EmptyString => Some c
  | String _ s' => last_char s'
  end.

(** Lines 1221-1227: [if p[-1] != '/': p = p + '/']. *)
Definition with_trailing_slash (p : string) : M string :=
  match last_char p with
  | None => raise IndexError
  | Some c => if Ascii.eqb c "/"%char then ret p else ret (p ++ "/")
  end.

(** [fetch_server_version], lines 255-284; it reads the module-level
    [root_url], which is bound before the other globals. *)
Definition fetch_server_version (root_url : string) : M Version :=
  let api_endpoint := root_url ++ "server/version" in
  r <- http (mkRequest GET api_endpoint NoBody) ;;
  r <- (if status_code r =? 404 then
          let api_endpoint := root_url ++ "server-info/version" in
          http (mkRequest GET api_endpoint NoBody)
        else ret r) ;;
  if status_code r =? 200 then
    match payload r with
    | PVersion server_version =>
        logging INFO "Detected Immich server version %s.%s.%s" [] ;;;
        ret server_version
    | _ => raise PayloadError
    end
  else
    logging ERROR
      "Communication with Immich API failed! Make sure the passed API URL is correct!"
      [] ;;;
    check_api_response r ;;;
    raise UnboundLocalError.

(** [sync_library], lines 287-291. *)
Definition sync_library (root_url : string) (library_id : string) : M unit :=
  r <- http (mkRequest POST (root_url ++ "libraries/" ++ library_id ++ "/scan")
                       NoBody) ;;
  raise_for_status r.

(** What the start of the script binds. *)
Record Startup : Type := mkStartup {
  st_local_root_path : string;
  st_immich_root_path : string;
  st_root_url : string;
  st_api_key : string;
  st_version : Version
}.

(** Lines 1146-1233: from the parsed arguments to the version gate. *)
Definition startup (args : Args) : M Startup :=
  let local_root_path := arg_local_root_path args in
  let immich_root_path := arg_immich_root_path args in
  let root_url := arg_api_url args in
  api_key <- determine_api_key (arg_api_key args) (arg_api_key_type args) ;;
  match api_key with
  | None =>
      logging FATAL "Unable to determine API key with API Key type %s"
              [arg_api_key_type args] ;;;
      sys_exit 1
  | Some api_key =>
      (if arg_comments_and_likes_disabled args
          && arg_comments_and_likes_enabled args
       then
         logging FATAL
           "Arguments --comments-and-likes-enabled and --comments-and-likes-disabled cannot be used together! Choose one!"
           [] ;;;
         sys_exit 1
       else ret tt) ;;;
      local_root_path <- with_trailing_slash local_root_path ;;
      immich_root_path <- with_trailing_slash immich_root_path ;;
      root_url <- with_trailing_slash root_url ;;
      version <- fetch_server_version root_url ;;
      (if (major version =? 1) && (minor version <? 106) then
         logging FATAL
           "This script only works with Immich Server v1.106.0 and newer! Update Immich Server or use script version 0.8.1!"
           [] ;;;
         sys_exit 1
       else ret tt) ;;;
      ret (mkStartup local_root_path immich_root_path root_url api_key version)
  end.

(** Lines 1146-1236: the start and the optional library scan, the first
    request of the script that changes the server. *)
Definition startup_and_sync (args : Args) : M Startup :=
  st <- startup args ;;
  match arg_sync_library args with
  | Some library_to_sync => sync_library (st_root_url st) library_to_sync
  | None => ret tt
  end ;;;
  ret st.

(** The module-level names once the start is over; [users] and [album]
    are bound later. *)
Definition globals_of (args : Args) (st : Startup) (users : list User)
    (album : AlbumModel.t) : Globals :=
  mkGlobals (st_root_url st) (arg_chunk_size args) (arg_fetch_chunk_size args)
    (arg_share_with args) (arg_share_role args) (arg_set_album_thumbnail args)
    (arg_archive args) (arg_album_order args)
    (arg_comments_and_likes_enabled args)
    (arg_comments_and_likes_disabled args)
    (arg_update_album_props_mode args) (arg_sync_mode args) (st_version st)
    users album.

(** ** The reconciliation loop, lines 1283-1317 (mode CREATE) *)

(** The local state of the loop.  [created_albums] holds objects and
    [album in created_albums] compares by identity; an album object is
    identified by its key in [albums_to_create]. *)
Record LoopState : Type := mkLoopState {
  album_to_id : Dict string;
  created_albums : list string;
  asset_uuids_added : list string;
  albums_done : Dict AlbumModel.t
}.

(** The body of the loop for the album stored under [key]. *)
Definition reconcile_album (g : Globals) (st : LoopState)
    (item : string * AlbumModel.t) : M LoopState :=
  let '(key, album0) := item in
  let final_name := AlbumModel.get_final_name album0 in
  created <-
    (if negb (dict_mem final_name (album_to_id st)) then
       new_id <- create_album g final_name ;;
       logging INFO "Album %s added!" [final_name] ;;;
       ret (AlbumModel.set_id album0 (Some new_id),
            dict_set final_name new_id (album_to_id st),
            (created_albums st ++ [key])%list)
     else
       ret (AlbumModel.set_id album0 (dict_get final_name (album_to_id st)),
            album_to_id st, created_albums st)) ;;
  let '(album, album_to_id, created_albums) := created in
  let g := set_album g album in
  logging INFO "Adding assets to album %s" [final_name] ;;;
  assets_added <-
    add_assets_to_album g (fmt (AlbumModel.id album))
                        (AlbumModel.get_asset_uuids album) ;;
  asset_uuids_added <-
    (if (0 <? List.length assets_added)%nat then
       logging INFO "%d new assets added to %s" [final_name] ;;;
       ret (asset_uuids_added st ++ assets_added)%list
     else ret (asset_uuids_added st)) ;;
  (if (0 <? update_album_props_mode g) || str_in key created_albums then
     try_except (update_album_properties g album) [HTTPError]
       (fun _ =>
          logging ERROR "Error updating properties for album %s: %s"
                  [final_name])
   else ret tt) ;;;
  (if (update_album_props_mode g =? 2) || str_in key created_albums then
     update_album_shared_state g album true
   else ret tt) ;;;
  ret (mkLoopState album_to_id created_albums asset_uuids_added
                   (albums_done st ++ [(key, album)])%list).

(** Lines 1288-1317. *)
Definition reconcile (g : Globals) (albums_to_create : Dict AlbumModel.t)
    (album_to_id : Dict string) : M LoopState :=
  st <- for_fold albums_to_create (mkLoopState album_to_id [] [] [])
                 (reconcile_album g) ;;
  logging INFO "%d albums created" [] ;;;
  ret st.

(** ** Deleting empty albums, lines 1351-1367 *)
Definition delete_empty_albums (g : Globals) : M (Z * Z) :=
  logging INFO "Deleting all empty albums" [] ;;;
  albums <- fetch_albums g ;;
  counts <-
    for_fold albums (0, 0)
      (fun counts album =>
         let '(empty_album_count, cleaned_album_count) := counts in
         if entry_assetCount album =? 0 then
           let empty_album_count := empty_album_count + 1 in
           logging INFO "Deleting empty album %s" [entry_albumName album] ;;;
           deleted <- delete_album g album ;;
           if deleted : bool then ret (empty_album_count, cleaned_album_count + 1)
           else ret (empty_album_count, cleaned_album_count)
         else ret counts) ;;
  (if 0 <? fst counts then
     logging INFO "Successfully deleted %d/%d empty albums!" []
   else logging INFO "No empty albums found!" []) ;;;
  ret counts.

(** ** Further functions of the script *)

(** [c in s] for a character [c]. *)
Fixpoint contains_char (c : ascii) (s : string) : bool :=
  match s with
  | EmptyString => false
  | String c' s' => Ascii.eqb c' c || contains_char c s'
  end.

(** [expand_to_glob], lines 208-229. *)
Definition expand_to_glob (expr : string) : string :=
  if negb (contains_char "/"%char expr) && negb (contains_char "*"%char expr)
  then
    let glob_expr := "**/*" ++ expr ++ "*/**" in
    glob_expr
  else expr.


(** [s.startswith(p)] and [s[n:]]. *)
Definition startswith (s p : string) : bool := String.prefix p s.

Fixpoint drop (n : nat) (s : string) : string :=
  match n, s with
  | O, _ => s
  | S n', String _ s' => drop n' s'
  | S _, EmptyString => EmptyString
  end.

(** [build_id_mapping], lines 997-1013.  The rows of the table [media]
    of the index are an input, [(uuid, path)] each; [normpath] stands for
    [os.path.normpath]. *)
Definition build_id_mapping (normpath : string -> string)
    (asset_list : list Asset) (local_root_path immich_root_path : string)
    (media : list (string * string)) : Dict Asset :=
  let asset_by_local_path :=
    fold_left
      (fun d asset =>
         if startswith (originalPath asset) immich_root_path
         then dict_set
                (local_root_path
                   ++ drop (String.length immich_root_path) (originalPath asset))
                asset d
         else d)
      asset_list [] in
  fold_left
    (fun asset_by_gpid row =>
       let path := normpath (snd row) in
       match dict_get path asset_by_local_path with
       | Some asset => dict_set (fst row) asset asset_by_gpid
       | None => asset_by_gpid
       end)
    media [].

(** Line 1271: [{album['albumName']: album['id'] for album in albums}]. *)
Definition album_ids_by_name (albums : list AlbumEntry) : Dict string :=
  fold_left
    (fun d album => dict_set (entry_albumName album) (entry_id album) d)
    albums [].

Definition set_users (g : Globals) (l : list User) : Globals :=
  mkGlobals (root_url g) (number_of_images_per_request g)
    (number_of_assets_to_fetch_per_request g) (share_with g) (share_role g)
    (set_album_thumbnail g) (archive g) (album_order g)
    (comments_and_likes_enabled g) (comments_and_likes_disabled g)
    (update_album_props_mode g) (sync_mode g) (version g) l (album g).

(** Lines 1268-1322: the existing albums and the users are fetched, the
    albums are reconciled, the new assets are archived. *)
Definition create_albums (g : Globals) (albums_to_create : Dict AlbumModel.t)
    : M LoopState :=
  logging INFO "Listing existing albums on immich" [] ;;;
  albums <- fetch_albums g ;;
  let album_to_id := album_ids_by_name albums in
  logging INFO "%d existing albums identified" [] ;;;
  (* lines 1274-1277 *)
  let albums_to_create :=
    map (fun item =>
           let album := snd item in
           if dict_mem (AlbumModel.get_final_name album) album_to_id
           then (fst item,
                 AlbumModel.set_id album
                   (dict_get (AlbumModel.get_final_name album) album_to_id))
           else item)
        albums_to_create in
  users <- fetch_users g ;;
  let g := set_users g users in
  logging INFO "Creating albums if needed" [] ;;;
  st <- reconcile g albums_to_create album_to_id ;;
  (if archive g && (0 <? List.length (asset_uuids_added st))%nat then
     set_assets_archived g (asset_uuids_added st) true ;;;
     logging INFO "Archived %d assets" []
   else ret tt) ;;;
  ret st.

(** Lines 1340-1367: the actions of the synchronisation mode. *)
Definition sync_mode_actions (g : Globals) (fuel : nat) : M unit :=
  (if sync_mode g =? 2 then
     logging INFO "Trigger offline asset removal" [] ;;;
     trigger_offline_asset_removal g fuel
   else ret tt) ;;;
  (if 1 <=? sync_mode g then
     delete_empty_albums g ;;; ret tt
   else ret tt).

(** ** Vocabulary of the statements *)

(** [a] is the first asset of [l] with the smallest creation timestamp. *)
Definition earliest_created (a : Asset) (l : list Asset) : Prop :=
  exists l1 l2,
    l = (l1 ++ a :: l2)%list
    /\ Forall (fun x => created_leb x a = false) l1
    /\ Forall (fun x => created_leb a x = true) l2.

(** [a] is the last asset of [l] with the greatest creation timestamp. *)
Definition latest_created (a : Asset) (l : list Asset) : Prop :=
  exists l1 l2,
    l = (l1 ++ a :: l2)%list
    /\ Forall (fun x => created_leb x a = true) l1
    /\ Forall (fun x => created_leb a x = false) l2.

(** [a] is the first asset of [l] whose path is [p]. *)
Definition first_with_path (p : string) (a : Asset) (l : list Asset) : Prop :=
  exists l1 l2,
    l = (l1 ++ a :: l2)%list
    /\ originalPath a = p
    /\ Forall (fun x => originalPath x <> p) l1.

(** The index a random setting draws in a list of [n] elements. *)
Definition drawn_index (w : World) (n : nat) : nat :=
  match draws w with
  | [] => 0%nat
  | d :: _ => (d mod n)%nat
  end.

(** *** Worlds and requests *)

(** The world after further requests and log records. *)
Definition after (w : World) (reqs : list Request) (logs : list LogRecord)
    : World :=
  mkWorld (server w) (trace w ++ reqs) (logged w ++ logs) (store w)
          (store_next w) (draws w) (files w).

(** The answers of a server to consecutive requests, from a history. *)
Fixpoint replies (s : Server) (history : list Request) (reqs : list Request)
    : list Response :=
  match reqs with
  | [] => []
  | r :: reqs' => s history r :: replies s (history ++ [r]) reqs'
  end.

(** The outcome of [check_api_response] on a response. *)
Definition checked (r : Response) : Outcome unit :=
  if is_error_status (status_code r)
  then Exc (RequestsHTTPError (status_code r))
  else Ret tt.

(** The requests issued so far, and their methods and addresses only. *)
Definition calls (w : World) : list (Method * string * Body) :=
  map (fun r => (req_method r, req_url r, req_body r)) (trace w).

Definition endpoints (w : World) : list (Method * string) :=
  map (fun r => (req_method r, req_url r)) (trace w).


(** *** The requests of the client functions *)

Definition delete_request (g : Globals) (album_delete : AlbumEntry)
    : Request :=
  mkRequest DELETE (root_url g ++ "albums" ++ "/" ++ entry_id album_delete)
            NoBody.

Definition role_request (g : Globals) (album_id user_id role : string)
    : Request :=
  mkRequest PUT (root_url g ++ "albums/" ++ album_id ++ "/user/" ++ user_id)
            (BodyRole role).

Definition share_request (g : Globals) (album_id : string)
    (user_ids : list string) (role : string) : Request :=
  mkRequest PUT (root_url g ++ "albums/" ++ album_id ++ "/users")
            (BodyAlbumUsers (map (fun u => mkShareInfo role u) user_ids)).

(** The request [add_assets_to_album] sends for one chunk. *)
Definition assets_request (g : Globals) (album_id : string)
    (chunk : list string) : Request :=
  mkRequest PUT (root_url g ++ "albums" ++ "/" ++ album_id ++ "/assets")
            (BodyIds chunk).

Definition delete_assets_request (g : Globals) (force : bool)
    (assets : list Asset) : Request :=
  mkRequest DELETE (root_url g ++ "assets")
            (BodyDeleteAssets force (map asset_id assets)).

Definition libraries_request (g : Globals) : Request :=
  mkRequest GET (root_url g ++ "libraries") NoBody.

Definition remove_offline_request (g : Globals) (library_id : string)
    : Request :=
  mkRequest POST (root_url g ++ "libraries/" ++ library_id ++ "/removeOffline")
            NoBody.

(** The size of a search page, line 335. *)
Definition search_page_size (g : Globals) : Z :=
  Z.min 1000 (number_of_assets_to_fetch_per_request g).

(** The search request for page [page], counted from 1. *)
Definition search_request (g : Globals) (search_options : SearchOptions)
    (page : Z) : Request :=
  mkRequest POST (root_url g ++ "search/metadata")
    (BodySearch search_options (search_page_size g)
       (if page =? 1 then PageStr "1" else PageInt page)).

Definition trashed_options : SearchOptions :=
  mkSearchOptions None None (Some "1970-01-01T00:00:00.000Z").

(** *** Sharing *)

(** The desired shares of the module-level [album]: the role by user id,
    without the users that are not known to the server. *)
Definition desired_shares (g : Globals) : Dict string :=
  fold_left
    (fun d share_user =>
       match find_user_by_name_or_email (su_user share_user) (users g) with
       | None => d
       | Some u => dict_set (user_id u) (su_role share_user) d
       end)
    (AlbumModel.share_with (album g)) [].


Definition unknown_user_warnings (g : Globals) : list LogRecord :=
  flat_map
    (fun share_user =>
       match find_user_by_name_or_email (su_user share_user) (users g) with
       | None =>
           [mkLog WARNING "User %s to share album %s with does not exist!"
                  [su_user share_user; AlbumModel.get_final_name (album g)]]
       | Some _ => []
       end)
    (AlbumModel.share_with (album g)).

(** The users of [desired] that [actual] holds with another role. *)
Definition role_changes (desired actual : Dict string) : Dict string :=
  filter
    (fun item =>
       match dict_get (fst item) actual with
       | Some role_actual => negb (role_actual =? snd item)%string
       | None => false
       end)
    desired.

(** The users of [actual] that [desired] does not hold. *)
Definition users_to_unshare (desired actual : Dict string) : list string :=
  map fst (filter (fun item => negb (dict_mem (fst item) desired)) actual).

(** The users of [desired] that [actual] does not hold, by role. *)
Definition users_to_add (desired actual : Dict string) : Dict (list string) :=
  fold_left
    (fun by_role item =>
       match dict_get (fst item) actual with
       | None => dict_append (snd item) (fst item) by_role
       | Some _ => by_role
       end)
    desired [].

Definition album_info_request (g : Globals) (album_id : string) : Request :=
  mkRequest GET (root_url g ++ "albums/" ++ album_id) NoBody.

Definition unshare_request (g : Globals) (album_id user_id : string)
    : Request :=
  mkRequest DELETE (root_url g ++ "albums/" ++ album_id ++ "/user/" ++ user_id)
            NoBody.

(** The requests that bring the sharing [actual] of an album to [desired]:
    the changes of role, the removals when [unshare_users] is set, the
    additions by role. *)
Definition sharing_requests (g : Globals) (album_id : string)
    (desired actual : Dict string) (unshare_users : bool) : list Request :=
  (map (fun item => role_request g album_id (fst item) (snd item))
       (role_changes desired actual)
   ++ (if unshare_users
       then map (unshare_request g album_id) (users_to_unshare desired actual)
       else [])
   ++ map (fun item => share_request g album_id (snd item) (fst item))
          (users_to_add desired actual))%list.

(** A response that is not an HTTP error. *)
Definition succeeded (r : Response) : Prop :=
  is_error_status (status_code r) = false.

(** *** Answers to an add request *)

Definition results_of (r : Response) : list AddResult :=
  match payload r with
  | PAddResults l => l
  | _ => []
  end.

(** The ids a response reports as added. *)
Definition reported_added (r : Response) : list string :=
  map res_id (filter res_success (results_of r)).

(** The results of a response that failed for another reason than
    being a duplicate. *)
Definition reported_errors (r : Response) : list AddResult :=
  filter (fun res => negb (res_success res)
                     && negb (res_error res =? "duplicate")%string)
         (results_of r).

Definition add_warning (res : AddResult) : LogRecord :=
  mkLog WARNING "Error adding an asset to an album: %s" [res_error res].

(** A response to an add request that is not an HTTP error and decodes to
    a list of results. *)
Definition accepted (r : Response) : Prop :=
  is_error_status (status_code r) = false
  /\ exists l, payload r = PAddResults l.

(** *** Answers to a search *)

Definition items_of (r : Response) : list Asset :=
  match payload r with
  | PSearch items => items
  | _ => []
  end.

(** A response to a search that is not an HTTP error and decodes to a page
    of assets. *)
Definition page_ok (r : Response) : Prop :=
  is_error_status (status_code r) = false
  /\ exists items, payload r = PSearch items.

(** [received] is a full page and so are the pages of [rs] but the last
    one; with [rs] empty, [received] itself is not full. *)
Fixpoint pages_continue (size : Z) (received : list Asset)
    (rs : list Response) : Prop :=
  match rs with
  | [] => Z.of_nat (List.length received) <> size
  | r :: rs' =>
      Z.of_nat (List.length received) = size
      /\ pages_continue size (items_of r) rs'
  end.

(** The pages of [rs] are full but the last one. *)
Definition pages_end (size : Z) (rs : list Response) : Prop :=
  match rs with
  | [] => False
  | r :: rs' => pages_continue size (items_of r) rs'
  end.

Definition admin_key_required : LogRecord :=
  mkLog FATAL "--sync-mode 2 requires an Admin User API key!" [].

(** *** The start of the script *)



(** *** Command-line defaults *)

(** The [share_with] entry of one [--share-with] argument. *)
Definition share_entry (g : Globals) (album_share_user : string) : ShareUser :=
  let (share_user_name, share_user_role) :=
    parse_separated_string album_share_user "="%char in
  mkShareUser share_user_name
    match share_user_role with
    | None => share_role g
    | Some r => r
    end.

(** The thumbnail setting taken from the cover photo of a Google album. *)
Definition cover_thumbnail (asset_by_gpid : Dict Asset)
    (google_album : GoogleAlbum) : option string :=
  match ga_coverPhotoMediaItemId google_album with
  | Some thumbnail_id =>
      match dict_get thumbnail_id asset_by_gpid with
      | Some thumbnail_asset => Some (originalPath thumbnail_asset)
      | None => None
      end
  | None => None
  end.

(** ** Example inputs *)

Definition ok_server : Server := fun _ _ => mkResponse 200 "OK" PEmpty.

(** A fresh world: no request issued, nothing logged, one list object at
    address 0 holding [l], and [ds] as the coming random values. *)
Definition world_with (s : Server) (l : list Asset) (ds : list nat) : World :=
  mkWorld s [] [] (fun r => if Nat.eqb r 0 then l else []) 1 ds
          (fun _ => None).

Definition run {A} (m : M A) (s : Server) : Outcome A * World :=
  m (world_with s [] []).

Definition photo_a : Asset :=
  mkAsset "a" "/lib/a.jpg" "2021-05-02T10:00:00.000Z" false.
Definition photo_b : Asset :=
  mkAsset "b" "/lib/b.jpg" "2020-01-01T08:00:00.000Z" true.
Definition photo_c : Asset :=
  mkAsset "c" "/lib/c.jpg" "2021-05-02T10:00:00.000Z" false.
Definition photo_d : Asset :=
  mkAsset "d" "/lib/d.jpg" "2020-01-01T08:00:00.000Z" true.

Definition version_1_120 : Version := mkVersion 1 120 0.

Definition alice : User := mkUser "userA" "alice" "alice@example.org".
Definition bob : User := mkUser "userB" "bob" "bob@example.org".

Definition album_alps : AlbumModel.t :=
  AlbumModel.mk (Some "id-alps") "Alps" None None [photo_a] [] None
                (Some "asc") None None.

Definition album_beach : AlbumModel.t :=
  AlbumModel.mk (Some "id-beach") "Beach" None None [photo_b] [] None
                (Some "asc") None None.


(** Module-level names of a run with [--album-order asc] and the given
    [--update-album-props-mode]; [a] is the album the loop variable holds. *)
Definition example_globals (mode : Z) (a : AlbumModel.t) : Globals :=
  mkGlobals "http://immich/api/" 2000 5000 None "viewer" None false
            (Some "asc") false false mode 0 version_1_120 [alice; bob] a.

(** The answer of a server that adds every asset it is sent. *)
Definition all_added (b : Body) : Payload :=
  match b with
  | BodyIds ids => PAddResults (map (fun i => mkAddResult i true "") ids)
  | _ => PEmpty
  end.

(** A server on which every PATCH fails with status 500. *)
Definition patch_failing_server : Server :=
  fun _ r =>
    match req_method r with
    | PATCH => mkResponse 500 "Internal Server Error" (PError "update failed")
    | _ => mkResponse 200 "OK" (all_added (req_body r))
    end.

(** A server that reports [actual] as the sharing of every album and
    answers a change of role with [status]; every other request succeeds. *)
Definition sharing_server (actual : list AlbumUser) (status : Z) : Server :=
  fun _ r =>
    match req_method r, req_body r with
    | GET, _ => mkResponse 200 "OK" (PAlbumInfo (mkAlbumInfo actual []))
    | _, BodyRole _ => mkResponse status "" PEmpty
    | _, _ => mkResponse 200 "OK" (all_added (req_body r))
    end.

Definition not_found_server : Server :=
  fun _ _ => mkResponse 404 "Not Found" (PError "Not found").

(** A server on which asset ["b"] is already in the album, asset ["c"] is
    not found, and every other asset is added. *)
Definition add_result_for (i : string) : AddResult :=
  if (i =? "b")%string then mkAddResult i false "duplicate"
  else if (i =? "c")%string then mkAddResult i false "not_found"
  else mkAddResult i true "".

Definition album_server : Server :=
  fun _ r =>
    match req_body r with
    | BodyIds ids => mkResponse 200 "OK" (PAddResults (map add_result_for ids))
    | _ => mkResponse 200 "OK" PEmpty
    end.

(** A run with [--chunk-size 2]. *)
Definition chunked_globals : Globals :=
  mkGlobals "http://immich/api/" 2 5000 None "viewer" None false None
            false false 0 0 version_1_120 [] album_alps.

(** Module-level names of a run against a server of version [v] with
    [--fetch-chunk-size size]. *)
Definition globals_at (v : Version) (size : Z) : Globals :=
  mkGlobals "http://immich/api/" 2000 size None "viewer" None false None
            false false 0 2 v [] album_alps.

(** A server with two libraries that refuses the removal job. *)
Definition forbidden_server : Server :=
  fun _ r =>
    match req_method r with
    | GET => mkResponse 200 "OK" (PLibraries ["lib-1"; "lib-2"])
    | _ => mkResponse 403 "Forbidden" (PError "Forbidden")
    end.

(** A server whose trash holds three assets, served in pages of two. *)
Definition trash_server : Server :=
  fun _ r =>
    match req_body r with
    | BodySearch _ _ (PageStr _) =>
        mkResponse 200 "OK" (PSearch [photo_b; photo_a])
    | BodySearch _ _ (PageInt 2) => mkResponse 200 "OK" (PSearch [photo_d])
    | BodySearch _ _ (PageInt _) => mkResponse 200 "OK" (PSearch [])
    | _ => mkResponse 204 "No Content" PEmpty
    end.

(** A server that reports version [v]. *)
Definition version_server (v : Version) : Server :=
  fun _ _ => mkResponse 200 "OK" (PVersion v).

Definition example_args : Args :=
  mkArgs "/mnt/photos" "/usr/src/app/external" "http://immich/api" "secret"
         "literal" 2000 5000 None "viewer" 0 None None false false false 0
         None.

(** A run with [--set-album-thumbnail first]. *)
Definition thumbnail_first_globals : Globals :=
  mkGlobals "http://immich/api/" 2000 5000 None "viewer" (Some "first") false
            None false false 0 0 version_1_120 [] album_alps.

(** A Google album whose cover photo is the media item of [photo_a]. *)
Definition trip_album : GoogleAlbum :=
  mkGoogleAlbum true (Some "Trip") "album-1" (Some "media-a").

(** ** Vocabulary and inputs of the further properties *)

(** A server that accepts the first chunk only. *)
Definition second_chunk_fails : Server :=
  fun history r =>
    match history, req_body r with
    | [], BodyIds ids =>
        mkResponse 200 "OK" (PAddResults (map add_result_for ids))
    | _, _ => mkResponse 500 "Internal Server Error" PEmpty
    end.

(** The two requests of [fetch_server_version]. *)
Definition version_request (root : string) : Request :=
  mkRequest GET (root ++ "server/version") NoBody.

(** The request to the endpoint of the servers before 1.118. *)
Definition legacy_version_request (root : string) : Request :=
  mkRequest GET (root ++ "server-info/version") NoBody.

(** A server that knows the legacy version endpoint only. *)
Definition legacy_server (v : Version) : Server :=
  fun history _ =>
    match history with
    | [] => mkResponse 404 "Not Found" PEmpty
    | _ => mkResponse 200 "OK" (PVersion v)
    end.

(** A server that finds nothing. *)
Definition empty_search_server : Server :=
  fun _ _ => mkResponse 200 "OK" (PSearch []).

(** The request of [fetch_albums]. *)
Definition albums_request (g : Globals) : Request :=
  mkRequest GET (root_url g ++ "albums") NoBody.

(** [album['assetCount'] == 0] *)
Definition is_empty_album (a : AlbumEntry) : bool := entry_assetCount a =? 0.

(** The record logged before an empty album is deleted. *)
Definition deleting_log (a : AlbumEntry) : LogRecord :=
  mkLog INFO "Deleting empty album %s" [entry_albumName a].

(** A listing with an album of two assets between two empty albums. *)
Definition three_albums : list AlbumEntry :=
  [mkAlbumEntry "id-old" "Old" 0; mkAlbumEntry "id-alps" "Alps" 2;
   mkAlbumEntry "id-new" "New" 0].

(** A server that lists [three_albums] and answers every other request
    with [status]. *)
Definition listing_server (status : Z) : Server :=
  fun _ r =>
    match req_method r with
    | GET => mkResponse 200 "OK" (PAlbums three_albums)
    | _ => mkResponse status "" PEmpty
    end.

(** The PATCH of [update_album_properties]. *)
Definition patch_request (g : Globals) (album_id : string) (data : PatchData)
    : Request :=
  mkRequest PATCH (root_url g ++ "albums/" ++ album_id) (BodyPatch data).

(** The path under the local root of an asset under the Immich root. *)
Definition local_path (local_root_path immich_root_path : string) (a : Asset)
    : string :=
  local_root_path ++ drop (String.length immich_root_path) (originalPath a).

(** The asset of the library that lies at a local path: the last one
    listed, among the assets under the Immich root. *)
Definition asset_at_local_path (asset_list : list Asset)
    (local_root_path immich_root_path : string) (path : string)
    : option Asset :=
  find (fun a => startswith (originalPath a) immich_root_path
                 && (local_path local_root_path immich_root_path a =? path)%string)
       (rev asset_list).

(** [o is not None] *)
Definition is_some {A} (o : option A) : bool :=
  match o with
  | Some _ => true
  | None => false
  end.

(** Module-level names of a run in which the album of the loop is shared
    with alice as viewer and with bob as editor. *)
Definition shared_globals : Globals :=
  example_globals 2
    (AlbumModel.set_share_with album_alps
       [mkShareUser "alice" "viewer"; mkShareUser "bob" "editor"]).

(** The sharing that [shared_globals] asks for, as a server reports it. *)
Definition shared_as_desired : list AlbumUser :=
  [mkAlbumUser "userB" "editor"; mkAlbumUser "userA" "viewer"].

(** The elements of [l] whose key is not in [seen] and is not the key of
    an element before them: the first element of each key. *)
Fixpoint distinct_by {X} (key : X -> string) (seen : list string)
    (l : list X) : list X :=
  match l with
  | [] => []
  | x :: l' =>
      if str_in (key x) seen then distinct_by key seen l'
      else x :: distinct_by key (key x :: seen) l'
  end.

(** A Google album that [build_album_list] reads: it has a
    [mediaItemsCount] and a [title]. *)
Definition is_listed (ga : GoogleAlbum) : bool :=
  ga_has_mediaItemsCount ga
  && match ga_title ga with
     | Some _ => true
     | None => false
     end.

(** [google_album['title'] == album_name] *)
Definition has_title (album_name : string) (ga : GoogleAlbum) : bool :=
  match ga_title ga with
  | Some t => (t =? album_name)%string
  | None => false
  end.

(** The albums read under a title: the first album of each id, among
    those listed with the title. *)
Definition albums_titled (google_albums : list GoogleAlbum)
    (album_name : string) : list GoogleAlbum :=
  filter (has_title album_name)
         (distinct_by ga_id [] (filter is_listed google_albums)).

(** The media of the albums read under a title, each id once. *)
Definition media_titled (google_albums : list GoogleAlbum)
    (album_file : string -> list string) (album_name : string)
    : list string :=
  distinct_by (fun i => i) []
    (flat_map (fun ga => album_file (ga_id ga))
              (albums_titled google_albums album_name)).

(** The assets mapped from a list of media ids. *)
Definition mapped_assets (asset_by_gpid : Dict Asset) (ids : list string)
    : list Asset :=
  flat_map (fun i => match dict_get i asset_by_gpid with
                     | Some a => [a]
                     | None => []
                     end) ids.

(** The model that [build_album_list] holds for a title: the model built
    for the first album read under the title, with the assets mapped from
    the media of all the albums read under it. *)
Definition model_titled (g : Globals) (asset_by_gpid : Dict Asset)
    (google_albums : list GoogleAlbum) (album_file : string -> list string)
    (album_name : string) : option AlbumModel.t :=
  match albums_titled google_albums album_name with
  | [] => None
  | google_album :: _ =>
      Some (AlbumModel.set_assets
              (new_album_model_for g asset_by_gpid album_name google_album)
              (mapped_assets asset_by_gpid
                 (media_titled google_albums album_file album_name)))
  end.

(** Three media of the archive and the assets they are mapped to. *)
Definition three_media : Dict Asset :=
  [("media-a", photo_a); ("media-b", photo_b); ("media-c", photo_c)].

(** A second Google album with the title of [trip_album]. *)
Definition trip_album_shared : GoogleAlbum :=
  mkGoogleAlbum true (Some "Trip") "album-2" None.

(** The media of the two albums; ["media-x"] is not mapped. *)
Definition trip_files (album_id : string) : list string :=
  if (album_id =? "album-1")%string then ["media-a"; "media-b"]
  else ["media-b"; "media-x"; "media-c"].

(** The request of [create_album]. *)
Definition create_request (g : Globals) (album_name : string) : Request :=
  mkRequest POST (root_url g ++ "albums") (BodyAlbumName album_name).

(** A server that creates every album under the id ["id-new"] and adds
    every asset. *)
Definition creating_server : Server :=
  fun _ r =>
    match req_body r with
    | BodyAlbumName _ => mkResponse 201 "Created" (PCreated "id-new")
    | BodyIds ids => mkResponse 200 "OK" (PAddResults (map add_result_for ids))
    | _ => mkResponse 200 "OK" (PAlbumInfo (mkAlbumInfo [] []))
    end.

(** A server that lists the album ["Alps"], creates every other album
    under the id ["id-new"] and adds every asset. *)
Definition listing_creating_server : Server :=
  fun _ r =>
    match req_method r, req_body r with
    | GET, _ =>
        if String.eqb (req_url r) "http://immich/api/albums"
        then mkResponse 200 "OK" (PAlbums [mkAlbumEntry "id-alps" "Alps" 1])
        else if String.eqb (req_url r) "http://immich/api/users"
        then mkResponse 200 "OK" (PUsers [alice; bob])
        else mkResponse 200 "OK" (PAlbumInfo (mkAlbumInfo [] []))
    | _, BodyAlbumName _ => mkResponse 201 "Created" (PCreated "id-new")
    | _, BodyIds ids =>
        mkResponse 200 "OK" (PAddResults (map add_result_for ids))
    | _, _ => mkResponse 200 "OK" PEmpty
    end.

(** Module-level names of a run with [--sync-mode 1]. *)
Definition sync_mode_1_globals : Globals :=
  mkGlobals "http://immich/api/" 2000 5000 None "viewer" None false None
            false false 0 1 version_1_120 [] album_alps.

(** The module-level names under another [--update-album-props-mode]. *)
Definition set_update_album_props_mode (g : Globals) (mode : Z) : Globals :=
  mkGlobals (root_url g) (number_of_images_per_request g)
    (number_of_assets_to_fetch_per_request g) (share_with g) (share_role g)
    (set_album_thumbnail g) (archive g) (album_order g)
    (comments_and_likes_enabled g) (comments_and_likes_disabled g)
    mode (sync_mode g) (version g) (users g) (album g).



(** * Properties *)

Unset Implicit Arguments.

(** ** The order on creation timestamps *)

Lemma ascii_compare_refl (c : ascii) : Ascii.compare c c = Eq.
Proof. unfold Ascii.compare. apply N.compare_refl. Qed.

Lemma ascii_compare_lt_trans (a b c : ascii) :
  Ascii.compare a b = Lt -> Ascii.compare b c = Lt -> Ascii.compare a c = Lt.
Proof.
  unfold Ascii.compare. rewrite !N.compare_lt_iff. apply N.lt_trans.
Qed.

Lemma string_leb_trans (s1 s2 s3 : string) :
  String.leb s1 s2 = true -> String.leb s2 s3 = true -> String.leb s1 s3 = true.
Proof.
  unfold String.leb. revert s2 s3.
  induction s1 as [|c1 s1 IH]; intros [|c2 s2] [|c3 s3]; simpl;
    try discriminate; try reflexivity.
  destruct (Ascii.compare c1 c2) eqn:E12; try discriminate.
  - apply Ascii.compare_eq_iff in E12. subst c2.
    destruct (Ascii.compare c1 c3); try discriminate; auto.
    apply IH.
  - destruct (Ascii.compare c2 c3) eqn:E23; try discriminate.
    + apply Ascii.compare_eq_iff in E23. subst c3. rewrite E12. reflexivity.
    + rewrite (ascii_compare_lt_trans _ _ _ E12 E23). reflexivity.
Qed.

Lemma created_leb_trans (a b c : Asset) :
  created_leb a b = true -> created_leb b c = true -> created_leb a c = true.
Proof. apply string_leb_trans. Qed.

Lemma created_leb_total (a b : Asset) :
  created_leb a b = false -> created_leb b a = true.
Proof.
  unfold created_leb. intros H.
  destruct (String.leb_total (fileCreatedAt a) (fileCreatedAt b)); congruence.
Qed.

Lemma created_leb_refl (a : Asset) : created_leb a a = true.
Proof.
  destruct (created_leb a a) eqn:E; auto.
  pose proof (created_leb_total _ _ E). congruence.
Qed.

(** ** The stable sort *)

Lemma insert_asset_perm (a : Asset) (l : list Asset) :
  Permutation (a :: l) (insert_asset a l).
Proof.
  induction l as [|b l IH]; simpl; auto.
  destruct (created_leb a b); auto.
  rewrite perm_swap. now constructor.
Qed.

Lemma sort_by_fileCreatedAt_perm (l : list Asset) :
  Permutation l (sort_by_fileCreatedAt l).
Proof.
  induction l as [|a l IH]; simpl; auto.
  rewrite <- insert_asset_perm. now constructor.
Qed.

Lemma insert_asset_sorted (a : Asset) (l : list Asset) :
  StronglySorted (fun x y => created_leb x y = true) l ->
  StronglySorted (fun x y => created_leb x y = true) (insert_asset a l).
Proof.
  induction 1 as [|b l Hs IH Hb]; simpl.
  - repeat constructor.
  - destruct (created_leb a b) eqn:E.
    + constructor; [now constructor|].
      constructor; auto.
      eapply Forall_impl; [|exact Hb]. intros c Hc.
      eapply created_leb_trans; eauto.
    + constructor; auto.
      eapply Permutation_Forall; [apply insert_asset_perm|].
      constructor; auto. now apply created_leb_total.
Qed.

Lemma sort_by_fileCreatedAt_sorted (l : list Asset) :
  StronglySorted (fun x y => created_leb x y = true) (sort_by_fileCreatedAt l).
Proof.
  induction l; simpl; [constructor|now apply insert_asset_sorted].
Qed.

(** Stability: assets with the same timestamp keep their input order. *)
Lemma insert_asset_stable (k : string) (a : Asset) (l : list Asset) :
  StronglySorted (fun x y => created_leb x y = true) l ->
  filter (fun x => (fileCreatedAt x =? k)%string) (insert_asset a l)
  = filter (fun x => (fileCreatedAt x =? k)%string) (a :: l).
Proof.
  induction 1 as [|b l Hs IH Hb]; simpl; auto.
  destruct (created_leb a b) eqn:E; simpl; auto.
  rewrite IH. simpl.
  destruct (fileCreatedAt a =? k)%string eqn:Ea;
    destruct (fileCreatedAt b =? k)%string eqn:Eb; auto.
  apply String.eqb_eq in Ea, Eb.
  unfold created_leb in E. rewrite Ea, Eb in E.
  assert (String.leb k k = true).
  { destruct (String.leb_total k k); auto. }
  congruence.
Qed.

Lemma sort_by_fileCreatedAt_stable (k : string) (l : list Asset) :
  filter (fun x => (fileCreatedAt x =? k)%string) (sort_by_fileCreatedAt l)
  = filter (fun x => (fileCreatedAt x =? k)%string) l.
Proof.
  induction l as [|a l IH]; simpl; auto.
  rewrite insert_asset_stable by apply sort_by_fileCreatedAt_sorted.
  simpl. now rewrite IH.
Qed.

(** ** Thumbnail selection *)

Lemma earliest_created_all (m : Asset) (l : list Asset) :
  earliest_created m l -> Forall (fun x => created_leb m x = true) l.
Proof.
  intros (l1 & l2 & -> & H1 & H2).
  apply Forall_app. split.
  - eapply Forall_impl; [|exact H1]. intros x. apply created_leb_total.
  - constructor; auto. apply created_leb_refl.
Qed.

Lemma latest_created_all (m : Asset) (l : list Asset) :
  latest_created m l -> Forall (fun x => created_leb x m = true) l.
Proof.
  intros (l1 & l2 & -> & H1 & H2).
  apply Forall_app. split; auto.
  constructor; [apply created_leb_refl|].
  eapply Forall_impl; [|exact H2]. intros x. apply created_leb_total.
Qed.

Lemma sort_head_earliest (l : list Asset) :
  l <> [] ->
  exists a s, sort_by_fileCreatedAt l = a :: s /\ earliest_created a l.
Proof.
  induction l as [|x l IH]; [congruence|intros _].
  destruct l as [|y l'].
  - exists x, []. split; auto. exists [], []. repeat split; constructor.
  - destruct IH as (m & s & Hs & Hm); [congruence|].
    change (sort_by_fileCreatedAt (x :: y :: l'))
      with (insert_asset x (sort_by_fileCreatedAt (y :: l'))).
    rewrite Hs. simpl. destruct (created_leb x m) eqn:E.
    + exists x, (m :: s). split; auto.
      exists [], (y :: l'). repeat split; [constructor|].
      eapply Forall_impl; [|apply earliest_created_all; exact Hm].
      intros z Hz. eapply created_leb_trans; eauto.
    + exists m, (insert_asset x s). split; auto.
      destruct Hm as (l1 & l2 & Hl & H1 & H2).
      exists (x :: l1), l2. rewrite Hl. repeat split; auto.
Qed.

Lemma insert_asset_not_nil (a : Asset) (l : list Asset) : insert_asset a l <> [].
Proof. destruct l; simpl; [|destruct (created_leb a a0)]; congruence. Qed.

Lemma last_insert_below (a d : Asset) (s : list Asset) :
  s <> [] -> created_leb a (last s d) = true ->
  last (insert_asset a s) d = last s d.
Proof.
  induction s as [|b s IH]; [congruence|intros _ H].
  destruct s as [|c s'].
  - simpl in *. now rewrite H.
  - change (insert_asset a (b :: c :: s'))
      with (if created_leb a b then a :: b :: c :: s'
            else b :: insert_asset a (c :: s')).
    destruct (created_leb a b); [reflexivity|].
    change (last (b :: c :: s') d) with (last (c :: s') d) in *.
    rewrite <- IH by (auto; congruence).
    pose proof (insert_asset_not_nil a (c :: s')).
    destruct (insert_asset a (c :: s')); [congruence|reflexivity].
Qed.

Lemma insert_asset_above (a : Asset) (s : list Asset) :
  Forall (fun x => created_leb a x = false) s ->
  insert_asset a s = (s ++ [a])%list.
Proof.
  induction 1 as [|b s Hb Hs IH]; simpl; auto.
  now rewrite Hb, IH.
Qed.

Lemma sort_last_latest (l : list Asset) (d : Asset) :
  l <> [] -> latest_created (last (sort_by_fileCreatedAt l) d) l.
Proof.
  induction l as [|x l IH]; [congruence|intros _].
  destruct l as [|y l'].
  - exists [], []. repeat split; constructor.
  - specialize (IH ltac:(congruence)).
    set (s := sort_by_fileCreatedAt (y :: l')) in *.
    change (sort_by_fileCreatedAt (x :: y :: l')) with (insert_asset x s).
    assert (Hne : s <> []).
    { intros E. pose proof (sort_by_fileCreatedAt_perm (y :: l')) as P.
      fold s in P. rewrite E in P. now apply Permutation_sym, Permutation_nil in P. }
    destruct (created_leb x (last s d)) eqn:E.
    + rewrite last_insert_below by auto.
      destruct IH as (l1 & l2 & Hl & H1 & H2).
      exists (x :: l1), l2. rewrite Hl. repeat split; auto.
    + assert (Hall : Forall (fun z => created_leb x z = false) (y :: l')).
      { eapply Forall_impl; [|apply latest_created_all; exact IH].
        intros z Hz. simpl in Hz.
        destruct (created_leb x z) eqn:Exz; auto.
        rewrite (created_leb_trans _ _ _ Exz Hz) in E. discriminate. }
      rewrite insert_asset_above.
      * rewrite last_last. exists [], (y :: l'). repeat split; auto.
      * eapply Permutation_Forall; [|exact Hall].
        apply sort_by_fileCreatedAt_perm.
Qed.

Lemma find_first_with_path (p : string) (l : list Asset) :
  match find (fun a => (originalPath a =? p)%string) l with
  | Some a => first_with_path p a l
  | None => Forall (fun x => originalPath x <> p) l
  end.
Proof.
  induction l as [|b l IH]; simpl; [constructor|].
  destruct (originalPath b =? p)%string eqn:E.
  - apply String.eqb_eq in E. exists [], l. repeat split; auto.
  - apply String.eqb_neq in E.
    destruct (find _ l) as [a|].
    + destruct IH as (l1 & l2 & -> & Ha & H1).
      exists (b :: l1), l2. repeat split; auto.
    + constructor; auto.
Qed.

Lemma str_in_global_cases (s : string) :
  str_in s ALBUM_THUMBNAIL_SETTINGS_GLOBAL = true ->
  s = "first" \/ s = "last" \/ s = "random" \/ s = "random-all".
Proof.
  unfold str_in, ALBUM_THUMBNAIL_SETTINGS_GLOBAL, ALBUM_THUMBNAIL_SETTINGS,
    ALBUM_THUMBNAIL_RANDOM_ALL.
  cbn [existsb app]. rewrite !orb_true_iff, !String.eqb_eq.
  intuition discriminate.
Qed.

Lemma py_index_nth {A} (l : list A) (i : nat) (a : A) (w : World) :
  nth_error l i = Some a -> py_index l (Z.of_nat i) w = (Ret a, w).
Proof.
  intros H. unfold py_index.
  assert (i < List.length l)%nat by (apply nth_error_Some; congruence).
  destruct (Z.of_nat i <? 0) eqn:E1; [lia|].
  destruct (Z.of_nat i <? 0) eqn:E2; [lia|].
  destruct (Z.of_nat (List.length l) <=? Z.of_nat i) eqn:E3; [lia|].
  simpl. rewrite Nat2Z.id, H. reflexivity.
Qed.

Lemma py_index_last {A} (l : list A) (d : A) (w : World) :
  l <> [] -> py_index l (-1) w = (Ret (last l d), w).
Proof.
  intros H. unfold py_index.
  assert (0 < List.length l)%nat by (destruct l; simpl; [congruence|lia]).
  change (-1 <? 0) with true. cbv iota.
  destruct (-1 + Z.of_nat (List.length l) <? 0) eqn:E2; [lia|].
  destruct (Z.of_nat (List.length l) <=? -1 + Z.of_nat (List.length l)) eqn:E3; [lia|].
  cbn [orb].
  replace (Z.to_nat (-1 + Z.of_nat (List.length l))) with (List.length l - 1)%nat by lia.
  destruct (@exists_last _ l H) as (l' & a & ->).
  rewrite last_last, length_app. cbn [List.length].
  replace (List.length l' + 1 - 1)%nat with (List.length l' + 0)%nat by lia.
  rewrite nth_error_app2 by lia.
  replace (List.length l' + 0 - List.length l')%nat with 0%nat by lia.
  reflexivity.
Qed.

(** What a call with one of the four keywords does to a non-empty list. *)
Lemma choose_thumbnail_keyword (s : string) (r : nat) (w : World) :
  str_in s ALBUM_THUMBNAIL_SETTINGS_GLOBAL = true ->
  store w r <> [] ->
  let sorted := sort_by_fileCreatedAt (store w r) in
  exists w',
    store w' r = sorted
    /\ (forall r', r' <> r -> store w' r' = store w r')
    /\ trace w' = trace w /\ logged w' = logged w
    /\ choose_thumbnail s r w =
       (Ret (if (s =? "first")%string then hd_error sorted
             else if (s =? "last")%string then Some (last sorted (hd (mkAsset "" "" "" false) sorted))
             else nth_error sorted (drawn_index w (List.length sorted))),
        w').
Proof.
  intros Hs Hne sorted.
  assert (Hlen : (0 < List.length (store w r))%nat)
    by (destruct (store w r); simpl; [congruence|lia]).
  assert (Hsl : List.length sorted = List.length (store w r)).
  { symmetry. apply Permutation_length, sort_by_fileCreatedAt_perm. }
  assert (Hsne : sorted <> []).
  { intros E. rewrite E in Hsl. simpl in Hsl. lia. }
  unfold choose_thumbnail. rewrite Hs. cbn [negb].
  unfold bind at 1. unfold list_read at 1. cbv beta iota.
  destruct (0 <? Z.of_nat (List.length (store w r))) eqn:E0; [|lia].
  unfold bind at 1. unfold list_sort_by_fileCreatedAt, bind, list_read, list_write.
  cbv beta iota.
  set (w1 := set_store w _ _).
  assert (Hw1 : store w1 r = sorted) by (simpl; now rewrite Nat.eqb_refl).
  assert (Hw1' : forall r', r' <> r -> store w1 r' = store w r').
  { intros r' Hr. simpl. apply Nat.eqb_neq in Hr. now rewrite Hr. }
  destruct (str_in_global_cases _ Hs) as [ -> | [ -> | [ -> | -> ] ] ]; cbn [negb dict_mem dict_get ALBUM_THUMBNAIL_STATIC_INDICES String.eqb Ascii.eqb Bool.eqb].
  - exists w1. repeat split; auto.
    unfold ret. cbv beta iota. rewrite Hw1.
    destruct sorted as [|a t] eqn:Es; [congruence|].
    reflexivity.
  - exists w1. repeat split; auto.
    unfold ret. cbv beta iota. rewrite Hw1.
    rewrite (py_index_last sorted (hd (mkAsset "" "" "" false) sorted) w1 Hsne).
    reflexivity.
  - unfold random_randint. 
    destruct (Z.of_nat (List.length (store w r)) - 1 <? 0) eqn:E1; [lia|].
    change (draws w1) with (draws w). unfold drawn_index.
    destruct (draws w) as [|d ds] eqn:Ed.
    + exists w1. repeat split; auto. rewrite Hw1.
      destruct sorted as [|a t] eqn:Es; [congruence|]. reflexivity.
    + eexists. split; [|split; [|split; [|split]]].
      5: { cbv beta iota. cbn [store]. rewrite Hw1.
           replace (0 + Z.of_nat d mod (Z.of_nat (List.length (store w r)) - 1 - 0 + 1))
             with (Z.of_nat (d mod List.length sorted)).
           2: { rewrite Nat2Z.inj_mod, Hsl, Z.add_0_l. f_equal. lia. }
           destruct (nth_error sorted (d mod List.length sorted)) as [a|] eqn:En.
           - erewrite py_index_nth by exact En. reflexivity.
           - exfalso. apply nth_error_None in En.
             pose proof (Nat.mod_upper_bound d (List.length sorted)). lia. }
      all: auto.
  - unfold random_randint. 
    destruct (Z.of_nat (List.length (store w r)) - 1 <? 0) eqn:E1; [lia|].
    change (draws w1) with (draws w). unfold drawn_index.
    destruct (draws w) as [|d ds] eqn:Ed.
    + exists w1. repeat split; auto. rewrite Hw1.
      destruct sorted as [|a t] eqn:Es; [congruence|]. reflexivity.
    + eexists. split; [|split; [|split; [|split]]].
      5: { cbv beta iota. cbn [store]. rewrite Hw1.
           replace (0 + Z.of_nat d mod (Z.of_nat (List.length (store w r)) - 1 - 0 + 1))
             with (Z.of_nat (d mod List.length sorted)).
           2: { rewrite Nat2Z.inj_mod, Hsl, Z.add_0_l. f_equal. lia. }
           destruct (nth_error sorted (d mod List.length sorted)) as [a|] eqn:En.
           - erewrite py_index_nth by exact En. reflexivity.
           - exfalso. apply nth_error_None in En.
             pose proof (Nat.mod_upper_bound d (List.length sorted)). lia. }
      all: auto.
Qed.

Lemma choose_thumbnail_path (s : string) (r : nat) (w : World) :
  str_in s ALBUM_THUMBNAIL_SETTINGS_GLOBAL = false ->
  choose_thumbnail s r w
  = (Ret (find (fun a => (originalPath a =? s)%string) (store w r)), w).
Proof. intros H. unfold choose_thumbnail. rewrite H. reflexivity. Qed.

Lemma choose_thumbnail_empty (s : string) (r : nat) (w : World) :
  str_in s ALBUM_THUMBNAIL_SETTINGS_GLOBAL = true ->
  store w r = [] ->
  choose_thumbnail s r w = (Ret None, w).
Proof.
  intros H E. unfold choose_thumbnail. rewrite H. cbn [negb].
  unfold bind, list_read. rewrite E. reflexivity.
Qed.

(** C6: with a setting that is not a keyword, [choose_thumbnail] returns
    the first asset whose [originalPath] is the setting, or [None] when no
    asset has that path; with ["first"] it returns the asset with the
    smallest [fileCreatedAt] and with ["last"] the one with the greatest,
    the earliest, respectively the latest, of the input among equal
    timestamps; with ["random"] or ["random-all"] it returns the element of
    the sorted list at the drawn index, which lies in the list and is every
    position for some draw; with a keyword and no candidate it returns
    [None]. *)
Theorem choose_thumbnail_spec (thumbnail_setting : string) (r : nat) (w : World) :
  let l := store w r in
  let result := fst (choose_thumbnail thumbnail_setting r w) in
  (str_in thumbnail_setting ALBUM_THUMBNAIL_SETTINGS_GLOBAL = false ->
     (exists a, result = Ret (Some a) /\ first_with_path thumbnail_setting a l)
     \/ (result = Ret None
         /\ Forall (fun x => originalPath x <> thumbnail_setting) l))
  /\ (thumbnail_setting = "first" -> l <> [] ->
      exists a, result = Ret (Some a) /\ earliest_created a l)
  /\ (thumbnail_setting = "last" -> l <> [] ->
      exists a, result = Ret (Some a) /\ latest_created a l)
  /\ (thumbnail_setting = "random" \/ thumbnail_setting = "random-all" ->
      l <> [] ->
      exists a,
        result = Ret (Some a)
        /\ nth_error (sort_by_fileCreatedAt l) (drawn_index w (List.length l))
           = Some a
        /\ (drawn_index w (List.length l) < List.length l)%nat
        /\ (forall i d ds, (i < List.length l)%nat -> draws w = d :: ds ->
            d = i -> drawn_index w (List.length l) = i))
  /\ (str_in thumbnail_setting ALBUM_THUMBNAIL_SETTINGS_GLOBAL = true ->
      l = [] -> result = Ret None).
Proof.
  intros l result. subst l result.
  assert (Hlen : List.length (sort_by_fileCreatedAt (store w r))
                 = List.length (store w r)).
  { symmetry. apply Permutation_length, sort_by_fileCreatedAt_perm. }
  split; [|split; [|split; [|split]]].
  - intros H. rewrite choose_thumbnail_path by exact H. cbn [fst].
    pose proof (find_first_with_path thumbnail_setting (store w r)) as F.
    destruct (find _ (store w r)) as [a|]; [left; eauto|right; auto].
  - intros -> Hne.
    destruct (choose_thumbnail_keyword "first" r w eq_refl Hne)
      as (w' & _ & _ & _ & _ & ->).
    destruct (sort_head_earliest _ Hne) as (a & s & Hs & Ha).
    exists a. rewrite Hs. auto.
  - intros -> Hne.
    destruct (choose_thumbnail_keyword "last" r w eq_refl Hne)
      as (w' & _ & _ & _ & _ & ->).
    eexists. split; [reflexivity|]. now apply sort_last_latest.
  - intros Hs Hne.
    assert (Hin : str_in thumbnail_setting ALBUM_THUMBNAIL_SETTINGS_GLOBAL = true)
      by (destruct Hs as [-> | ->]; reflexivity).
    destruct (choose_thumbnail_keyword thumbnail_setting r w Hin Hne)
      as (w' & _ & _ & _ & _ & ->).
    assert (Hpos : (0 < List.length (store w r))%nat)
      by (destruct (store w r); simpl; [congruence|lia]).
    assert (Hidx : (drawn_index w (List.length (store w r))
                    < List.length (store w r))%nat).
    { unfold drawn_index. destruct (draws w); auto.
      apply Nat.mod_upper_bound. lia. }
    rewrite Hlen.
    destruct (nth_error (sort_by_fileCreatedAt (store w r))
                (drawn_index w (List.length (store w r)))) as [a|] eqn:En.
    + exists a. repeat split; auto.
      * destruct Hs as [-> | ->]; reflexivity.
      * intros i d ds Hi Hd ->. unfold drawn_index. rewrite Hd.
        now apply Nat.mod_small.
    + apply nth_error_None in En. lia.
  - intros H E. now rewrite choose_thumbnail_empty.
Qed.

Lemma choose_thumbnail_spec_witness :
  exists a,
    fst (choose_thumbnail "last" 0%nat
           (world_with ok_server [photo_a; photo_b; photo_c; photo_d] []))
    = Ret (Some a)
    /\ latest_created a [photo_a; photo_b; photo_c; photo_d].
Proof.
  destruct (choose_thumbnail_spec "last" 0%nat
              (world_with ok_server [photo_a; photo_b; photo_c; photo_d] []))
    as (_ & _ & H & _).
  apply H; [reflexivity|discriminate].
Defined.

(** C10: with ["first"], ["last"] or ["random"] and a non-empty list, the
    list object the caller passed holds, after the call, the stable sort by
    [fileCreatedAt] of what it held before; the other list objects are
    untouched. *)
Theorem choose_thumbnail_sorts_in_place (thumbnail_setting : string) (r : nat)
    (w : World) :
  thumbnail_setting = "first" \/ thumbnail_setting = "last"
  \/ thumbnail_setting = "random" ->
  store w r <> [] ->
  let w' := snd (choose_thumbnail thumbnail_setting r w) in
  store w' r = sort_by_fileCreatedAt (store w r)
  /\ (forall r', r' <> r -> store w' r' = store w r')
  /\ Permutation (store w r) (store w' r)
  /\ StronglySorted (fun x y => created_leb x y = true) (store w' r)
  /\ (forall k,
        filter (fun x => (fileCreatedAt x =? k)%string) (store w' r)
        = filter (fun x => (fileCreatedAt x =? k)%string) (store w r)).
Proof.
  intros Hs Hne w'. subst w'.
  assert (Hin : str_in thumbnail_setting ALBUM_THUMBNAIL_SETTINGS_GLOBAL = true)
    by (destruct Hs as [ -> | [ -> | -> ] ]; reflexivity).
  destruct (choose_thumbnail_keyword thumbnail_setting r w Hin Hne)
    as (w' & Hr & Hother & _ & _ & ->).
  cbn [snd]. rewrite Hr. repeat split; auto.
  - apply sort_by_fileCreatedAt_perm.
  - apply sort_by_fileCreatedAt_sorted.
  - intros k. apply sort_by_fileCreatedAt_stable.
Qed.

Lemma choose_thumbnail_sorts_in_place_witness :
  store (snd (choose_thumbnail "first" 0%nat
                (world_with ok_server [photo_a; photo_b; photo_c; photo_d] [])))
        0%nat
  = [photo_b; photo_d; photo_a; photo_c].
Proof.
  destruct (choose_thumbnail_sorts_in_place "first" 0%nat
              (world_with ok_server [photo_a; photo_b; photo_c; photo_d] [])
              (or_introl eq_refl)) as (H & _).
  - discriminate.
  - rewrite H. reflexivity.
Defined.

(** ** Stepping through a computation *)

Lemma after_nil (w : World) : after w [] [] = w.
Proof. destruct w. unfold after. cbn. now rewrite !app_nil_r. Qed.

Lemma after_after (w : World) (r1 r2 : list Request) (l1 l2 : list LogRecord) :
  after (after w r1 l1) r2 l2 = after w (r1 ++ r2) (l1 ++ l2).
Proof. unfold after. cbn. now rewrite !app_assoc. Qed.

Lemma http_after (r : Request) (w : World) :
  http r w = (Ret (server w (trace w) r), after w [r] []).
Proof. unfold http, after. now rewrite app_nil_r. Qed.

Lemma logging_after (lvl : Level) (f : string) (args : list string) (w : World) :
  logging lvl f args w = (Ret tt, after w [] [mkLog lvl f args]).
Proof. unfold logging, after. now rewrite app_nil_r. Qed.

Lemma bind_Ret {A B} (m : M A) (k : A -> M B) (w w' : World) (a : A) :
  m w = (Ret a, w') -> bind m k w = k a w'.
Proof. intros H. unfold bind. now rewrite H. Qed.

Lemma bind_Exc {A B} (m : M A) (k : A -> M B) (w w' : World) (e : Exn) :
  m w = (Exc e, w') -> bind m k w = (Exc e, w').
Proof. intros H. unfold bind. now rewrite H. Qed.

(** ** Responses and exceptions *)

Lemma check_api_response_ok (r : Response) (w : World) :
  is_error_status (status_code r) = false ->
  check_api_response r w = (Ret tt, w).
Proof.
  intros H. unfold check_api_response, bind, try_except, raise_for_status.
  rewrite H. reflexivity.
Qed.

Lemma check_api_response_error (r : Response) (w : World) :
  is_error_status (status_code r) = true ->
  check_api_response r w = (Exc (RequestsHTTPError (status_code r)), w).
Proof.
  intros H. unfold check_api_response, bind, try_except, raise_for_status.
  rewrite H. reflexivity.
Qed.

(** An [except HTTPError] clause of this module lets the exception of
    [raise_for_status] through. *)
Lemma except_HTTPError_misses_requests {A} (m : M A) (classes : list ExcClass)
    (handler : Exn -> M A) (w w' : World) (status : Z) :
  m w = (Exc (RequestsHTTPError status), w') ->
  Forall (fun c => c = HTTPError \/ c = cls_AssertionError) classes ->
  try_except m classes handler w = (Exc (RequestsHTTPError status), w').
Proof.
  intros H Hc. unfold try_except. rewrite H.
  assert (E : existsb (isinstance (RequestsHTTPError status)) classes = false).
  { induction Hc as [|c l [-> | ->] _ IH]; simpl; auto. }
  now rewrite E.
Qed.

Lemma check_api_response_checked (r : Response) (w : World) :
  check_api_response r w = (checked r, w).
Proof.
  unfold checked. destruct (is_error_status (status_code r)) eqn:E.
  - now apply check_api_response_error.
  - now apply check_api_response_ok.
Qed.

Lemma raise_for_status_ok (r : Response) (w : World) :
  is_error_status (status_code r) = false -> raise_for_status r w = (Ret tt, w).
Proof. intros H. unfold raise_for_status. now rewrite H. Qed.

Lemma search_items_ok (r : Response) (w : World) :
  (exists items, payload r = PSearch items) ->
  search_items r w = (Ret (items_of r), w).
Proof. intros (items & H). unfold search_items, items_of. now rewrite H. Qed.

Lemma check_api_response_world (r : Response) (w : World) :
  snd (check_api_response r w) = w
  /\ fst (check_api_response r w) <> Exc AssertionError.
Proof.
  rewrite check_api_response_checked. unfold checked.
  destruct (is_error_status (status_code r)); split;
    (reflexivity || discriminate).
Qed.

(** ** [delete_album] *)

Lemma delete_album_error (g : Globals) (album_delete : AlbumEntry) (w : World) :
  let r := server w (trace w) (delete_request g album_delete) in
  is_error_status (status_code r) = true ->
  delete_album g album_delete w
  = (Exc (RequestsHTTPError (status_code r)),
     after w [delete_request g album_delete] []).
Proof.
  intros r H. unfold delete_album.
  erewrite bind_Ret by apply http_after.
  apply except_HTTPError_misses_requests; [|repeat constructor].
  erewrite bind_Exc by (apply check_api_response_error; exact H).
  reflexivity.
Qed.

Lemma delete_album_success (g : Globals) (album_delete : AlbumEntry) (w : World) :
  let r := server w (trace w) (delete_request g album_delete) in
  is_error_status (status_code r) = false ->
  delete_album g album_delete w
  = (Ret true, after w [delete_request g album_delete] []).
Proof.
  intros r H. unfold delete_album.
  erewrite bind_Ret by apply http_after.
  unfold try_except.
  erewrite bind_Ret by (apply check_api_response_ok; exact H).
  reflexivity.
Qed.

(** C4, as the code behaves: when the server answers the DELETE request
    with a status from 400 to 599, [delete_album] returns no boolean; the
    [requests] exception leaves the function and nothing is logged. *)
Theorem delete_album_raises_on_error_status (g : Globals)
    (album_delete : AlbumEntry) (w : World) :
  let r := server w (trace w) (delete_request g album_delete) in
  is_error_status (status_code r) = true ->
  fst (delete_album g album_delete w) = Exc (RequestsHTTPError (status_code r))
  /\ logged (snd (delete_album g album_delete w)) = logged w
  /\ trace (snd (delete_album g album_delete w))
     = (trace w ++ [delete_request g album_delete])%list.
Proof.
  intros r H. rewrite delete_album_error by exact H.
  cbn [fst snd after logged trace]. rewrite app_nil_r. auto.
Qed.

Lemma delete_album_raises_on_error_status_witness :
  fst (run (delete_album (example_globals 0 album_alps)
                         (mkAlbumEntry "id-old" "Old" 0))
           not_found_server)
  = Exc (RequestsHTTPError 404)
  /\ logged (snd (run (delete_album (example_globals 0 album_alps)
                                    (mkAlbumEntry "id-old" "Old" 0))
                      not_found_server))
     = [].
Proof.
  assert (H := delete_album_raises_on_error_status
                 (example_globals 0 album_alps)
                 (mkAlbumEntry "id-old" "Old" 0)
                 (world_with not_found_server [] []) eq_refl).
  destruct H as (H1 & H2 & _). split; [exact H1|exact H2].
Defined.

(** ** The role assertion of the share requests *)

Lemma update_album_share_user_role_eq (g : Globals)
    (album_id user_id role : string) (w : World) :
  update_album_share_user_role g album_id user_id role w
  = if str_in (share_role g) SHARE_ROLES then
      check_api_response
        (server w (trace w) (role_request g album_id user_id role))
        (after w [role_request g album_id user_id role] [])
    else (Exc AssertionError, w).
Proof.
  unfold update_album_share_user_role, assert.
  destruct (str_in (share_role g) SHARE_ROLES); [|reflexivity].
  erewrite bind_Ret by reflexivity.
  erewrite bind_Ret by apply http_after. reflexivity.
Qed.

Lemma share_album_with_user_and_role_eq (g : Globals) (album_id : string)
    (user_ids : list string) (role : string) (w : World) :
  share_album_with_user_and_role g album_id user_ids role w
  = if str_in (share_role g) SHARE_ROLES then
      check_api_response
        (server w (trace w) (share_request g album_id user_ids role))
        (after w [share_request g album_id user_ids role] [])
    else (Exc AssertionError, w).
Proof.
  unfold share_album_with_user_and_role, assert.
  destruct (str_in (share_role g) SHARE_ROLES); [|reflexivity].
  erewrite bind_Ret by reflexivity.
  erewrite bind_Ret by apply http_after. reflexivity.
Qed.

(** C7, as the code behaves: with a valid module-level [share_role], a
    role argument outside [SHARE_ROLES] raises no [AssertionError] in
    [update_album_share_user_role] nor in [share_album_with_user_and_role];
    the request is issued with that role. *)
Theorem share_role_assertion_ignores_argument (g : Globals)
    (album_id user_id : string) (user_ids : list string) (role : string)
    (w : World) :
  str_in (share_role g) SHARE_ROLES = true ->
  str_in role SHARE_ROLES = false ->
  (fst (update_album_share_user_role g album_id user_id role w)
     <> Exc AssertionError
   /\ trace (snd (update_album_share_user_role g album_id user_id role w))
      = (trace w ++ [role_request g album_id user_id role])%list)
  /\ (fst (share_album_with_user_and_role g album_id user_ids role w)
        <> Exc AssertionError
      /\ trace (snd (share_album_with_user_and_role g album_id user_ids role w))
         = (trace w ++ [share_request g album_id user_ids role])%list).
Proof.
  intros Hg _.
  rewrite update_album_share_user_role_eq, share_album_with_user_and_role_eq, Hg.
  split.
  - destruct (check_api_response_world
                (server w (trace w) (role_request g album_id user_id role))
                (after w [role_request g album_id user_id role] []))
      as [-> H].
    split; [exact H|reflexivity].
  - destruct (check_api_response_world
                (server w (trace w) (share_request g album_id user_ids role))
                (after w [share_request g album_id user_ids role] []))
      as [-> H].
    split; [exact H|reflexivity].
Qed.

Lemma share_role_assertion_ignores_argument_witness :
  fst (run (update_album_share_user_role (example_globals 0 album_alps)
              "id-alps" "userA" "owner") ok_server)
  <> Exc AssertionError
  /\ trace (snd (run (update_album_share_user_role
                        (example_globals 0 album_alps)
                        "id-alps" "userA" "owner") ok_server))
     = [role_request (example_globals 0 album_alps) "id-alps" "userA" "owner"].
Proof.
  assert (H := share_role_assertion_ignores_argument
                 (example_globals 0 album_alps) "id-alps" "userA" ["userB"]
                 "owner" (world_with ok_server [] []) eq_refl eq_refl).
  destruct H as [H _]. exact H.
Defined.

(** The assertion fails exactly when the module-level [share_role] is not
    a share role, whatever role is passed. *)
Lemma share_role_assertion_tests_global (g : Globals)
    (album_id user_id role : string) (w : World) :
  fst (update_album_share_user_role g album_id user_id role w)
  = Exc AssertionError
  <-> str_in (share_role g) SHARE_ROLES = false.
Proof.
  rewrite update_album_share_user_role_eq.
  destruct (str_in (share_role g) SHARE_ROLES).
  - split; [|discriminate]. intros H.
    now destruct (check_api_response_world
                    (server w (trace w) (role_request g album_id user_id role))
                    (after w [role_request g album_id user_id role] [])).
  - split; reflexivity.
Qed.

(** A role given as [--share-with alice=owner] reaches the server: the
    model holds it, and the sharing update sends it. *)
Lemma invalid_role_reaches_server :
  let g :=
    mkGlobals "http://immich/api/" 2000 5000 (Some ["alice=owner"]) "viewer"
              None false None false false 0 0 version_1_120 [alice; bob]
              album_alps in
  let model := set_album_properties_in_model g album_alps in
  AlbumModel.share_with model = [mkShareUser "alice" "owner"]
  /\ let '(o, w) :=
       run (update_album_shared_state (set_album g model) model true)
           (sharing_server [] 200) in
     o = Ret tt
     /\ calls w
        = [(GET, "http://immich/api/albums/id-alps", NoBody);
           (PUT, "http://immich/api/albums/id-alps/users",
            BodyAlbumUsers [mkShareInfo "owner" "userA"])].
Proof. vm_compute. repeat split; reflexivity. Qed.

(** ** The reconciliation loop under a failing update *)

(** C1, as the code behaves: with two albums to reconcile, a status 500
    on the property update of the first, or on the change of a share role
    of the first, ends the run with the [requests] exception; no request is
    issued for the second album and no error or warning is logged. *)
Theorem reconcile_aborts_on_failed_update :
  (let '(o, w) :=
     run (reconcile (example_globals 1 album_alps)
            [("Alps", album_alps); ("Beach", album_beach)]
            [("Alps", "id-alps"); ("Beach", "id-beach")])
         patch_failing_server in
   o = Exc (RequestsHTTPError 500)
   /\ endpoints w
      = [(PUT, "http://immich/api/albums/id-alps/assets");
         (PATCH, "http://immich/api/albums/id-alps")]
   /\ filter (fun l => match log_level l with INFO => false | _ => true end)
             (logged w) = [])
  /\
  (let shared :=
     AlbumModel.set_share_with album_alps [mkShareUser "alice" "viewer"] in
   let '(o, w) :=
     run (reconcile (example_globals 2 shared)
            [("Alps", shared); ("Beach", album_beach)]
            [("Alps", "id-alps"); ("Beach", "id-beach")])
         (sharing_server [mkAlbumUser "userA" "editor"] 500) in
   o = Exc (RequestsHTTPError 500)
   /\ endpoints w
      = [(PUT, "http://immich/api/albums/id-alps/assets");
         (PATCH, "http://immich/api/albums/id-alps");
         (GET, "http://immich/api/albums/id-alps");
         (PUT, "http://immich/api/albums/id-alps/user/userA")]
   /\ filter (fun l => match log_level l with INFO => false | _ => true end)
             (logged w) = []).
Proof.
  split; vm_compute; repeat split; reflexivity.
Qed.

(** ** Sharing convergence *)

Lemma replies_app (s : Server) (h a b : list Request) :
  replies s h (a ++ b) = (replies s h a ++ replies s (h ++ a) b)%list.
Proof.
  revert h. induction a as [|x a IH]; intros h; cbn [replies app].
  - now rewrite app_nil_r.
  - rewrite IH, <- app_assoc. reflexivity.
Qed.

(** A loop whose iterations only issue requests that succeed. *)
Lemma for_each_requests {X} (xs : list X) (body : X -> M unit)
    (reqs_of : X -> list Request) :
  (forall x w,
      Forall succeeded (replies (server w) (trace w) (reqs_of x)) ->
      body x w = (Ret tt, after w (reqs_of x) [])) ->
  forall w,
    Forall succeeded (replies (server w) (trace w) (flat_map reqs_of xs)) ->
    for_each xs body w = (Ret tt, after w (flat_map reqs_of xs) []).
Proof.
  intros Hbody. induction xs as [|x xs IH]; intros w Hok.
  - cbn. now rewrite after_nil.
  - cbn [flat_map for_each] in *. rewrite replies_app in Hok.
    apply Forall_app in Hok. destruct Hok as [H1 H2].
    erewrite bind_Ret by (apply Hbody; exact H1).
    rewrite IH by exact H2. now rewrite after_after.
Qed.

Lemma for_fold_requests {X S} (xs : list X) (body : S -> X -> M S)
    (step : S -> X -> S) (reqs_of : X -> list Request) :
  (forall s x w,
      Forall succeeded (replies (server w) (trace w) (reqs_of x)) ->
      body s x w = (Ret (step s x), after w (reqs_of x) [])) ->
  forall s w,
    Forall succeeded (replies (server w) (trace w) (flat_map reqs_of xs)) ->
    for_fold xs s body w
    = (Ret (fold_left step xs s), after w (flat_map reqs_of xs) []).
Proof.
  intros Hbody. induction xs as [|x xs IH]; intros s w Hok.
  - cbn. now rewrite after_nil.
  - cbn [flat_map for_fold fold_left] in *. rewrite replies_app in Hok.
    apply Forall_app in Hok. destruct Hok as [H1 H2].
    erewrite bind_Ret by (apply Hbody; exact H1).
    rewrite IH by exact H2. now rewrite after_after.
Qed.

Lemma expected_share_roles_eq (g : Globals) (w : World) :
  expected_share_roles g w
  = (Ret (desired_shares g), after w [] (unknown_user_warnings g)).
Proof.
  unfold expected_share_roles, desired_shares, unknown_user_warnings.
  generalize (@nil (string * string)) as d. revert w.
  induction (AlbumModel.share_with (album g)) as [|su l IH]; intros w d.
  - cbn. now rewrite after_nil.
  - cbn [for_fold fold_left flat_map].
    destruct (find_user_by_name_or_email (su_user su) (users g)) as [u|].
    + erewrite bind_Ret by reflexivity. now rewrite IH.
    + erewrite bind_Ret.
      2: { erewrite bind_Ret by apply logging_after. reflexivity. }
      rewrite IH, after_after. reflexivity.
Qed.

Lemma try_except_Ret {A} (m : M A) (classes : list ExcClass)
    (handler : Exn -> M A) (w w' : World) (a : A) :
  m w = (Ret a, w') -> try_except m classes handler w = (Ret a, w').
Proof. intros H. unfold try_except. now rewrite H. Qed.

Lemma flat_map_filter {X Y} (p : X -> bool) (f : X -> Y) (l : list X) :
  flat_map (fun x => if p x then [f x] else []) l = map f (filter p l).
Proof.
  induction l as [|x l IH]; cbn; [reflexivity|].
  destruct (p x); cbn; now rewrite IH.
Qed.

Lemma flat_map_single {X Y} (f : X -> Y) (l : list X) :
  flat_map (fun x => [f x]) l = map f l.
Proof. induction l as [|x l IH]; cbn; [reflexivity|now rewrite IH]. Qed.

Lemma succeeded_single (s : Server) (h : list Request) (r : Request) :
  Forall succeeded (replies s h [r]) -> succeeded (s h r).
Proof. intros H. now inversion H. Qed.

Lemma fetch_album_info_eq (g : Globals) (album_id : string) (w : World)
    (info : AlbumInfo) :
  let r := server w (trace w) (album_info_request g album_id) in
  succeeded r ->
  payload r = PAlbumInfo info ->
  fetch_album_info g album_id w
  = (Ret info, after w [album_info_request g album_id] []).
Proof.
  intros r Hs Hp. unfold fetch_album_info.
  erewrite bind_Ret by apply http_after.
  fold (album_info_request g album_id). fold r.
  erewrite bind_Ret by (apply check_api_response_ok; exact Hs).
  now rewrite Hp.
Qed.

Lemma unshare_album_with_user_eq (g : Globals) (album_id user_id : string)
    (w : World) :
  succeeded (server w (trace w) (unshare_request g album_id user_id)) ->
  unshare_album_with_user g album_id user_id w
  = (Ret tt, after w [unshare_request g album_id user_id] []).
Proof.
  intros Hs. unfold unshare_album_with_user.
  erewrite bind_Ret by apply http_after.
  now apply check_api_response_ok.
Qed.

(** What [update_album_shared_state] issues when every request succeeds:
    the diff of the sharing the server reports against the desired shares
    of the module-level [album]. *)
Lemma update_album_shared_state_converges (g : Globals)
    (album_to_share : AlbumModel.t) (unshare_users : bool) (w : World)
    (info : AlbumInfo) :
  let album_id := fmt (AlbumModel.id album_to_share) in
  let desired := desired_shares g in
  let actual := actual_share_roles info in
  let r0 := server w (trace w) (album_info_request g album_id) in
  let reqs := sharing_requests g album_id desired actual unshare_users in
  str_in (share_role g) SHARE_ROLES = true ->
  succeeded r0 ->
  payload r0 = PAlbumInfo info ->
  Forall succeeded
    (replies (server w) (trace w ++ [album_info_request g album_id]) reqs) ->
  update_album_shared_state g album_to_share unshare_users w
  = if (Nat.eqb (List.length desired) 0) && negb unshare_users
    then (Ret tt, after w [] (unknown_user_warnings g))
    else (Ret tt,
          after w (album_info_request g album_id :: reqs)
                (unknown_user_warnings g)).
Proof.
  intros album_id desired actual r0 reqs Hrole Hs0 Hp0 Hok.
  unfold update_album_shared_state.
  erewrite bind_Ret by apply expected_share_roles_eq.
  fold desired.
  destruct ((Nat.eqb (List.length desired) 0) && negb unshare_users);
    [reflexivity|].
  fold album_id.
  set (w1 := after w [] (unknown_user_warnings g)).
  assert (Hsrv : server w1 = server w) by reflexivity.
  assert (Htr : trace w1 = trace w) by (cbn; apply app_nil_r).
  assert (Efinal :
    after w1 (album_info_request g album_id :: reqs) []
    = after w (album_info_request g album_id :: reqs)
            (unknown_user_warnings g)).
  { unfold w1. rewrite after_after. now rewrite app_nil_r. }
  rewrite <- Efinal. rewrite <- Hsrv, <- Htr in Hok. subst r0.
  rewrite <- Hsrv, <- Htr in Hs0, Hp0.
  clearbody w1. clear Efinal Hsrv Htr w.
  erewrite bind_Ret by (apply (fetch_album_info_eq g album_id w1 info Hs0 Hp0)).
  fold actual.
  subst reqs. unfold sharing_requests in *.
  set (changes := map (fun item => role_request g album_id (fst item) (snd item))
                      (role_changes desired actual)) in *.
  set (removals := if unshare_users
                   then map (unshare_request g album_id)
                            (users_to_unshare desired actual)
                   else []) in *.
  set (additions := map (fun item => share_request g album_id (snd item) (fst item))
                        (users_to_add desired actual)) in *.
  rewrite !replies_app in Hok.
  apply Forall_app in Hok. destruct Hok as [Hok1 Hok23].
  apply Forall_app in Hok23. destruct Hok23 as [Hok2 Hok3].
  (* the changes of role *)
  erewrite bind_Ret.
  2: { apply (for_fold_requests desired _
                (fun by_role item =>
                   match dict_get (fst item) actual with
                   | None => dict_append (snd item) (fst item) by_role
                   | Some _ => by_role
                   end)
                (fun item =>
                   if match dict_get (fst item) actual with
                      | Some role_actual => negb (role_actual =? snd item)%string
                      | None => false
                      end
                   then [role_request g album_id (fst item) (snd item)]
                   else [])).
       - intros s [u role] w2 H1. cbn [fst snd] in *.
         destruct (dict_get u actual) as [role_actual|];
           [|cbn; now rewrite after_nil].
         destruct (negb (role_actual =? role)%string).
         + erewrite bind_Ret.
           2: { apply try_except_Ret.
                rewrite update_album_share_user_role_eq, Hrole.
                apply check_api_response_ok.
                apply succeeded_single in H1. exact H1. }
           reflexivity.
         + erewrite bind_Ret by reflexivity. cbn. now rewrite after_nil.
       - rewrite flat_map_filter. cbn [after server trace]. exact Hok1. }
  rewrite flat_map_filter. fold (role_changes desired actual). fold changes.
  fold (users_to_add desired actual).
  rewrite after_after. cbn [app].
  (* the removals *)
  erewrite bind_Ret with (w' := after w1 (album_info_request g album_id
                                           :: changes ++ removals) []).
  2: { unfold removals. destruct unshare_users.
       - rewrite (for_each_requests actual _
                    (fun item =>
                       if negb (dict_mem (fst item) desired)
                       then [unshare_request g album_id (fst item)] else [])).
         + rewrite after_after, flat_map_filter, <- map_map.
           reflexivity.
         + intros item w2 H1.
           destruct (negb (dict_mem (fst item) desired)).
           * apply try_except_Ret. apply unshare_album_with_user_eq.
             apply succeeded_single in H1. exact H1.
           * cbn. now rewrite after_nil.
         + rewrite flat_map_filter, <- map_map.
           cbn [after server trace app].
           rewrite <- app_assoc in Hok2. exact Hok2.
       - unfold ret. now rewrite app_nil_r. }
  (* the additions *)
  destruct (0 <? List.length (users_to_add desired actual))%nat eqn:Elen.
  - rewrite (for_each_requests (users_to_add desired actual) _
               (fun item => [share_request g album_id (snd item) (fst item)])).
    + rewrite after_after.
      rewrite flat_map_single. fold additions.
      cbn [app]. now rewrite <- app_assoc.
    + intros [role users] w2 H1. cbn [fst snd] in *.
      apply try_except_Ret.
      rewrite share_album_with_user_and_role_eq, Hrole.
      apply check_api_response_ok. apply succeeded_single in H1. exact H1.
    + rewrite flat_map_single. fold additions.
      cbn [after server trace app]. rewrite <- !app_assoc in *. cbn [app] in *.
      exact Hok3.
  - assert (Enil : additions = []).
    { unfold additions.
      destruct (users_to_add desired actual); [reflexivity|discriminate]. }
    rewrite Enil. unfold ret. now rewrite app_nil_r.
Qed.

(** Keys of a dictionary are distinct. *)
Lemma dict_get_None {V} (k : string) (d : Dict V) :
  dict_get k d = None <-> ~ In k (map fst d).
Proof.
  induction d as [|[k' v] d IH]; cbn; [tauto|].
  destruct (String.eqb_spec k' k) as [->|Hne].
  - split; [discriminate|]. intros H. destruct H. now left.
  - rewrite IH. tauto.
Qed.

Lemma dict_set_keys {V} (k : string) (v : V) (d : Dict V) :
  map fst (dict_set k v d)
  = if dict_mem k d then map fst d else (map fst d ++ [k])%list.
Proof.
  unfold dict_mem. induction d as [|[k' v'] d IH]; cbn; [reflexivity|].
  destruct (String.eqb_spec k' k) as [->|Hne]; cbn; [reflexivity|].
  rewrite IH. now destruct (dict_get k d).
Qed.

Lemma dict_set_NoDup {V} (k : string) (v : V) (d : Dict V) :
  NoDup (map fst d) -> NoDup (map fst (dict_set k v d)).
Proof.
  intros H. rewrite dict_set_keys. unfold dict_mem.
  destruct (dict_get k d) eqn:E; [exact H|].
  apply dict_get_None in E.
  apply NoDup_app; [exact H|repeat constructor; intros []|].
  intros x Hx [<-|[]]. contradiction.
Qed.

Lemma dict_get_set {V} (k k' : string) (v : V) (d : Dict V) :
  dict_get k (dict_set k' v d)
  = if (k' =? k)%string then Some v else dict_get k d.
Proof.
  induction d as [|[k0 v0] d IH]; cbn.
  - reflexivity.
  - destruct (String.eqb_spec k0 k') as [->|Hne]; cbn.
    + now destruct (k' =? k)%string.
    + rewrite IH. destruct (String.eqb_spec k' k) as [->|Hne'].
      * apply String.eqb_neq in Hne. now rewrite Hne.
      * reflexivity.
Qed.

Lemma dict_get_In {V} (k : string) (v : V) (d : Dict V) :
  NoDup (map fst d) -> In (k, v) d -> dict_get k d = Some v.
Proof.
  induction d as [|[k' v'] d IH]; cbn; [tauto|].
  intros Hnd [E|Hin].
  - injection E as -> ->. now rewrite String.eqb_refl.
  - inversion Hnd as [|? ? Hk Hd]; subst.
    destruct (String.eqb_spec k' k) as [->|Hne].
    + exfalso. apply Hk. now apply (in_map fst) in Hin.
    + now apply IH.
Qed.

Lemma desired_shares_NoDup (g : Globals) : NoDup (map fst (desired_shares g)).
Proof.
  unfold desired_shares.
  assert (H : NoDup (map fst (@nil (string * string)))) by constructor.
  revert H. generalize (@nil (string * string)) as d.
  induction (AlbumModel.share_with (album g)) as [|su l IH]; intros d H;
    cbn [fold_left]; [exact H|].
  apply IH. destruct (find_user_by_name_or_email _ _); [|exact H].
  now apply dict_set_NoDup.
Qed.










(** ** Chunks *)

Lemma firstn_plus {A} (a b : nat) (l : list A) :
  firstn (a + b) l = (firstn a l ++ firstn b (skipn a l))%list.
Proof.
  revert l. induction a as [|a IH]; intros l; [reflexivity|].
  destruct l as [|x l]; simpl.
  - now rewrite firstn_nil.
  - now rewrite IH.
Qed.

Lemma concat_slices {A} (n k : nat) (l : list A) :
  List.concat (map (fun i => firstn n (skipn (i * n) l)) (seq 0 k))
  = firstn (k * n) l.
Proof.
  induction k as [|k IH]; [reflexivity|].
  rewrite seq_S, map_app, concat_app, IH. cbn [map List.concat plus].
  rewrite app_nil_r.
  replace (S k * n)%nat with (k * n + n)%nat by lia.
  now rewrite firstn_plus.
Qed.

Lemma divide_chunks_positive {A} (l : list A) (c : Z) (w : World) :
  0 < c ->
  exists chunks,
    divide_chunks l c w = (Ret chunks, w)
    /\ List.concat chunks = l
    /\ Forall (fun ch => (0 < List.length ch <= Z.to_nat c)%nat) chunks.
Proof.
  intros Hc.
  set (n := Z.to_nat c).
  set (k := Z.to_nat ((Z.of_nat (List.length l) + c - 1) / c)).
  exists (map (fun i => firstn n (skipn (i * n) l)) (seq 0 k)).
  assert (Hq : 0 <= (Z.of_nat (List.length l) + c - 1) / c)
    by (apply Z.div_pos; lia).
  pose proof (Z.div_mod (Z.of_nat (List.length l) + c - 1) c ltac:(lia)) as Hdm.
  pose proof (Z.mod_pos_bound (Z.of_nat (List.length l) + c - 1) c Hc) as Hmod.
  assert (Hk1 : (List.length l <= k * n)%nat) by (subst k n; nia).
  assert (Hk2 : forall i, (i < k)%nat -> (i * n < List.length l)%nat)
    by (intros i Hi; subst k n; nia).
  split; [|split].
  - unfold divide_chunks, py_range_from_0, bind, ret.
    destruct (c =? 0) eqn:E0; [lia|].
    destruct (c <? 0) eqn:E1; [lia|].
    rewrite map_map. fold k. f_equal. f_equal.
    apply map_ext. intros i. unfold py_slice. fold n.
    f_equal. f_equal. subst n. rewrite Z2Nat.inj_mul by lia.
    now rewrite Nat2Z.id.
  - rewrite concat_slices. now apply firstn_all2.
  - apply Forall_forall. intros ch Hin.
    apply in_map_iff in Hin. destruct Hin as (i & <- & Hi).
    apply in_seq in Hi. rewrite length_firstn, length_skipn.
    specialize (Hk2 i ltac:(lia)). subst n. lia.
Qed.

(** ** Adding assets *)

Lemma collect_added_eq (response : list AddResult) (acc : list string)
    (w : World) :
  collect_added response acc w
  = (Ret (acc ++ map res_id (filter res_success response))%list,
     after w []
       (map add_warning
          (filter (fun res => negb (res_success res)
                              && negb (res_error res =? "duplicate")%string)
                  response))).
Proof.
  unfold collect_added. revert acc w.
  induction response as [|res response IH]; intros acc w.
  - cbn. now rewrite app_nil_r, after_nil.
  - cbn [for_fold filter map].
    destruct (res_success res) eqn:Es; cbn [negb andb].
    + rewrite (bind_Ret _ _ w w (acc ++ [res_id res])%list) by reflexivity.
      rewrite IH. cbn [map]. now rewrite <- app_assoc.
    + destruct (res_error res =? "duplicate")%string eqn:Ed; cbn [negb].
      * rewrite (bind_Ret _ _ w w acc) by reflexivity. now rewrite IH.
      * erewrite bind_Ret.
        2: { erewrite bind_Ret by apply logging_after. reflexivity. }
        rewrite IH, after_after. reflexivity.
Qed.

Lemma add_chunks_eq (g : Globals) (album_id : string)
    (chunks : list (list string)) (acc : list string) (w : World) :
  let reqs := map (assets_request g album_id) chunks in
  let rs := replies (server w) (trace w) reqs in
  Forall accepted rs ->
  for_fold chunks acc
    (fun asset_list_added assets_chunk =>
       let data := BodyIds assets_chunk in
       r <- http (mkRequest PUT
                    (root_url g ++ "albums" ++ "/" ++ album_id ++ "/assets")
                    data) ;;
       check_api_response r ;;;
       match payload r with
       | PAddResults response => collect_added response asset_list_added
       | _ => raise PayloadError
       end) w
  = (Ret (acc ++ flat_map reported_added rs)%list,
     after w reqs (map add_warning (flat_map reported_errors rs))).
Proof.
  revert acc w. induction chunks as [|chunk chunks IH]; intros acc w reqs rs Hok.
  - cbn. now rewrite app_nil_r, after_nil.
  - subst reqs rs. cbn [map replies] in Hok. inversion Hok as [|r0 rs0 Hr Hrest]; subst.
    destruct Hr as (Hstatus & response & Hpayload).
    cbn [for_fold].
    erewrite bind_Ret.
    2: { erewrite bind_Ret by apply http_after.
         erewrite bind_Ret by (apply check_api_response_ok; exact Hstatus).
         fold (assets_request g album_id chunk). rewrite Hpayload.
         apply collect_added_eq. }
    rewrite after_after. cbn [app].
    rewrite IH.
    + rewrite after_after. cbn [map replies flat_map].
      unfold reported_added at 2, reported_errors at 2, results_of.
      rewrite Hpayload. cbn [trace after server].
      rewrite <- !app_assoc, map_app. reflexivity.
    + exact Hrest.
Qed.

(** C5: with a positive chunk size, [add_assets_to_album] cuts the list
    into non-empty chunks of at most that size which concatenate to the
    list, sends one request per chunk in order and, when every request is
    answered without an HTTP error, returns the ids reported as added, in
    order; a result reported as a duplicate is neither returned nor logged,
    any other failed result is logged as a warning and not returned. *)
Theorem add_assets_to_album_spec (g : Globals) (album_id : string)
    (asset_list : list string) (w : World) :
  0 < number_of_images_per_request g ->
  exists chunks,
    divide_chunks asset_list (number_of_images_per_request g) w
    = (Ret chunks, w)
    /\ List.concat chunks = asset_list
    /\ Forall (fun ch => (0 < List.length ch
                          <= Z.to_nat (number_of_images_per_request g))%nat)
              chunks
    /\ let reqs := map (assets_request g album_id) chunks in
       let rs := replies (server w) (trace w) reqs in
       Forall accepted rs ->
       add_assets_to_album g album_id asset_list w
       = (Ret (flat_map reported_added rs),
          after w reqs (map add_warning (flat_map reported_errors rs))).
Proof.
  intros Hc.
  destruct (divide_chunks_positive asset_list _ w Hc) as (chunks & Hd & Hcat & Hlen).
  exists chunks. repeat split; auto.
  intros reqs rs Hok. unfold add_assets_to_album.
  erewrite bind_Ret by exact Hd.
  now rewrite add_chunks_eq.
Qed.

Lemma add_assets_to_album_spec_witness :
  let '(o, w) :=
    run (add_assets_to_album chunked_globals "id-alps" ["a"; "b"; "c"; "d"; "e"])
        album_server in
  o = Ret ["a"; "d"; "e"]
  /\ map req_body (trace w)
     = [BodyIds ["a"; "b"]; BodyIds ["c"; "d"]; BodyIds ["e"]]
  /\ logged w
     = [mkLog WARNING "Error adding an asset to an album: %s" ["not_found"]].
Proof.
  destruct (add_assets_to_album_spec chunked_globals "id-alps"
              ["a"; "b"; "c"; "d"; "e"] (world_with album_server [] []))
    as (chunks & Hd & _ & _ & H); [reflexivity|].
  vm_compute in Hd. injection Hd as <-.
  unfold run. rewrite H.
  - vm_compute. repeat split; reflexivity.
  - vm_compute. repeat constructor; eexists; reflexivity.
Defined.

(** ** Removal of offline assets *)

Lemma fetch_more_pages_eq (g : Globals) (search_options : SearchOptions)
    (k : nat) :
  forall (fuel : nat) (page : Z) (received found : list Asset) (w : World),
    (k <= fuel)%nat ->
    1 <= page ->
    let reqs :=
      map (fun i => search_request g search_options (page + Z.of_nat i))
          (seq 1 k) in
    let rs := replies (server w) (trace w) reqs in
    Forall page_ok rs ->
    pages_continue (search_page_size g) received rs ->
    fetch_more_pages g search_options (search_page_size g) fuel page received
                     found w
    = (Ret (found ++ flat_map items_of rs)%list, after w reqs []).
Proof.
  induction k as [|k IH]; intros fuel page received found w Hk Hp reqs rs Hok Hc.
  - cbn in *. destruct fuel; cbn [fetch_more_pages];
      (destruct (Z.eqb_spec (Z.of_nat (List.length received)) (search_page_size g));
       [contradiction|]);
      now rewrite app_nil_r, after_nil.
  - destruct fuel as [|fuel]; [lia|].
    subst reqs rs. cbn [seq map replies] in *.
    inversion Hok as [|r0 rs0 Hr Hrest]; subst. destruct Hc as [Hfull Hc].
    cbn [fetch_more_pages]. rewrite Hfull, Z.eqb_refl.
    assert (Ereq : mkRequest POST (root_url g ++ "search/metadata")
                     (BodySearch search_options (search_page_size g)
                                 (PageInt (page + 1)))
                   = search_request g search_options (page + Z.of_nat 1)).
    { unfold search_request. destruct (Z.eqb_spec (page + Z.of_nat 1) 1); [lia|].
      reflexivity. }
    rewrite Ereq.
    erewrite bind_Ret by apply http_after.
    destruct Hr as [Hstatus Hitems].
    erewrite bind_Ret by (apply check_api_response_ok; exact Hstatus).
    erewrite bind_Ret by (apply search_items_ok; exact Hitems).
    rewrite <- seq_shift, map_map in Hrest, Hc |- *.
    assert (Emap : map (fun i => search_request g search_options (page + Z.of_nat (S i))) (seq 1 k)
                   = map (fun i => search_request g search_options (page + 1 + Z.of_nat i)) (seq 1 k)).
    { apply map_ext. intros i. f_equal. lia. }
    rewrite Emap in Hrest, Hc |- *.
    rewrite (IH fuel (page + 1)); cbn [after trace server]; auto; try lia.
    rewrite after_after. cbn [flat_map app]. now rewrite <- app_assoc.
Qed.

Lemma fetch_assets_with_options_eq (g : Globals)
    (search_options : SearchOptions) (n fuel : nat) (w : World) :
  (n <= S fuel)%nat ->
  let reqs :=
    map (fun i => search_request g search_options (Z.of_nat i)) (seq 1 n) in
  let rs := replies (server w) (trace w) reqs in
  Forall page_ok rs ->
  pages_end (search_page_size g) rs ->
  fetch_assets_with_options g fuel search_options w
  = (Ret (flat_map items_of rs), after w reqs []).
Proof.
  intros Hn reqs rs Hok Hend.
  destruct n as [|k]; [contradiction|].
  subst reqs rs. cbn [seq map replies] in *.
  inversion Hok as [|r0 rs0 [Hstatus Hitems] Hrest]; subst.
  unfold fetch_assets_with_options. fold (search_page_size g).
  change (mkRequest POST (root_url g ++ "search/metadata")
            (BodySearch search_options (search_page_size g) (PageStr "1")))
    with (search_request g search_options (Z.of_nat 1)).
  erewrite bind_Ret by apply http_after.
  erewrite bind_Ret by (apply raise_for_status_ok; exact Hstatus).
  erewrite bind_Ret by (apply search_items_ok; exact Hitems).
  rewrite <- seq_shift, map_map in Hrest, Hend |- *.
  assert (Emap : map (fun i => search_request g search_options (Z.of_nat (S i))) (seq 1 k)
                 = map (fun i => search_request g search_options (1 + Z.of_nat i)) (seq 1 k)).
  { apply map_ext. intros i. f_equal. lia. }
  rewrite Emap in Hrest, Hend |- *.
  rewrite (fetch_more_pages_eq g search_options k); cbn [after trace server];
    auto; try lia.
  rewrite after_after. reflexivity.
Qed.

Lemma trigger_offline_asset_removal_async_eq (g : Globals) (lib : string)
    (w : World) :
  let r := server w (trace w) (remove_offline_request g lib) in
  status_code r = 403 \/ is_error_status (status_code r) = false ->
  trigger_offline_asset_removal_async g lib w
  = (Ret tt,
     after w [remove_offline_request g lib]
           (if status_code r =? 403 then [admin_key_required] else [])).
Proof.
  intros r Hr. unfold trigger_offline_asset_removal_async.
  erewrite bind_Ret by apply http_after.
  fold (remove_offline_request g lib). fold r.
  destruct (Z.eqb_spec (status_code r) 403) as [E|E].
  - rewrite logging_after, after_after. reflexivity.
  - destruct Hr as [Hr|Hr]; [contradiction|].
    now rewrite check_api_response_ok.
Qed.

Lemma remove_offline_loop_eq (g : Globals) (libraries : list string) :
  forall (w : World),
    let reqs := map (remove_offline_request g) libraries in
    let rs := replies (server w) (trace w) reqs in
    Forall (fun r => status_code r = 403
                     \/ is_error_status (status_code r) = false) rs ->
    for_each libraries
      (fun library => trigger_offline_asset_removal_async g library) w
    = (Ret tt,
       after w reqs
         (map (fun _ => admin_key_required)
              (filter (fun r => status_code r =? 403) rs))).
Proof.
  induction libraries as [|lib libraries IH]; intros w reqs rs Hok.
  - cbn. now rewrite after_nil.
  - subst reqs rs. cbn [map replies] in *.
    inversion Hok as [|r0 rs0 Hr Hrest]; subst.
    cbn [for_each filter].
    erewrite bind_Ret
      by (apply trigger_offline_asset_removal_async_eq; exact Hr).
    rewrite IH by exact Hrest.
    rewrite after_after. cbn [after trace server].
    destruct (status_code (server w (trace w) (remove_offline_request g lib))
              =? 403); reflexivity.
Qed.

(** C8: for a version with major 1 and minor below 116,
    [trigger_offline_asset_removal] fetches the libraries and posts the
    removal job once per library, in order; a 403 answer is logged at
    level FATAL and the library is not requested again.  For a version
    at or above 1.116 it searches the trashed assets page by page, keeps
    those with [isOffline] and, when there is one, sends one DELETE with
    [force] set for exactly their ids; when there is none it deletes
    nothing.  [n] is the number of pages and [fuel] bounds the pages after
    the first. *)
Theorem trigger_offline_asset_removal_spec (g : Globals) (fuel : nat)
    (w : World) :
  (major (version g) = 1 -> minor (version g) < 116 ->
   forall libraries,
     let r0 := server w (trace w) (libraries_request g) in
     let reqs := map (remove_offline_request g) libraries in
     let rs := replies (server w) (trace w ++ [libraries_request g])%list reqs in
     is_error_status (status_code r0) = false ->
     payload r0 = PLibraries libraries ->
     Forall (fun r => status_code r = 403
                      \/ is_error_status (status_code r) = false) rs ->
     trigger_offline_asset_removal g fuel w
     = (Ret tt,
        after w (libraries_request g :: reqs)
          (map (fun _ => admin_key_required)
               (filter (fun r => status_code r =? 403) rs))))
  /\
  (1 < major (version g)
   \/ (major (version g) = 1 /\ 116 <= minor (version g)) ->
   forall n,
     let reqs :=
       map (fun i => search_request g trashed_options (Z.of_nat i)) (seq 1 n) in
     let rs := replies (server w) (trace w) reqs in
     let offline_assets := filter isOffline (flat_map items_of rs) in
     let deletion := delete_assets_request g true offline_assets in
     (n <= S fuel)%nat ->
     Forall page_ok rs ->
     pages_end (search_page_size g) rs ->
     trigger_offline_asset_removal g fuel w
     = match offline_assets with
       | [] =>
           (Ret tt,
            after w reqs [mkLog INFO "No offline assets found!" []])
       | _ :: _ =>
           (checked (server w (trace w ++ reqs)%list deletion),
            after w (reqs ++ [deletion])
                  [mkLog INFO "Deleting %s offline assets" []])
       end).
Proof.
  split.
  - intros Hmaj Hmin libraries r0 reqs rs Hstatus Hpayload Hok.
    unfold trigger_offline_asset_removal.
    rewrite Hmaj. destruct (Z.ltb_spec (minor (version g)) 116); [|lia].
    cbn [Z.eqb Pos.eqb andb].
    unfold trigger_offline_asset_removal_pre_minor_version_116.
    erewrite bind_Ret.
    2: { unfold fetch_libraries.
         erewrite bind_Ret by apply http_after.
         fold (libraries_request g). fold r0.
         erewrite bind_Ret by (apply check_api_response_ok; exact Hstatus).
         rewrite Hpayload. reflexivity. }
    rewrite remove_offline_loop_eq by exact Hok.
    rewrite after_after. reflexivity.
  - intros Hv n reqs rs offline_assets deletion Hn Hok Hend.
    unfold trigger_offline_asset_removal.
    assert (E : (major (version g) =? 1) && (minor (version g) <? 116) = false).
    { destruct Hv as [Hv | [Hv1 Hv2]].
      - destruct (Z.eqb_spec (major (version g)) 1); [lia|reflexivity].
      - rewrite Hv1. destruct (Z.ltb_spec (minor (version g)) 116); [lia|reflexivity]. }
    rewrite E.
    unfold trigger_offline_asset_removal_since_minor_version_116.
    fold trashed_options.
    erewrite bind_Ret by (apply (fetch_assets_with_options_eq g trashed_options n fuel w Hn Hok Hend)).
    fold reqs rs offline_assets.
    destruct offline_assets as [|a rest] eqn:Eoff.
    + cbn [List.length Nat.ltb Nat.leb]. rewrite logging_after, after_after.
      now rewrite app_nil_r.
    + cbn [List.length Nat.ltb Nat.leb].
      erewrite bind_Ret by apply logging_after.
      unfold delete_assets.
      erewrite bind_Ret by apply http_after.
      rewrite check_api_response_checked, !after_after.
      cbn [after trace server app]. rewrite app_nil_r.
      subst deletion. unfold delete_assets_request. reflexivity.
Qed.

Lemma trigger_offline_asset_removal_spec_witness :
  (let g := globals_at (mkVersion 1 115 0) 2 in
   let w := world_with forbidden_server [] [] in
   trigger_offline_asset_removal g 0 w
   = (Ret tt,
      after w [libraries_request g; remove_offline_request g "lib-1";
               remove_offline_request g "lib-2"]
            [admin_key_required; admin_key_required]))
  /\
  (let g := globals_at (mkVersion 1 116 0) 2 in
   let w := world_with trash_server [] [] in
   trigger_offline_asset_removal g 1 w
   = (Ret tt,
      after w [search_request g trashed_options 1;
               search_request g trashed_options 2;
               delete_assets_request g true [photo_b; photo_d]]
            [mkLog INFO "Deleting %s offline assets" []])).
Proof.
  split.
  - intros g w.
    destruct (trigger_offline_asset_removal_spec g 0 w) as [H _].
    apply (H eq_refl eq_refl ["lib-1"; "lib-2"]).
    + reflexivity.
    + reflexivity.
    + vm_compute. repeat constructor.
  - intros g w.
    destruct (trigger_offline_asset_removal_spec g 1 w) as [_ H].
    assert (Hv : 1 < major (version g)
                 \/ major (version g) = 1 /\ 116 <= minor (version g)).
    { right. split; [reflexivity|]. cbn. lia. }
    specialize (H Hv 2%nat). cbv zeta in H.
    rewrite H.
    + reflexivity.
    + lia.
    + vm_compute. repeat constructor; eexists; reflexivity.
    + vm_compute. split; [reflexivity|discriminate].
Defined.

(** ** Start of the script *)






Lemma fetch_server_version_eq (root : string) (w : World) :
  let r1 := server w (trace w) (version_request root) in
  let r2 := server w (trace w ++ [version_request root])%list
                   (legacy_version_request root) in
  let r := if status_code r1 =? 404 then r2 else r1 in
  let reqs := if status_code r1 =? 404
              then [version_request root; legacy_version_request root]
              else [version_request root] in
  fst (fetch_server_version root w)
  = (if status_code r =? 200 then
       match payload r with
       | PVersion v => Ret v
       | _ => Exc PayloadError
       end
     else if is_error_status (status_code r)
          then Exc (RequestsHTTPError (status_code r))
          else Exc UnboundLocalError)
  /\ trace (snd (fetch_server_version root w)) = (trace w ++ reqs)%list.
Proof.
  intros r1 r2 r reqs. unfold fetch_server_version.
  erewrite bind_Ret by apply http_after.
  fold (version_request root). fold r1.
  assert (Htail : forall (r : Response) (w1 : World),
    let m :=
      (if status_code r =? 200 then
         match payload r with
         | PVersion server_version =>
             logging INFO "Detected Immich server version %s.%s.%s" [] ;;;
             ret server_version
         | _ => raise PayloadError
         end
       else
         logging ERROR
           "Communication with Immich API failed! Make sure the passed API URL is correct!"
           [] ;;;
         check_api_response r ;;;
         raise UnboundLocalError) in
    fst (m w1)
    = (if status_code r =? 200 then
         match payload r with
         | PVersion v => Ret v
         | _ => Exc PayloadError
         end
       else if is_error_status (status_code r)
            then Exc (RequestsHTTPError (status_code r))
            else Exc UnboundLocalError)
    /\ trace (snd (m w1)) = trace w1).
  { intros r0 w1 m. subst m. destruct (status_code r0 =? 200).
    - destruct (payload r0); try (split; reflexivity).
    - erewrite bind_Ret by apply logging_after.
      unfold bind. rewrite check_api_response_checked. unfold checked.
      destruct (is_error_status (status_code r0)); cbn;
        (split; [reflexivity|now rewrite app_nil_r]). }
  subst r reqs.
  destruct (status_code r1 =? 404).
  - erewrite bind_Ret by apply http_after.
    fold (legacy_version_request root).
    destruct (Htail (server (after w [version_request root] [])
                            (trace (after w [version_request root] []))
                            (legacy_version_request root))
                    (after (after w [version_request root] [])
                           [legacy_version_request root] [])) as [H1 H2].
    split; [exact H1|]. rewrite H2. cbn. now rewrite <- app_assoc.
  - erewrite bind_Ret by reflexivity.
    destruct (Htail r1 (after w [version_request root] [])) as [H1 H2].
    split; [exact H1|]. rewrite H2. reflexivity.
Qed.






(** The library scan, the first request that changes the server, is issued
    only when the start returned. *)
Lemma startup_and_sync_after_gate (args : Args) (w : World) (code : Z) :
  fst (startup args w) = Exc (SystemExit code) ->
  startup_and_sync args w = startup args w.
Proof.
  intros H. unfold startup_and_sync, bind.
  destruct (startup args w) as [[st|e] w']; cbn [fst] in H; [discriminate|].
  reflexivity.
Qed.

(** ** Command-line defaults in the album model *)

Lemma share_with_fold (g : Globals) (l : list string) (m : AlbumModel.t) :
  fold_left
    (fun m album_share_user =>
       let (share_user_name, share_user_role) :=
         parse_separated_string album_share_user "="%char in
       let share_user_role :=
         match share_user_role with
         | None => share_role g
         | Some r => r
         end in
       AlbumModel.set_share_with m
         (AlbumModel.share_with m
            ++ [mkShareUser share_user_name share_user_role]))
    l m
  = AlbumModel.set_share_with m
      (AlbumModel.share_with m ++ map (share_entry g) l).
Proof.
  revert m. induction l as [|x l IH]; intros m.
  - destruct m. cbn. now rewrite app_nil_r.
  - cbn [fold_left map]. rewrite IH. unfold share_entry.
    destruct (parse_separated_string x "="%char) as [n r].
    destruct m. cbn. now rewrite <- app_assoc.
Qed.

(** C3, amended: [set_album_properties_in_model] applies every default
    that is given on the command line whatever the field holds: the
    thumbnail setting, the archive flag, the sort order and the
    comments-and-likes flag are replaced, the share entries are appended;
    a field whose option is not given is kept.  In a model built for a
    Google album the thumbnail setting is the command-line value when
    [--set-album-thumbnail] is given, and the path of the cover photo only
    when it is not; the other three fields hold the command-line value or
    are unset. *)
Theorem cli_defaults_replace_model_fields (g : Globals) (m : AlbumModel.t) :
  let m' := set_album_properties_in_model g m in
  AlbumModel.thumbnail_setting m'
  = (if opt_truthy (set_album_thumbnail g) then set_album_thumbnail g
     else AlbumModel.thumbnail_setting m)
  /\ AlbumModel.archive m'
     = (if archive g then Some true else AlbumModel.archive m)
  /\ AlbumModel.sort_order m'
     = (if opt_truthy (album_order g) then album_order g
        else AlbumModel.sort_order m)
  /\ AlbumModel.comments_and_likes_enabled m'
     = (if comments_and_likes_enabled g then Some true
        else if comments_and_likes_disabled g then Some false
        else AlbumModel.comments_and_likes_enabled m)
  /\ AlbumModel.share_with m'
     = (AlbumModel.share_with m
        ++ map (share_entry g)
               match share_with g with
               | Some l => l
               | None => []
               end)%list
  /\ (forall asset_by_gpid album_name google_album,
        let built :=
          new_album_model_for g asset_by_gpid album_name google_album in
        AlbumModel.thumbnail_setting built
        = (if opt_truthy (set_album_thumbnail g) then set_album_thumbnail g
           else cover_thumbnail asset_by_gpid google_album)
        /\ AlbumModel.archive built = (if archive g then Some true else None)
        /\ AlbumModel.sort_order built
           = (if opt_truthy (album_order g) then album_order g else None)
        /\ AlbumModel.comments_and_likes_enabled built
           = (if comments_and_likes_enabled g then Some true
              else if comments_and_likes_disabled g then Some false
              else None)).
Proof.
  assert (Hgen : forall m0,
    let m' := set_album_properties_in_model g m0 in
    AlbumModel.thumbnail_setting m'
    = (if opt_truthy (set_album_thumbnail g) then set_album_thumbnail g
       else AlbumModel.thumbnail_setting m0)
    /\ AlbumModel.archive m'
       = (if archive g then Some true else AlbumModel.archive m0)
    /\ AlbumModel.sort_order m'
       = (if opt_truthy (album_order g) then album_order g
          else AlbumModel.sort_order m0)
    /\ AlbumModel.comments_and_likes_enabled m'
       = (if comments_and_likes_enabled g then Some true
          else if comments_and_likes_disabled g then Some false
          else AlbumModel.comments_and_likes_enabled m0)
    /\ AlbumModel.share_with m'
       = (AlbumModel.share_with m0
          ++ map (share_entry g)
                 match share_with g with
                 | Some l => l
                 | None => []
                 end)%list).
  { intros m0 m'. subst m'. unfold set_album_properties_in_model.
    set (m1 := match share_with g with
               | Some (x :: l) => fold_left _ (x :: l) m0
               | _ => m0
               end).
    assert (H1 : m1 = AlbumModel.set_share_with m0
                        (AlbumModel.share_with m0
                           ++ map (share_entry g)
                                  match share_with g with
                                  | Some l => l
                                  | None => []
                                  end)).
    { subst m1. destruct (share_with g) as [[|x l]|].
      - destruct m0. cbn. now rewrite app_nil_r.
      - apply share_with_fold.
      - destruct m0. cbn. now rewrite app_nil_r. }
    rewrite H1. clear H1 m1.
    destruct (opt_truthy (set_album_thumbnail g)), (archive g),
      (opt_truthy (album_order g)), (comments_and_likes_enabled g),
      (comments_and_likes_disabled g); cbn; repeat split; reflexivity. }
  intros m'. subst m'.
  destruct (Hgen m) as (H1 & H2 & H3 & H4 & H5).
  do 5 (split; [assumption|]).
  intros asset_by_gpid album_name google_album built.
  subst built. unfold new_album_model_for.
  match goal with
  | |- context [set_album_properties_in_model g ?m0] =>
      destruct (Hgen m0) as (G1 & G2 & G3 & G4 & _)
  end.
  rewrite G1, G2, G3, G4. unfold cover_thumbnail.
  destruct (ga_coverPhotoMediaItemId google_album) as [tid|];
    [destruct (dict_get tid asset_by_gpid)|]; repeat split; reflexivity.
Qed.

(** C3, as stated, fails: with [--set-album-thumbnail first], the model of
    an album whose cover photo is known holds ["first"], not the path of
    the cover photo. *)
Lemma cli_thumbnail_replaces_cover_photo :
  ~ (forall g asset_by_gpid album_name google_album thumbnail_asset,
        cover_thumbnail asset_by_gpid google_album
        = Some (originalPath thumbnail_asset) ->
        AlbumModel.thumbnail_setting
          (new_album_model_for g asset_by_gpid album_name google_album)
        = Some (originalPath thumbnail_asset)).
Proof.
  intros H.
  specialize (H thumbnail_first_globals [("media-a", photo_a)] "Trip"
                trip_album photo_a eq_refl).
  discriminate H.
Qed.

(** The same input through [build_album_list]. *)
Lemma build_album_list_example :
  exists m,
    build_album_list thumbnail_first_globals [("media-a", photo_a)]
                     [trip_album] (fun _ => ["media-a"])
    = [("Trip", m)]
    /\ cover_thumbnail [("media-a", photo_a)] trip_album = Some "/lib/a.jpg"
    /\ AlbumModel.thumbnail_setting m = Some "first"
    /\ AlbumModel.assets m = [photo_a].
Proof. eexists. vm_compute. repeat split; reflexivity. Qed.

(** * Further properties *)

(** ** Strings, users and the API key *)

Lemma contains_char_app (c : ascii) (a b : string) :
  contains_char c (a ++ b) = contains_char c a || contains_char c b.
Proof.
  induction a as [|x a IH]; cbn; [reflexivity|].
  now rewrite IH, orb_assoc.
Qed.

(** X1: [expand_to_glob] is idempotent, and its result always holds a
    slash or an asterisk. *)
Theorem expand_to_glob_idempotent (expr : string) :
  expand_to_glob (expand_to_glob expr) = expand_to_glob expr
  /\ (contains_char "/"%char (expand_to_glob expr)
      || contains_char "*"%char (expand_to_glob expr)) = true.
Proof.
  assert (H : (contains_char "/"%char (expand_to_glob expr)
               || contains_char "*"%char (expand_to_glob expr)) = true).
  { unfold expand_to_glob.
    destruct (contains_char "/"%char expr) eqn:E1; cbn [negb andb].
    - now rewrite E1.
    - destruct (contains_char "*"%char expr) eqn:E2; cbn [negb andb].
      + now rewrite E1, E2.
      + reflexivity. }
  split; [|exact H].
  unfold expand_to_glob at 1.
  apply orb_true_iff in H. destruct H as [H | H]; rewrite H; cbn [negb andb];
    [reflexivity|].
  now rewrite andb_false_r.
Qed.

Lemma split_first_join (sep : ascii) (key value : string) :
  contains_char sep key = false ->
  split_first sep (key ++ String sep value) = (key, Some value).
Proof.
  induction key as [|c key IH]; cbn; intros H.
  - now rewrite Ascii.eqb_refl.
  - apply orb_false_iff in H. destruct H as [H1 H2].
    rewrite H1, IH by exact H2. reflexivity.
Qed.

Lemma split_first_none (sep : ascii) (s : string) :
  contains_char sep s = false -> split_first sep s = (s, None).
Proof.
  induction s as [|c s IH]; cbn; intros H; [reflexivity|].
  apply orb_false_iff in H. destruct H as [H1 H2].
  rewrite H1, IH by exact H2. reflexivity.
Qed.

(** X2: [parse_separated_string] undoes the joining of a key and a value
    with the separator: the key comes back stripped and the value as it is,
    further separators included; a string without the separator gives the
    stripped string and no value. *)
Theorem parse_separated_string_join (separator : ascii) (key value : string) :
  contains_char separator key = false ->
  parse_separated_string (key ++ String separator value) separator
  = (strip key, Some value)
  /\ parse_separated_string key separator = (strip key, None).
Proof.
  intros H. unfold parse_separated_string.
  now rewrite split_first_join, split_first_none.
Qed.

Lemma parse_separated_string_join_witness :
  parse_separated_string " bob =editor=x" "="%char = ("bob", Some "editor=x")
  /\ parse_separated_string " bob " "="%char = ("bob", None).
Proof.
  apply (parse_separated_string_join "="%char " bob " "editor=x").
  reflexivity.
Defined.

(** X3: [find_user_by_name_or_email] returns the first user of the list
    whose name or email is the string looked for, and [None] exactly when
    no user has it as name or email. *)
Theorem find_user_by_name_or_email_first (name_or_email : string)
    (user_list : list User) :
  match find_user_by_name_or_email name_or_email user_list with
  | Some user =>
      exists before after,
        user_list = (before ++ user :: after)%list
        /\ (user_name user = name_or_email \/ user_email user = name_or_email)
        /\ Forall (fun u => user_name u <> name_or_email
                            /\ user_email u <> name_or_email) before
  | None =>
      Forall (fun u => user_name u <> name_or_email
                       /\ user_email u <> name_or_email) user_list
  end.
Proof.
  unfold find_user_by_name_or_email.
  induction user_list as [|u l IH]; cbn [find]; [constructor|].
  unfold str_in at 1. cbn [existsb].
  destruct (String.eqb_spec name_or_email (user_name u)) as [E1|E1].
  - exists [], l. repeat split; auto.
  - destruct (String.eqb_spec name_or_email (user_email u)) as [E2|E2].
    + exists [], l. repeat split; auto.
    + cbn [orb]. destruct (find _ l) as [user|].
      * destruct IH as (before & after & -> & Hm & Hb).
        exists (u :: before), after. repeat split; auto.
      * constructor; auto.
Qed.














(** ** Chunks *)

(** X5: with a chunk size of zero [add_assets_to_album] raises
    [ValueError] and with a negative one it returns the empty list; in both
    cases no request is issued, whatever the assets. *)
Theorem add_assets_to_album_nonpositive_chunk (g : Globals)
    (album_id : string) (asset_list : list string) (w : World) :
  number_of_images_per_request g <= 0 ->
  add_assets_to_album g album_id asset_list w
  = (if number_of_images_per_request g =? 0 then Exc ValueError else Ret [], w).
Proof.
  intros H. unfold add_assets_to_album, divide_chunks, py_range_from_0.
  destruct (Z.eqb_spec (number_of_images_per_request g) 0) as [E|E].
  - reflexivity.
  - destruct (Z.ltb_spec (number_of_images_per_request g) 0); [|lia].
    reflexivity.
Qed.

Lemma add_assets_to_album_nonpositive_chunk_witness :
  add_assets_to_album
    (mkGlobals "http://immich/api/" (-5) 5000 None "viewer" None false None
               false false 0 0 version_1_120 [] album_alps)
    "id-alps" ["a"; "b"] (world_with ok_server [] [])
  = (Ret [], world_with ok_server [] []).
Proof.
  apply (add_assets_to_album_nonpositive_chunk
           (mkGlobals "http://immich/api/" (-5) 5000 None "viewer" None false
                      None false false 0 0 version_1_120 [] album_alps)).
  cbn. lia.
Defined.

(** X6: for a positive chunk size, [divide_chunks] yields
    ceil(len / size) chunks; chunk [i] is the slice of the list from
    [i * size], and every chunk but the last has exactly [size] elements. *)
Theorem divide_chunks_slices {A : Type} (full_list : list A) (chunk_size : Z)
    (w : World) :
  0 < chunk_size ->
  exists chunks,
    divide_chunks full_list chunk_size w = (Ret chunks, w)
    /\ Z.of_nat (List.length chunks)
       = (Z.of_nat (List.length full_list) + chunk_size - 1) / chunk_size
    /\ forall i chunk,
         nth_error chunks i = Some chunk ->
         chunk = firstn (Z.to_nat chunk_size)
                        (skipn (i * Z.to_nat chunk_size) full_list)
         /\ ((S i < List.length chunks)%nat ->
             List.length chunk = Z.to_nat chunk_size).
Proof.
  intros Hc.
  set (n := Z.to_nat chunk_size).
  set (k := Z.to_nat ((Z.of_nat (List.length full_list) + chunk_size - 1)
                      / chunk_size)).
  exists (map (fun i => firstn n (skipn (i * n) full_list)) (seq 0 k)).
  assert (Hq : 0 <= (Z.of_nat (List.length full_list) + chunk_size - 1)
                    / chunk_size) by (apply Z.div_pos; lia).
  pose proof (Z.div_mod (Z.of_nat (List.length full_list) + chunk_size - 1)
                chunk_size ltac:(lia)) as Hdm.
  pose proof (Z.mod_pos_bound (Z.of_nat (List.length full_list) + chunk_size - 1)
                chunk_size Hc) as Hmod.
  split; [|split].
  - unfold divide_chunks, py_range_from_0, bind, ret.
    destruct (Z.eqb_spec chunk_size 0); [lia|].
    destruct (Z.ltb_spec chunk_size 0); [lia|].
    rewrite map_map. fold k. f_equal. f_equal.
    apply map_ext. intros i. unfold py_slice. fold n.
    f_equal. f_equal. subst n. rewrite Z2Nat.inj_mul by lia.
    now rewrite Nat2Z.id.
  - rewrite length_map, length_seq. subst k. lia.
  - intros i chunk Hi.
    rewrite length_map, length_seq.
    assert (Hik : (i < k)%nat).
    { assert (Hlt : (i < List.length
                           (map (fun i => firstn n (skipn (i * n) full_list))
                                (seq 0 k)))%nat)
        by (apply nth_error_Some; rewrite Hi; discriminate).
      now rewrite length_map, length_seq in Hlt. }
    rewrite nth_error_map, nth_error_seq in Hi.
    destruct (Nat.ltb_spec i k); [|lia]. cbn in Hi. injection Hi as <-.
    split; [reflexivity|].
    intros Hlast. rewrite length_firstn, length_skipn.
    assert ((S i) * n <= List.length full_list)%nat; [|lia].
    subst k n. nia.
Qed.

Lemma divide_chunks_slices_witness :
  exists chunks,
    divide_chunks [1; 2; 3; 4; 5] 2 (world_with ok_server [] [])
    = (Ret chunks, world_with ok_server [] [])
    /\ Z.of_nat (List.length chunks) = 3.
Proof.
  destruct (divide_chunks_slices [1; 2; 3; 4; 5] 2 (world_with ok_server [] []))
    as (chunks & H1 & H2 & _); [lia|].
  exists chunks. split; [exact H1|]. rewrite H2. reflexivity.
Defined.

Lemma for_fold_app {X S} (a b : list X) (s : S) (body : S -> X -> M S)
    (w : World) :
  for_fold (a ++ b) s body w
  = (s' <- for_fold a s body ;; for_fold b s' body) w.
Proof.
  revert s w. induction a as [|x a IH]; intros s w; cbn [app for_fold].
  - reflexivity.
  - unfold bind in *.
    destruct (body s x w) as [[s1|e] w1]; [|reflexivity].
    apply IH.
Qed.

(** X7: when the answer to a chunk is an HTTP error, [add_assets_to_album]
    raises it: the chunks after it are not sent, and the ids added through
    the chunks before it are not returned. *)
Theorem add_assets_to_album_failed_chunk (g : Globals) (album_id : string)
    (asset_list : list string) (w : World)
    (sent : list (list string)) (failed : list string)
    (unsent : list (list string)) :
  divide_chunks asset_list (number_of_images_per_request g) w
  = (Ret (sent ++ failed :: unsent)%list, w) ->
  let reqs := map (assets_request g album_id) sent in
  let rs := replies (server w) (trace w) reqs in
  let r := server w (trace w ++ reqs)%list (assets_request g album_id failed) in
  Forall accepted rs ->
  is_error_status (status_code r) = true ->
  add_assets_to_album g album_id asset_list w
  = (Exc (RequestsHTTPError (status_code r)),
     after w (reqs ++ [assets_request g album_id failed])
           (map add_warning (flat_map reported_errors rs))).
Proof.
  intros Hd reqs rs r Hok Herr. unfold add_assets_to_album.
  erewrite bind_Ret by exact Hd.
  rewrite for_fold_app.
  erewrite bind_Ret by (apply add_chunks_eq; exact Hok).
  cbn [for_fold].
  erewrite bind_Exc.
  2: { erewrite bind_Ret by apply http_after.
       erewrite bind_Exc.
       2: { apply check_api_response_error. exact Herr. }
       reflexivity. }
  rewrite after_after, app_nil_r. reflexivity.
Qed.

Lemma add_assets_to_album_failed_chunk_witness :
  let '(o, w) :=
    run (add_assets_to_album chunked_globals "id-alps" ["a"; "b"; "c"; "d"; "e"])
        second_chunk_fails in
  o = Exc (RequestsHTTPError 500)
  /\ map req_body (trace w) = [BodyIds ["a"; "b"]; BodyIds ["c"; "d"]].
Proof.
  unfold run.
  rewrite (add_assets_to_album_failed_chunk chunked_globals "id-alps"
             ["a"; "b"; "c"; "d"; "e"] (world_with second_chunk_fails [] [])
             [["a"; "b"]] ["c"; "d"] [["e"]]).
  - vm_compute. split; reflexivity.
  - reflexivity.
  - vm_compute. repeat constructor. eexists. reflexivity.
  - reflexivity.
Defined.

(** ** Responses, the server version and the search *)

(** X8: [check_api_response] raises the [requests] exception exactly for
    the statuses 400 to 599 and returns otherwise; in no case does it log
    anything, not even when the response carries an error payload. *)
Theorem check_api_response_never_logs (response : Response) (w : World) :
  snd (check_api_response response w) = w
  /\ (400 <= status_code response < 600 ->
      fst (check_api_response response w)
      = Exc (RequestsHTTPError (status_code response)))
  /\ (status_code response < 400 \/ 600 <= status_code response ->
      fst (check_api_response response w) = Ret tt).
Proof.
  rewrite check_api_response_checked. unfold checked, is_error_status.
  split; [reflexivity|]. split; intros H.
  - destruct (Z.leb_spec 400 (status_code response)); [|lia].
    destruct (Z.ltb_spec (status_code response) 600); [|lia]. reflexivity.
  - destruct (Z.leb_spec 400 (status_code response));
      destruct (Z.ltb_spec (status_code response) 600); try lia; reflexivity.
Qed.

Lemma check_api_response_never_logs_witness :
  check_api_response (mkResponse 404 "Not Found" (PError "Not found"))
                     (world_with ok_server [] [])
  = (Exc (RequestsHTTPError 404), world_with ok_server [] []).
Proof.
  destruct (check_api_response_never_logs
              (mkResponse 404 "Not Found" (PError "Not found"))
              (world_with ok_server [] [])) as (H1 & H2 & _).
  specialize (H2 ltac:(cbn; lia)).
  destruct (check_api_response _ _) as [o w']. cbn [fst snd] in *.
  now rewrite H1, H2.
Defined.

(** X9: when the version endpoint answers 404, [fetch_server_version]
    asks the legacy endpoint and returns the version it reports, after
    exactly these two requests; an answer that is neither 200 nor an HTTP
    error (one request, no fallback) ends in [UnboundLocalError]; a 404
    from both endpoints raises the [requests] exception. *)
Theorem fetch_server_version_fallback (root : string) (w : World) :
  let r1 := server w (trace w) (version_request root) in
  let r2 := server w (trace w ++ [version_request root])%list
                   (legacy_version_request root) in
  (forall v,
      status_code r1 = 404 -> status_code r2 = 200 -> payload r2 = PVersion v ->
      fst (fetch_server_version root w) = Ret v
      /\ trace (snd (fetch_server_version root w))
         = (trace w ++ [version_request root; legacy_version_request root])%list)
  /\ (status_code r1 <> 200 -> status_code r1 <> 404 ->
      is_error_status (status_code r1) = false ->
      fst (fetch_server_version root w) = Exc UnboundLocalError
      /\ trace (snd (fetch_server_version root w))
         = (trace w ++ [version_request root])%list)
  /\ (status_code r1 = 404 -> status_code r2 = 404 ->
      fst (fetch_server_version root w) = Exc (RequestsHTTPError 404)).
Proof.
  intros r1 r2.
  destruct (fetch_server_version_eq root w) as [Ho Ht].
  fold r1 r2 in Ho, Ht. rewrite Ho, Ht. clear Ho Ht.
  split; [|split].
  - intros v H1 H2 Hp. rewrite H1. cbn [Z.eqb Pos.eqb].
    rewrite H2, Hp. split; reflexivity.
  - intros H1 H2 H3.
    destruct (Z.eqb_spec (status_code r1) 404); [contradiction|].
    destruct (Z.eqb_spec (status_code r1) 200); [contradiction|].
    rewrite H3. split; reflexivity.
  - intros H1 H2. rewrite H1. cbn [Z.eqb Pos.eqb]. rewrite H2. reflexivity.
Qed.

Lemma fetch_server_version_fallback_witness :
  fst (run (fetch_server_version "http://immich/api/")
           (legacy_server (mkVersion 1 117 0)))
  = Ret (mkVersion 1 117 0)
  /\ fst (run (fetch_server_version "http://immich/api/")
              (fun _ _ => mkResponse 204 "No Content" PEmpty))
     = Exc UnboundLocalError.
Proof.
  split.
  - destruct (fetch_server_version_fallback "http://immich/api/"
                (world_with (legacy_server (mkVersion 1 117 0)) [] []))
      as (H & _ & _).
    apply (H (mkVersion 1 117 0)); reflexivity.
  - destruct (fetch_server_version_fallback "http://immich/api/"
                (world_with (fun _ _ => mkResponse 204 "No Content" PEmpty)
                            [] []))
      as (_ & H & _).
    apply H; [discriminate|discriminate|reflexivity].
Defined.

(** X10: [fetch_assets] asks for pages of min(1000, fetch chunk size)
    assets with the two flags as filter; when the [n] first pages are
    answered without an HTTP error, all full but the last, it returns the
    concatenation of these pages after exactly [n] requests, none for a
    page beyond the short one.  [fuel] bounds the pages after the first. *)
Theorem fetch_assets_pages (g : Globals) (n fuel : nat)
    (is_not_in_album find_archived : bool) (w : World) :
  let search_options :=
    mkSearchOptions (Some is_not_in_album) (Some find_archived) None in
  let reqs :=
    map (fun i => search_request g search_options (Z.of_nat i)) (seq 1 n) in
  let rs := replies (server w) (trace w) reqs in
  (n <= S fuel)%nat ->
  Forall page_ok rs ->
  pages_end (search_page_size g) rs ->
  fetch_assets g fuel is_not_in_album find_archived w
  = (Ret (flat_map items_of rs), after w reqs [])
  /\ Forall (fun q => exists page,
                 req_body q = BodySearch search_options (search_page_size g) page
                 /\ search_page_size g <= 1000) reqs.
Proof.
  intros search_options reqs rs Hn Hok Hend. split.
  - unfold fetch_assets. now apply fetch_assets_with_options_eq with (n := n).
  - apply Forall_forall. intros q Hq. subst reqs.
    apply in_map_iff in Hq. destruct Hq as (i & <- & _).
    eexists. split; [reflexivity|]. unfold search_page_size. lia.
Qed.

Lemma fetch_assets_pages_witness :
  fst (run (fetch_assets (globals_at version_1_120 2) 5 true false)
           trash_server)
  = Ret [photo_b; photo_a; photo_d].
Proof.
  destruct (fetch_assets_pages (globals_at version_1_120 2) 2 5 true false
              (world_with trash_server [] [])) as [H _].
  - lia.
  - vm_compute. repeat constructor; eexists; reflexivity.
  - vm_compute. repeat split; discriminate.
  - unfold run. rewrite H. reflexivity.
Defined.

Lemma fetch_more_pages_full (g : Globals) (search_options : SearchOptions)
    (w0 : World) :
  (forall history page,
      let r := server w0 history (search_request g search_options page) in
      page_ok r
      /\ Z.of_nat (List.length (items_of r)) = search_page_size g) ->
  forall (fuel : nat) (page : Z) (received found : list Asset) (w : World),
    server w = server w0 ->
    1 <= page ->
    Z.of_nat (List.length received) = search_page_size g ->
    fst (fetch_more_pages g search_options (search_page_size g) fuel page
                          received found w)
    = Exc FuelExhausted.
Proof.
  intros Hfull. induction fuel as [|fuel IH];
    intros page received found w Hsrv Hp Hlen;
    cbn [fetch_more_pages]; rewrite Hlen, Z.eqb_refl; [reflexivity|].
  assert (Ereq : mkRequest POST (root_url g ++ "search/metadata")
                   (BodySearch search_options (search_page_size g)
                               (PageInt (page + 1)))
                 = search_request g search_options (page + 1)).
  { unfold search_request. destruct (Z.eqb_spec (page + 1) 1); [lia|].
    reflexivity. }
  rewrite Ereq.
  erewrite bind_Ret by apply http_after.
  rewrite Hsrv.
  destruct (Hfull (trace w) (page + 1)) as [[Hs Hi] Hl].
  erewrite bind_Ret by (apply check_api_response_ok; exact Hs).
  erewrite bind_Ret by (apply search_items_ok; exact Hi).
  apply IH; [exact Hsrv|lia|exact Hl].
Qed.

(** X11: against a server that answers every search with a full page,
    the loop of [fetch_assets_with_options] has no end: whatever the bound
    on the number of pages, the bound is reached.  A fetch chunk size of 0
    with empty answers is such a case. *)
Theorem fetch_assets_with_options_full_pages (g : Globals)
    (search_options : SearchOptions) (w : World) :
  (forall history page,
      let r := server w history (search_request g search_options page) in
      page_ok r
      /\ Z.of_nat (List.length (items_of r)) = search_page_size g) ->
  forall fuel,
    fst (fetch_assets_with_options g fuel search_options w)
    = Exc FuelExhausted.
Proof.
  intros Hfull fuel. unfold fetch_assets_with_options.
  fold (search_page_size g).
  change (mkRequest POST (root_url g ++ "search/metadata")
            (BodySearch search_options (search_page_size g) (PageStr "1")))
    with (search_request g search_options 1).
  erewrite bind_Ret by apply http_after.
  destruct (Hfull (trace w) 1) as [[Hs Hi] Hl].
  erewrite bind_Ret by (apply raise_for_status_ok; exact Hs).
  erewrite bind_Ret by (apply search_items_ok; exact Hi).
  apply (fetch_more_pages_full g search_options w Hfull);
    [reflexivity|lia|exact Hl].
Qed.

Lemma fetch_assets_with_options_full_pages_witness :
  fst (run (fetch_assets_with_options (globals_at version_1_120 0) 1000
              trashed_options) empty_search_server)
  = Exc FuelExhausted.
Proof.
  apply (fetch_assets_with_options_full_pages (globals_at version_1_120 0)
           trashed_options (world_with empty_search_server [] [])).
  intros history page. split; [split; [reflexivity|eexists; reflexivity]|].
  reflexivity.
Defined.

(** ** Deleting empty albums *)

Lemma fetch_albums_eq (g : Globals) (albums : list AlbumEntry) (w : World) :
  let r := server w (trace w) (albums_request g) in
  succeeded r ->
  payload r = PAlbums albums ->
  fetch_albums g w = (Ret albums, after w [albums_request g] []).
Proof.
  intros r Hs Hp. unfold fetch_albums.
  erewrite bind_Ret by apply http_after.
  fold (albums_request g). fold r.
  erewrite bind_Ret by (apply check_api_response_ok; exact Hs).
  now rewrite Hp.
Qed.

Lemma delete_loop_eq (g : Globals) (albums : list AlbumEntry) :
  forall (e c : Z) (w : World),
    let empties := filter is_empty_album albums in
    Forall succeeded
           (replies (server w) (trace w) (map (delete_request g) empties)) ->
    for_fold albums (e, c)
      (fun counts album =>
         let '(empty_album_count, cleaned_album_count) := counts in
         if entry_assetCount album =? 0 then
           let empty_album_count := empty_album_count + 1 in
           logging INFO "Deleting empty album %s" [entry_albumName album] ;;;
           deleted <- delete_album g album ;;
           if deleted : bool then ret (empty_album_count, cleaned_album_count + 1)
           else ret (empty_album_count, cleaned_album_count)
         else ret counts) w
    = (Ret (e + Z.of_nat (List.length empties),
            c + Z.of_nat (List.length empties)),
       after w (map (delete_request g) empties) (map deleting_log empties)).
Proof.
  induction albums as [|a albums IH]; intros e c w empties Hok.
  - cbn. now rewrite !Z.add_0_r, after_nil.
  - subst empties. cbn [for_fold filter] in *. unfold is_empty_album in *. cbv beta in *.
    destruct (entry_assetCount a =? 0) eqn:E.
    + cbn [map replies List.length] in *.
      inversion Hok as [|r0 rs0 Hr Hrest]; subst.
      erewrite bind_Ret.
      2: { erewrite bind_Ret by apply logging_after.
           erewrite bind_Ret.
           2: { apply delete_album_success. cbn [trace after server].
                rewrite app_nil_r. exact Hr. }
           reflexivity. }
      rewrite after_after. cbn [app].
      rewrite IH by exact Hrest.
      rewrite after_after. cbn [app].
      f_equal. f_equal. f_equal; lia.
    + rewrite (bind_Ret _ _ w w (e, c)) by reflexivity.
      now apply IH.
Qed.

(** X12: when the listing and every DELETE succeed, the clean-up of the
    synchronisation mode lists the albums once, deletes exactly the albums
    whose [assetCount] is 0, in the order of the listing, and counts as
    many deleted as empty albums: an album with assets is never
    deleted. *)
Theorem delete_empty_albums_deletes_the_empty (g : Globals)
    (albums : list AlbumEntry) (w : World) :
  let empties := filter is_empty_album albums in
  let reqs := map (delete_request g) empties in
  let n := Z.of_nat (List.length empties) in
  let r := server w (trace w) (albums_request g) in
  succeeded r ->
  payload r = PAlbums albums ->
  Forall succeeded
         (replies (server w) (trace w ++ [albums_request g]) reqs) ->
  delete_empty_albums g w
  = (Ret (n, n),
     after w (albums_request g :: reqs)
       (mkLog INFO "Deleting all empty albums" []
        :: map deleting_log empties
        ++ [if 0 <? n
            then mkLog INFO "Successfully deleted %d/%d empty albums!" []
            else mkLog INFO "No empty albums found!" []])).
Proof.
  intros empties reqs n r Hs Hp Hok. unfold delete_empty_albums.
  erewrite bind_Ret by apply logging_after.
  erewrite bind_Ret
    by (apply fetch_albums_eq; cbn [trace after server]; rewrite app_nil_r;
        [exact Hs|exact Hp]).
  rewrite after_after. cbn [app].
  erewrite bind_Ret by (apply delete_loop_eq; exact Hok).
  rewrite after_after. cbn [app fst]. rewrite !Z.add_0_l.
  fold empties. fold n.
  destruct (0 <? n);
    (erewrite bind_Ret by apply logging_after;
     rewrite after_after, app_nil_r; cbn [app]; unfold ret).
  all: reflexivity.
Qed.

Lemma delete_empty_albums_deletes_the_empty_witness :
  fst (run (delete_empty_albums (globals_at version_1_120 5000))
           (listing_server 204)) = Ret (2, 2)
  /\ endpoints (snd (run (delete_empty_albums (globals_at version_1_120 5000))
                         (listing_server 204)))
     = [(GET, "http://immich/api/albums");
        (DELETE, "http://immich/api/albums/id-old");
        (DELETE, "http://immich/api/albums/id-new")].
Proof.
  unfold run.
  rewrite (delete_empty_albums_deletes_the_empty
             (globals_at version_1_120 5000) three_albums
             (world_with (listing_server 204) [] [])).
  - split; reflexivity.
  - reflexivity.
  - reflexivity.
  - repeat constructor.
Defined.

Lemma delete_loop_fails (g : Globals) (before : list AlbumEntry)
    (a : AlbumEntry) (rest : list AlbumEntry) :
  forall (e c : Z) (w : World),
    let empties := filter is_empty_album before in
    let reqs := map (delete_request g) empties in
    let r := server w (trace w ++ reqs)%list (delete_request g a) in
    Forall succeeded (replies (server w) (trace w) reqs) ->
    is_empty_album a = true ->
    is_error_status (status_code r) = true ->
    for_fold (before ++ a :: rest) (e, c)
      (fun counts album =>
         let '(empty_album_count, cleaned_album_count) := counts in
         if entry_assetCount album =? 0 then
           let empty_album_count := empty_album_count + 1 in
           logging INFO "Deleting empty album %s" [entry_albumName album] ;;;
           deleted <- delete_album g album ;;
           if deleted : bool then ret (empty_album_count, cleaned_album_count + 1)
           else ret (empty_album_count, cleaned_album_count)
         else ret counts) w
    = (Exc (RequestsHTTPError (status_code r)),
       after w (reqs ++ [delete_request g a])
             (map deleting_log (empties ++ [a]))).
Proof.
  induction before as [|b before IH]; intros e c w empties reqs r Hok Ha Herr.
  - subst empties reqs r. cbn [app filter map for_fold] in *.
    unfold is_empty_album in Ha. rewrite Ha.
    rewrite app_nil_r in Herr.
    erewrite bind_Exc.
    2: { erewrite bind_Ret by apply logging_after.
         erewrite bind_Exc.
         2: { apply delete_album_error. cbn [trace after server].
                rewrite app_nil_r. exact Herr. }
         reflexivity. }
    rewrite after_after. cbn [app trace after]. rewrite app_nil_r. reflexivity.
  - subst empties reqs r. cbn [app for_fold filter] in *.
    unfold is_empty_album in *. cbv beta in *.
    destruct (entry_assetCount b =? 0) eqn:E.
    + cbn [map replies app] in *.
      inversion Hok as [|r0 rs0 Hr Hrest]; subst.
      erewrite bind_Ret.
      2: { erewrite bind_Ret by apply logging_after.
           erewrite bind_Ret.
           2: { apply delete_album_success. cbn [trace after server].
                rewrite app_nil_r. exact Hr. }
           reflexivity. }
      rewrite after_after. cbn [app].
      rewrite IH.
      * rewrite after_after. cbn [app trace after].
        rewrite <- app_assoc. reflexivity.
      * exact Hrest.
      * exact Ha.
      * cbn [trace after server]. rewrite <- app_assoc. exact Herr.
    + rewrite (bind_Ret _ _ w w (e, c)) by reflexivity.
      now apply IH.
Qed.

(** X13: a DELETE answered with an HTTP error ends the clean-up: the
    [requests] exception leaves the loop, the albums after the failed one
    are not deleted, and neither the failure nor a summary is logged. *)
Theorem delete_empty_albums_stops_at_failure (g : Globals)
    (before : list AlbumEntry) (a : AlbumEntry) (rest : list AlbumEntry)
    (w : World) :
  let empties := filter is_empty_album before in
  let reqs := (albums_request g :: map (delete_request g) empties)%list in
  let r := server w (trace w) (albums_request g) in
  let r' := server w (trace w ++ reqs)%list (delete_request g a) in
  succeeded r ->
  payload r = PAlbums (before ++ a :: rest) ->
  Forall succeeded
         (replies (server w) (trace w ++ [albums_request g])
                  (map (delete_request g) empties)) ->
  is_empty_album a = true ->
  is_error_status (status_code r') = true ->
  delete_empty_albums g w
  = (Exc (RequestsHTTPError (status_code r')),
     after w (reqs ++ [delete_request g a])
       (mkLog INFO "Deleting all empty albums" []
        :: map deleting_log (empties ++ [a]))).
Proof.
  intros empties reqs r r' Hs Hp Hok Ha Herr. unfold delete_empty_albums.
  erewrite bind_Ret by apply logging_after.
  erewrite bind_Ret
    by (apply fetch_albums_eq; cbn [trace after server]; rewrite app_nil_r;
        [exact Hs|exact Hp]).
  rewrite after_after. cbn [app].
  erewrite bind_Exc.
  2: { apply delete_loop_fails.
       - exact Hok.
       - exact Ha.
       - cbn [trace after server]. subst r' reqs.
         change (albums_request g :: map (delete_request g) empties)%list
           with ([albums_request g] ++ map (delete_request g) empties)%list
           in Herr.
         rewrite app_assoc in Herr. exact Herr. }
  rewrite after_after. cbn [trace after server]. subst r' reqs.
  rewrite <- app_assoc. reflexivity.
Qed.

Lemma delete_empty_albums_stops_at_failure_witness :
  fst (run (delete_empty_albums (globals_at version_1_120 5000))
           (listing_server 500)) = Exc (RequestsHTTPError 500)
  /\ endpoints (snd (run (delete_empty_albums (globals_at version_1_120 5000))
                         (listing_server 500)))
     = [(GET, "http://immich/api/albums");
        (DELETE, "http://immich/api/albums/id-old")]
  /\ List.length
       (logged (snd (run (delete_empty_albums (globals_at version_1_120 5000))
                         (listing_server 500)))) = 2%nat.
Proof.
  unfold run.
  rewrite (delete_empty_albums_stops_at_failure
             (globals_at version_1_120 5000) []
             (mkAlbumEntry "id-old" "Old" 0)
             [mkAlbumEntry "id-alps" "Alps" 2; mkAlbumEntry "id-new" "New" 0]
             (world_with (listing_server 500) [] [])).
  - repeat split; reflexivity.
  - reflexivity.
  - reflexivity.
  - constructor.
  - reflexivity.
  - reflexivity.
Defined.

(** ** Album properties *)

Lemma choose_thumbnail_server (s : string) (r : nat) (w : World) :
  server (snd (choose_thumbnail s r w)) = server w.
Proof.
  unfold choose_thumbnail.
  destruct (str_in s ALBUM_THUMBNAIL_SETTINGS_GLOBAL); cbn [negb].
  - unfold bind at 1. unfold list_read at 1. cbv beta iota.
    destruct (0 <? Z.of_nat (List.length (store w r))); [|reflexivity].
    unfold bind at 1.
    unfold list_sort_by_fileCreatedAt, bind, list_read, list_write.
    cbv beta iota.
    set (w1 := set_store w _ _).
    change (server w) with (server w1).
    destruct (negb (dict_mem s ALBUM_THUMBNAIL_STATIC_INDICES)).
    + unfold random_randint.
      destruct (_ <? 0); [reflexivity|].
      destruct (draws w1); cbv beta iota;
        match goal with
        | |- context [py_index ?l ?i ?w0] =>
            change (server w1) with (server w0);
            unfold py_index; cbv zeta;
            destruct (_ || _); [reflexivity|];
            destruct (nth_error _ _); reflexivity
        end.
    + destruct (dict_get s ALBUM_THUMBNAIL_STATIC_INDICES); [|reflexivity].
      unfold ret at 1. cbv beta iota.
      unfold py_index; cbv zeta.
      destruct (_ || _); [reflexivity|].
      destruct (nth_error _ _); reflexivity.
  - reflexivity.
Qed.

Lemma last_in {A} (l : list A) (d : A) : l <> [] -> In (last l d) l.
Proof.
  induction l as [|x l IH]; [congruence|intros _].
  destruct l as [|y l']; [now left|].
  right. apply IH. discriminate.
Qed.

Lemma choose_thumbnail_total (s : string) (r : nat) (w : World) :
  exists o w',
    choose_thumbnail s r w = (Ret o, w')
    /\ server w' = server w /\ trace w' = trace w /\ logged w' = logged w
    /\ (forall a, o = Some a -> In a (store w r)).
Proof.
  pose proof (choose_thumbnail_server s r w) as Hsrv.
  destruct (str_in s ALBUM_THUMBNAIL_SETTINGS_GLOBAL) eqn:Hs.
  - destruct (store w r) as [|x l] eqn:El.
    + rewrite (choose_thumbnail_empty s r w Hs El) in *.
      exists None, w. repeat split; auto. discriminate.
    + assert (Hne : store w r <> []) by (rewrite El; discriminate).
      destruct (choose_thumbnail_keyword s r w Hs Hne)
        as (w' & _ & _ & Ht & Hl & E).
      rewrite E in Hsrv. cbn [snd] in Hsrv. rewrite <- El.
      eexists _, w'. split; [exact E|]. repeat split; auto.
      intros a Ha.
      apply (Permutation_in a
               (Permutation_sym (sort_by_fileCreatedAt_perm (store w r)))).
      set (sorted := sort_by_fileCreatedAt (store w r)) in *.
      destruct (s =? "first")%string.
      { destruct sorted; [discriminate|]. injection Ha as <-. now left. }
      destruct (s =? "last")%string.
      { injection Ha as <-. destruct sorted as [|y t] eqn:Es.
        - exfalso.
          pose proof (Permutation_length
                        (sort_by_fileCreatedAt_perm (store w r))) as P.
          fold sorted in P. rewrite Es, El in P. discriminate.
        - apply last_in. discriminate. }
      eapply nth_error_In; exact Ha.
  - rewrite (choose_thumbnail_path s r w Hs) in *.
    eexists _, w. split; [reflexivity|]. repeat split; auto.
    intros a Ha. now apply find_some in Ha.
Qed.

Lemma bind_cases {A B} (m : M A) (k : A -> M B) (w : World) :
  (exists a w1, m w = (Ret a, w1) /\ bind m k w = k a w1)
  \/ (exists e w1, m w = (Exc e, w1) /\ bind m k w = (Exc e, w1)).
Proof.
  unfold bind. destruct (m w) as [[a|e] w1]; [left|right]; eauto.
Qed.

Lemma fetch_album_info_cases (g : Globals) (album_id : string) (w : World) :
  exists out,
    fetch_album_info g album_id w
    = (out, after w [album_info_request g album_id] [])
    /\ forall info,
        out = Ret info ->
        payload (server w (trace w) (album_info_request g album_id))
        = PAlbumInfo info.
Proof.
  unfold fetch_album_info.
  erewrite bind_Ret by apply http_after.
  fold (album_info_request g album_id).
  set (r := server w (trace w) (album_info_request g album_id)).
  unfold bind. rewrite check_api_response_checked. unfold checked.
  destruct (is_error_status (status_code r)).
  - eexists. split; [reflexivity|]. discriminate.
  - destruct (payload r) eqn:Hp;
      (eexists; split; [reflexivity|]; intros info E;
       try discriminate; now injection E as ->).
Qed.

(** X14: whatever the server answers, [update_album_properties] reads the
    album at most once and then sends at most one PATCH, and never an empty
    one.  A thumbnail in the PATCH is the id of an asset that the server
    has just reported for the album; a description or an order in it is
    the one of the module-level [album]; the comments-and-likes flag is
    the one of the model. *)
Theorem update_album_properties_requests (g : Globals)
    (album_to_update : AlbumModel.t) (w : World) :
  let album_id := fmt (AlbumModel.id album_to_update) in
  let info_request := album_info_request g album_id in
  let w' := snd (update_album_properties g album_to_update w) in
  exists reqs,
    trace w' = (trace w ++ reqs)%list
    /\ (reqs = [] \/ reqs = [info_request]
        \/ exists data,
            (reqs = [patch_request g album_id data]
             \/ reqs = [info_request; patch_request g album_id data])
            /\ (0 < data_len data)%nat
            /\ (forall t, pd_albumThumbnailAssetId data = Some t ->
                reqs = [info_request; patch_request g album_id data]
                /\ exists info,
                    payload (server w (trace w) info_request) = PAlbumInfo info
                    /\ In t (map asset_id (info_assets info)))
            /\ (forall d, pd_description data = Some d ->
                d = AlbumModel.description (album g))
            /\ (forall o, pd_order data = Some o ->
                o = AlbumModel.sort_order (album g))
            /\ pd_isActivityEnabled data
               = AlbumModel.comments_and_likes_enabled album_to_update).
Proof.
  intros album_id info_request w'. subst w'.
  unfold update_album_properties.
  match goal with
  | |- context [snd (bind ?m ?k w)] => set (stage := m); set (tail := k)
  end.
  assert (Hstage :
    forall out w1, stage w = (out, w1) ->
      exists reqs1,
        trace w1 = (trace w ++ reqs1)%list /\ server w1 = server w
        /\ (reqs1 = [] \/ reqs1 = [info_request])
        /\ forall data, out = Ret data ->
             pd_description data = None /\ pd_order data = None
             /\ pd_isActivityEnabled data = None
             /\ forall t, pd_albumThumbnailAssetId data = Some t ->
                 reqs1 = [info_request]
                 /\ exists info,
                     payload (server w (trace w) info_request) = PAlbumInfo info
                     /\ In t (map asset_id (info_assets info))).
  { intros out w1. unfold stage.
    destruct (opt_truthy _ && negb _).
    - fold album_id.
      destruct (fetch_album_info_cases g album_id w) as (o & E & Hinfo).
      fold info_request in E, Hinfo.
      destruct o as [info|e].
      + erewrite bind_Ret by exact E.
        unfold bind at 1. unfold list_new at 1. cbv beta iota zeta.
        set (w2 := set_store _ _ _).
        set (ref := store_next _).
        destruct (choose_thumbnail_total
                    (fmt (AlbumModel.thumbnail_setting album_to_update))
                    ref w2) as (o & w3 & Ec & Hs & Ht & _ & Hin).
        erewrite bind_Ret by exact Ec.
        assert (Hstore : store w2 ref = info_assets info).
        { unfold w2. cbn [store set_store]. now rewrite Nat.eqb_refl. }
        rewrite Hstore in Hin.
        destruct o as [a|].
        * erewrite bind_Ret by apply logging_after.
          unfold ret. intros [= <- <-].
          exists [info_request]. cbn [trace after server].
          rewrite app_nil_r, Ht, Hs.
          split; [reflexivity|]. split; [reflexivity|]. split; [now right|].
          intros data [= <-]. cbn.
          split; [reflexivity|]. split; [reflexivity|]. split; [reflexivity|].
          intros t [= <-].
          split; [reflexivity|]. exists info. split; [now apply Hinfo|].
          apply in_map. now apply Hin.
        * erewrite bind_Ret by apply logging_after.
          unfold ret. intros [= <- <-].
          exists [info_request]. cbn [trace after server].
          rewrite app_nil_r, Ht, Hs.
          split; [reflexivity|]. split; [reflexivity|]. split; [now right|].
          intros data [= <-]. cbn.
          split; [reflexivity|]. split; [reflexivity|]. split; [reflexivity|].
          discriminate.
      + erewrite bind_Exc by exact E. intros [= <- <-].
        exists [info_request].
        split; [reflexivity|]. split; [reflexivity|]. split; [now right|].
        discriminate.
    - unfold ret. intros [= <- <-].
      exists []. rewrite app_nil_r.
      split; [reflexivity|]. split; [reflexivity|]. split; [now left|].
      intros data [= <-]. cbn.
      split; [reflexivity|]. split; [reflexivity|]. split; [reflexivity|].
      discriminate. }
  unfold bind. destruct (stage w) as [[data|e] w1] eqn:Hm;
    destruct (Hstage _ _ eq_refl) as (reqs1 & Ht & Hs & Hreqs & Hdata);
    clear Hstage.
  2: { exists reqs1. split; [exact Ht|].
       destruct Hreqs as [-> | ->]; auto. }
  destruct (Hdata data eq_refl) as (Hd & Ho & Ha & Hthumb). clear Hdata.
  destruct data as [th de or ac]. cbn in Hd, Ho, Ha, Hthumb. subst de or ac.
  unfold tail. clear tail Hm stage.
  fold album_id.
  destruct (opt_truthy (AlbumModel.description album_to_update));
    destruct (opt_truthy (AlbumModel.sort_order album_to_update));
    destruct (AlbumModel.comments_and_likes_enabled album_to_update) as [b|];
    cbn [pd_albumThumbnailAssetId pd_description pd_order
         pd_isActivityEnabled];
    destruct th as [t|];
    cbn [data_len key_count pd_albumThumbnailAssetId pd_description pd_order
         pd_isActivityEnabled Nat.add Nat.ltb Nat.leb];
    try (exists reqs1; cbn [snd ret]; split; [exact Ht|];
         destruct Hreqs as [-> | ->]; now auto).
  all: erewrite bind_Ret by apply http_after;
    rewrite check_api_response_checked; cbn [snd trace after];
    rewrite Ht, <- app_assoc;
    match goal with
    | |- context [BodyPatch ?d] =>
        fold (patch_request g album_id d);
        exists (reqs1 ++ [patch_request g album_id d])%list;
        split; [reflexivity|]; right; right; exists d
    end.
  all: split; [destruct Hreqs as [-> | ->]; now auto|].
  all: split; [cbn; lia|].
  all: cbn [pd_albumThumbnailAssetId pd_description pd_order
            pd_isActivityEnabled].
  all: split; [|split; [|split]]; try reflexivity;
    try (intros ? [= <-]; reflexivity); try discriminate.
  all: intros t' E; destruct (Hthumb t' E) as (-> & Hinfo); auto.
Qed.

(** ** The mapping of media ids *)

Lemma find_snoc {X} (p : X -> bool) (l : list X) (x : X) :
  find p (l ++ [x])
  = match find p l with
    | Some y => Some y
    | None => if p x then Some x else None
    end.
Proof.
  induction l as [|y l IH]; cbn; [reflexivity|].
  destruct (p y); [reflexivity|exact IH].
Qed.

Lemma find_ext_eq {X} (p q : X -> bool) (l : list X) :
  (forall x, p x = q x) -> find p l = find q l.
Proof.
  intros E. induction l as [|x l IH]; cbn; [reflexivity|].
  now rewrite E, IH.
Qed.

(** A loop of conditional assignments to a dict: the last assignment to a
    key wins. *)
Lemma dict_get_fold {X V} (f : X -> option (string * V))
    (step : Dict V -> X -> Dict V) (k : string) :
  (forall d x,
      step d x = match f x with
                 | Some (k', v) => dict_set k' v d
                 | None => d
                 end) ->
  forall (l : list X) (d0 : Dict V),
    dict_get k (fold_left step l d0)
    = match find (fun x => match f x with
                           | Some (k', _) => (k' =? k)%string
                           | None => false
                           end) (rev l) with
      | Some x => option_map snd (f x)
      | None => dict_get k d0
      end.
Proof.
  intros Hstep. induction l as [|x l IH] using rev_ind; intros d0.
  - reflexivity.
  - rewrite fold_left_app, rev_app_distr. cbn [fold_left rev app find].
    rewrite Hstep. destruct (f x) as [[k' v]|] eqn:Ef.
    + rewrite dict_get_set. destruct (k' =? k)%string.
      * now rewrite Ef.
      * apply IH.
    + apply IH.
Qed.

(** X15: [build_id_mapping] maps a media id to the asset at the path of
    the last row of the index that has this id and a path at which an
    asset lies; the asset is under the Immich root, and its path there is
    the row's path under the local root.  An id without such a row is not
    mapped. *)
Theorem build_id_mapping_lookup (normpath : string -> string)
    (asset_list : list Asset) (local_root_path immich_root_path : string)
    (media : list (string * string)) (gpid : string) :
  let at_path := asset_at_local_path asset_list local_root_path
                                     immich_root_path in
  dict_get gpid (build_id_mapping normpath asset_list local_root_path
                                  immich_root_path media)
  = match find (fun row => (fst row =? gpid)%string
                           && is_some (at_path (normpath (snd row))))
               (rev media) with
    | Some row => at_path (normpath (snd row))
    | None => None
    end
  /\ forall a,
      dict_get gpid (build_id_mapping normpath asset_list local_root_path
                                      immich_root_path media) = Some a ->
      In a asset_list
      /\ startswith (originalPath a) immich_root_path = true
      /\ exists path,
          In (gpid, path) media
          /\ normpath path = local_path local_root_path immich_root_path a.
Proof.
  intros at_path.
  assert (Hlocal : forall path d0,
    dict_get path
      (fold_left
         (fun d asset =>
            if startswith (originalPath asset) immich_root_path
            then dict_set
                   (local_root_path
                      ++ drop (String.length immich_root_path)
                              (originalPath asset))
                   asset d
            else d)
         asset_list d0)
    = match at_path path with
      | Some a => Some a
      | None => dict_get path d0
      end).
  { intros path d0.
    rewrite (dict_get_fold
               (fun a => if startswith (originalPath a) immich_root_path
                         then Some (local_path local_root_path
                                               immich_root_path a, a)
                         else None) _ path).
    2: { intros d x. unfold local_path.
         now destruct (startswith (originalPath x) immich_root_path). }
    unfold at_path, asset_at_local_path.
    match goal with
    | |- match find ?p ?l with _ => _ end = match find ?q ?l with _ => _ end =>
        assert (E : forall x, p x = q x)
    end.
    { intros x. now destruct (startswith (originalPath x) immich_root_path). }
    rewrite (find_ext_eq _ _ _ E).
    destruct (find _ (rev asset_list)) as [a|] eqn:Ef; [|reflexivity].
    apply find_some in Ef. destruct Ef as [_ Ef].
    apply andb_true_iff in Ef. destruct Ef as [Ef _]. now rewrite Ef. }
  assert (Hget :
    dict_get gpid (build_id_mapping normpath asset_list local_root_path
                                    immich_root_path media)
    = match find (fun row => (fst row =? gpid)%string
                             && is_some (at_path (normpath (snd row))))
                 (rev media) with
      | Some row => at_path (normpath (snd row))
      | None => None
      end).
  { unfold build_id_mapping.
    rewrite (dict_get_fold
               (fun row => match at_path (normpath (snd row)) with
                           | Some a => Some (fst row, a)
                           | None => None
                           end) _ gpid).
    2: { intros d row. cbv zeta. rewrite Hlocal. cbn [dict_get].
         now destruct (at_path (normpath (snd row))). }
    match goal with
    | |- match find ?p ?l with _ => _ end = match find ?q ?l with _ => _ end =>
        assert (E : forall x, p x = q x)
    end.
    { intros row. destruct (at_path (normpath (snd row))); cbn [is_some].
      - now rewrite andb_true_r.
      - now rewrite andb_false_r. }
    rewrite (find_ext_eq _ _ _ E).
    destruct (find _ (rev media)) as [row|] eqn:Ef; [|reflexivity].
    now destruct (at_path (normpath (snd row))). }
  split; [exact Hget|].
  intros a Ha. rewrite Hget in Ha.
  destruct (find _ (rev media)) as [row|] eqn:Ef; [|discriminate].
  apply find_some in Ef. destruct Ef as [Hrow Ef].
  apply andb_true_iff in Ef. destruct Ef as [Ek _].
  apply String.eqb_eq in Ek.
  unfold at_path, asset_at_local_path in Ha.
  apply find_some in Ha. destruct Ha as [Hin Hp].
  apply andb_true_iff in Hp. destruct Hp as [Hs Hp].
  apply String.eqb_eq in Hp.
  split; [now apply in_rev|]. split; [exact Hs|].
  exists (snd row). split; [|now symmetry].
  apply in_rev in Hrow. destruct row as [u p]. cbn in *. now subst.
Qed.

Lemma build_id_mapping_lookup_witness :
  In photo_a [photo_b; photo_a]
  /\ startswith (originalPath photo_a) "/lib/" = true
  /\ exists path,
      In ("media-a", path) [("media-a", "/mnt/photos/a.jpg")]
      /\ path = local_path "/mnt/photos/" "/lib/" photo_a.
Proof.
  destruct (build_id_mapping_lookup (fun p => p) [photo_b; photo_a]
              "/mnt/photos/" "/lib/" [("media-a", "/mnt/photos/a.jpg")]
              "media-a") as (_ & H).
  apply (H photo_a). reflexivity.
Defined.

(** ** Sharing that is in place *)

Lemma filter_none {X} (p : X -> bool) (l : list X) :
  (forall x, In x l -> p x = false) -> filter p l = [].
Proof.
  induction l as [|x l IH]; cbn; [reflexivity|]. intros H.
  rewrite (H x) by now left. apply IH. intros y Hy. apply H. now right.
Qed.

Lemma fold_left_fixed {X S} (f : S -> X -> S) (l : list X) (s : S) :
  (forall x, In x l -> f s x = s) -> fold_left f l s = s.
Proof.
  induction l as [|x l IH]; cbn; [reflexivity|]. intros H.
  rewrite (H x) by now left. apply IH. intros y Hy. apply H. now right.
Qed.

Lemma sharing_requests_in_sync (g : Globals) (album_id : string)
    (desired actual : Dict string) (unshare_users : bool) :
  NoDup (map fst desired) ->
  (forall u, dict_get u actual = dict_get u desired) ->
  sharing_requests g album_id desired actual unshare_users = [].
Proof.
  intros Hnd Hsame. unfold sharing_requests.
  assert (H1 : role_changes desired actual = []).
  { unfold role_changes. apply filter_none. intros [u r] Hin. cbn [fst snd].
    rewrite Hsame, (dict_get_In u r desired Hnd Hin).
    now rewrite String.eqb_refl. }
  assert (H2 : users_to_unshare desired actual = []).
  { unfold users_to_unshare. rewrite filter_none; [reflexivity|].
    intros [u r] Hin. cbn [fst]. unfold dict_mem. rewrite <- Hsame.
    destruct (dict_get u actual) eqn:E; [reflexivity|].
    apply dict_get_None in E. exfalso. apply E.
    now apply (in_map fst) in Hin. }
  assert (H3 : users_to_add desired actual = []).
  { unfold users_to_add. apply fold_left_fixed. intros [u r] Hin.
    cbn [fst snd]. rewrite Hsame, (dict_get_In u r desired Hnd Hin).
    reflexivity. }
  rewrite H1, H2, H3. now destruct unshare_users.
Qed.

(** X16: when the server reports for the album exactly the desired
    shares, [update_album_shared_state] changes nothing: it reads the
    album at most once and issues no other request, so a second run of the
    script leaves the sharing as the first one set it. *)
Theorem update_album_shared_state_in_sync (g : Globals)
    (album_to_share : AlbumModel.t) (unshare_users : bool) (w : World)
    (info : AlbumInfo) :
  let album_id := fmt (AlbumModel.id album_to_share) in
  let r0 := server w (trace w) (album_info_request g album_id) in
  str_in (share_role g) SHARE_ROLES = true ->
  succeeded r0 ->
  payload r0 = PAlbumInfo info ->
  (forall u, dict_get u (actual_share_roles info)
             = dict_get u (desired_shares g)) ->
  exists reqs,
    update_album_shared_state g album_to_share unshare_users w
    = (Ret tt, after w reqs (unknown_user_warnings g))
    /\ (reqs = [] \/ reqs = [album_info_request g album_id]).
Proof.
  intros album_id r0 Hrole Hs Hp Hsame.
  pose proof (sharing_requests_in_sync g album_id (desired_shares g)
                (actual_share_roles info) unshare_users
                (desired_shares_NoDup g) Hsame) as Hnone.
  pose proof (update_album_shared_state_converges g album_to_share
                unshare_users w info Hrole Hs Hp) as Hc.
  cbv zeta in Hc. fold album_id in Hc. rewrite Hnone in Hc.
  specialize (Hc (Forall_nil _)). rewrite Hc.
  destruct (_ && _); eexists; split; try reflexivity; auto.
Qed.

Lemma update_album_shared_state_in_sync_witness :
  let w := world_with (sharing_server shared_as_desired 200) [] [] in
  exists reqs,
    update_album_shared_state shared_globals album_alps true w
    = (Ret tt, after w reqs (unknown_user_warnings shared_globals))
    /\ (reqs = []
        \/ reqs = [album_info_request shared_globals
                     (fmt (AlbumModel.id album_alps))]).
Proof.
  intros w.
  apply (update_album_shared_state_in_sync shared_globals album_alps true w
           (mkAlbumInfo shared_as_desired [])).
  - reflexivity.
  - reflexivity.
  - reflexivity.
  - intros u.
    change (actual_share_roles (mkAlbumInfo shared_as_desired []))
      with [("userB", "editor"); ("userA", "viewer")].
    change (desired_shares shared_globals)
      with [("userA", "viewer"); ("userB", "editor")].
    cbn [dict_get].
    destruct (String.eqb_spec "userB" u) as [E|Hb]; [now subst u|].
    destruct (String.eqb_spec "userA" u) as [E|Ha]; [now subst u|].
    reflexivity.
Defined.

(** ** The loop on an existing album *)

Lemma add_chunk_trace (g : Globals) (album_id : string)
    (chunk acc : list string) (w w1 : World) (out : Outcome (list string)) :
  (let data := BodyIds chunk in
   r <- http (mkRequest PUT
                (root_url g ++ "albums" ++ "/" ++ album_id ++ "/assets")
                data) ;;
   check_api_response r ;;;
   match payload r with
   | PAddResults response => collect_added response acc
   | _ => raise PayloadError
   end) w = (out, w1) ->
  trace w1 = (trace w ++ [assets_request g album_id chunk])%list.
Proof.
  cbv zeta. fold (assets_request g album_id chunk).
  erewrite bind_Ret by apply http_after.
  unfold bind. rewrite check_api_response_checked. unfold checked.
  destruct (is_error_status _).
  - now intros [= <- <-].
  - destruct (payload _); try (now intros [= <- <-]).
    rewrite collect_added_eq. intros [= <- <-].
    cbn [trace after]. now rewrite app_nil_r.
Qed.

Lemma add_chunks_trace (g : Globals) (album_id : string)
    (chunks : list (list string)) :
  forall (acc : list string) (w : World),
  exists sent,
    trace (snd (for_fold chunks acc
      (fun asset_list_added assets_chunk =>
         let data := BodyIds assets_chunk in
         r <- http (mkRequest PUT
                      (root_url g ++ "albums" ++ "/" ++ album_id ++ "/assets")
                      data) ;;
         check_api_response r ;;;
         match payload r with
         | PAddResults response => collect_added response asset_list_added
         | _ => raise PayloadError
         end) w))
    = (trace w ++ map (assets_request g album_id) sent)%list.
Proof.
  induction chunks as [|chunk chunks IH]; intros acc w.
  - exists []. cbn. now rewrite app_nil_r.
  - cbn [for_fold].
    match goal with
    | |- context [snd (bind ?m ?k w)] =>
        destruct (bind_cases m k w) as [(a & w1 & Hm & ->)|(e & w1 & Hm & ->)]
    end; apply add_chunk_trace in Hm.
    + destruct (IH a w1) as (sent & E). exists (chunk :: sent).
      cbv beta zeta in E |- *. rewrite E, Hm, <- app_assoc. reflexivity.
    + exists [chunk]. cbn [snd]. exact Hm.
Qed.

Lemma divide_chunks_world {A} (l : list A) (c : Z) (w : World) :
  snd (divide_chunks l c w) = w.
Proof.
  unfold divide_chunks, bind, py_range_from_0.
  destruct (c =? 0); [reflexivity|]. now destruct (c <? 0).
Qed.

Lemma add_assets_to_album_trace (g : Globals) (album_id : string)
    (asset_list : list string) (w : World) :
  exists sent,
    trace (snd (add_assets_to_album g album_id asset_list w))
    = (trace w ++ map (assets_request g album_id) sent)%list.
Proof.
  unfold add_assets_to_album.
  pose proof (divide_chunks_world asset_list (number_of_images_per_request g) w)
    as Hw.
  unfold bind at 1.
  destruct (divide_chunks asset_list (number_of_images_per_request g) w)
    as [[chunks|e] w1]; cbn [snd] in Hw; subst w1.
  - apply add_chunks_trace.
  - exists []. cbn. now rewrite app_nil_r.
Qed.

(** X17: in mode 0 an album that exists on the server is only added to:
    every request that the loop issues for it is a PUT of asset ids to
    the existing album, none creates an album, changes its properties or
    its sharing; when the iteration ends, the table of ids and the created
    albums are as before, and the album is recorded with the existing
    id. *)
Theorem reconcile_album_only_adds_to_existing (g : Globals) (st : LoopState)
    (key : string) (album0 : AlbumModel.t) (existing_id : string) (w : World) :
  let final_name := AlbumModel.get_final_name album0 in
  let result := reconcile_album g st (key, album0) w in
  dict_get final_name (album_to_id st) = Some existing_id ->
  update_album_props_mode g = 0 ->
  str_in key (created_albums st) = false ->
  (exists sent,
      trace (snd result)
      = (trace w ++ map (assets_request g existing_id) sent)%list)
  /\ forall st',
      fst result = Ret st' ->
      album_to_id st' = album_to_id st
      /\ created_albums st' = created_albums st
      /\ albums_done st'
         = (albums_done st
            ++ [(key, AlbumModel.set_id album0 (Some existing_id))])%list.
Proof.
  intros final_name result Hid Hmode Hkey. subst result.
  unfold reconcile_album. fold final_name.
  unfold dict_mem. rewrite Hid. cbn [negb].
  rewrite (bind_Ret _ _ w w
             (AlbumModel.set_id album0 (Some existing_id), album_to_id st,
              created_albums st)) by reflexivity.
  cbv beta iota zeta.
  erewrite bind_Ret by apply logging_after.
  set (w1 := after w [] _).
  set (g1 := set_album g _).
  change (update_album_props_mode g1) with (update_album_props_mode g).
  rewrite Hmode, Hkey. cbn [Z.ltb Z.eqb Z.compare orb].
  destruct (add_assets_to_album_trace g1 existing_id
              (AlbumModel.get_asset_uuids
                 (AlbumModel.set_id album0 (Some existing_id))) w1)
    as (sent & Hsent).
  change (assets_request g1 existing_id) with (assets_request g existing_id)
    in Hsent.
  change (trace w1) with (trace w ++ [])%list in Hsent.
  rewrite app_nil_r in Hsent.
  cbn [AlbumModel.id AlbumModel.set_id fmt].
  match goal with
  | |- context [snd (bind ?m ?k w1)] =>
      destruct (bind_cases m k w1) as [(a & w2 & Hm & ->)|(e & w2 & Hm & ->)]
  end; rewrite Hm in Hsent; cbn [snd] in Hsent.
  2: { split; [exists sent; exact Hsent|]. discriminate. }
  destruct (0 <? List.length a)%nat;
    unfold bind, logging, ret; cbn [fst snd trace];
    (split; [exists sent; exact Hsent|]);
    intros st' [= <-]; cbn; auto.
Qed.

Lemma reconcile_album_only_adds_to_existing_witness :
  let st := mkLoopState [("Alps", "id-alps")] [] [] [] in
  let result :=
    reconcile_album (example_globals 0 album_beach) st ("Alps", album_alps)
                    (world_with album_server [] []) in
  (exists sent,
      trace (snd result)
      = map (assets_request (example_globals 0 album_beach) "id-alps") sent)
  /\ forall st',
      fst result = Ret st' ->
      album_to_id st' = [("Alps", "id-alps")]
      /\ created_albums st' = []
      /\ albums_done st'
         = [("Alps", AlbumModel.set_id album_alps (Some "id-alps"))].
Proof.
  intros st result.
  apply (reconcile_album_only_adds_to_existing
           (example_globals 0 album_beach) st "Alps" album_alps "id-alps"
           (world_with album_server [] [])); reflexivity.
Defined.

(** ** The albums of the archive *)

Lemma str_in_In (s : string) (l : list string) :
  str_in s l = true <-> In s l.
Proof.
  unfold str_in. rewrite existsb_exists. split.
  - intros (x & Hx & E). apply String.eqb_eq in E. now subst.
  - intros H. exists s. split; [exact H|apply String.eqb_refl].
Qed.

Lemma str_in_ext (l1 l2 : list string) :
  (forall s, In s l1 <-> In s l2) -> forall s, str_in s l1 = str_in s l2.
Proof.
  intros H s. destruct (str_in s l1) eqn:E1, (str_in s l2) eqn:E2; auto.
  - apply str_in_In, H, str_in_In in E1. congruence.
  - apply str_in_In, H, str_in_In in E2. congruence.
Qed.

Lemma str_in_cons (s x : string) (l : list string) :
  str_in s (x :: l) = (s =? x)%string || str_in s l.
Proof. reflexivity. Qed.

Lemma str_in_app (s : string) (l1 l2 : list string) :
  str_in s (l1 ++ l2) = str_in s l1 || str_in s l2.
Proof. unfold str_in. apply existsb_app. Qed.

Lemma distinct_by_ext {X} (key : X -> string) (l : list X) :
  forall s1 s2,
    (forall k, str_in k s1 = str_in k s2) ->
    distinct_by key s1 l = distinct_by key s2 l.
Proof.
  induction l as [|x l IH]; intros s1 s2 H; cbn; [reflexivity|].
  rewrite <- H. destruct (str_in (key x) s1).
  - now apply IH.
  - f_equal. apply IH. intros k. now rewrite !str_in_cons, H.
Qed.

Lemma distinct_by_app {X} (key : X -> string) (a b : list X) :
  forall seen,
    distinct_by key seen (a ++ b)
    = (distinct_by key seen a
       ++ distinct_by key (seen ++ map key a) b)%list.
Proof.
  induction a as [|x a IH]; intros seen; cbn [app distinct_by map].
  - now rewrite app_nil_r.
  - destruct (str_in (key x) seen) eqn:E.
    + rewrite IH. f_equal. apply distinct_by_ext. intros k.
      rewrite !str_in_app, str_in_cons.
      destruct (String.eqb_spec k (key x)) as [->|]; [|reflexivity].
      rewrite E. reflexivity.
    + cbn [app]. rewrite IH. do 2 f_equal. apply distinct_by_ext. intros k.
      rewrite !str_in_app, !str_in_cons.
      destruct (k =? key x)%string, (str_in k seen), (str_in k (map key a));
        reflexivity.
Qed.

Lemma distinct_by_keys {X} (key : X -> string) (l : list X) :
  forall seen k,
    str_in k (seen ++ map key (distinct_by key seen l))
    = str_in k (seen ++ map key l).
Proof.
  induction l as [|x l IH]; intros seen k; cbn [distinct_by map];
    [reflexivity|].
  destruct (str_in (key x) seen) eqn:E.
  - rewrite IH, !str_in_app, str_in_cons.
    destruct (String.eqb_spec k (key x)) as [->|]; [|reflexivity].
    rewrite E. reflexivity.
  - cbn [map]. specialize (IH (key x :: seen) k).
    rewrite !str_in_app, !str_in_cons in *.
    destruct (k =? key x)%string, (str_in k seen); cbn [orb] in *; auto.
Qed.

Lemma mapped_assets_app (asset_by_gpid : Dict Asset) (a b : list string) :
  mapped_assets asset_by_gpid (a ++ b)
  = (mapped_assets asset_by_gpid a ++ mapped_assets asset_by_gpid b)%list.
Proof. unfold mapped_assets. apply flat_map_app. Qed.

Lemma add_google_assets_eq (asset_by_gpid : Dict Asset)
    (google_assets : list string) :
  forall (asset_ids : list string) (model : AlbumModel.t),
    let new_ids := distinct_by (fun i => i) asset_ids google_assets in
    add_google_assets asset_by_gpid google_assets asset_ids model
    = ((asset_ids ++ new_ids)%list,
       AlbumModel.set_assets model
         (AlbumModel.assets model ++ mapped_assets asset_by_gpid new_ids)).
Proof.
  unfold add_google_assets.
  induction google_assets as [|x l IH]; intros asset_ids model;
    cbn [fold_left distinct_by].
  - cbn. rewrite !app_nil_r. now destruct model.
  - destruct (str_in x asset_ids) eqn:E; [apply IH|].
    assert (Hext : distinct_by (fun i : string => i) (asset_ids ++ [x]) l
                   = distinct_by (fun i : string => i) (x :: asset_ids) l).
    { apply distinct_by_ext. intros k.
      rewrite str_in_app, !str_in_cons. cbn [str_in existsb].
      now destruct (k =? x)%string, (str_in k asset_ids). }
    destruct (dict_get x asset_by_gpid) as [asset|] eqn:Eg.
    + rewrite IH. cbv zeta. rewrite Hext. cbn [mapped_assets flat_map].
      rewrite Eg. fold (mapped_assets asset_by_gpid).
      rewrite <- !app_assoc. cbn [app]. destruct model.
      unfold mapped_assets.
      cbn [AlbumModel.set_assets AlbumModel.assets AlbumModel.id
           AlbumModel.name AlbumModel.override_name AlbumModel.description
           AlbumModel.share_with AlbumModel.thumbnail_setting
           AlbumModel.sort_order AlbumModel.archive
           AlbumModel.comments_and_likes_enabled].
      now rewrite <- app_assoc.
    + rewrite IH. cbv zeta. rewrite Hext. cbn [mapped_assets flat_map].
      rewrite Eg. fold (mapped_assets asset_by_gpid).
      rewrite <- !app_assoc. reflexivity.
Qed.

Lemma set_album_properties_in_model_keeps (g : Globals) (m : AlbumModel.t) :
  let m' := set_album_properties_in_model g m in
  AlbumModel.name m' = AlbumModel.name m
  /\ AlbumModel.override_name m' = AlbumModel.override_name m
  /\ AlbumModel.assets m' = AlbumModel.assets m
  /\ AlbumModel.id m' = AlbumModel.id m.
Proof.
  unfold set_album_properties_in_model.
  destruct (share_with g) as [[|x l]|];
    try rewrite share_with_fold;
    destruct (opt_truthy (set_album_thumbnail g)), (archive g),
      (opt_truthy (album_order g)), (comments_and_likes_enabled g),
      (comments_and_likes_disabled g);
    destruct m; repeat split; reflexivity.
Qed.

Lemma new_album_model_for_fields (g : Globals) (asset_by_gpid : Dict Asset)
    (album_name : string) (google_album : GoogleAlbum) :
  let m := new_album_model_for g asset_by_gpid album_name google_album in
  AlbumModel.get_final_name m = album_name /\ AlbumModel.assets m = []
  /\ AlbumModel.id m = None.
Proof.
  unfold new_album_model_for, AlbumModel.get_final_name.
  match goal with
  | |- context [set_album_properties_in_model g ?m0] =>
      destruct (set_album_properties_in_model_keeps g m0)
        as (Hn & Ho & Ha & Hi);
      assert (H0 : AlbumModel.name m0 = album_name
                   /\ AlbumModel.override_name m0 = None
                   /\ AlbumModel.assets m0 = []
                   /\ AlbumModel.id m0 = None)
  end.
  { destruct (ga_coverPhotoMediaItemId google_album) as [t|];
      [destruct (dict_get t asset_by_gpid)|]; repeat split; reflexivity. }
  destruct H0 as (H1 & H2 & H3 & H4).
  cbv zeta in *. rewrite Ho, H2, Hn, H1, Ha, H3, Hi, H4. cbn. auto.
Qed.

Lemma albums_titled_snoc (pre : list GoogleAlbum) (ga : GoogleAlbum)
    (n : string) :
  albums_titled (pre ++ [ga]) n
  = (albums_titled pre n
     ++ (if is_listed ga
            && negb (str_in (ga_id ga) (map ga_id (filter is_listed pre)))
            && has_title n ga
         then [ga] else []))%list.
Proof.
  unfold albums_titled. rewrite filter_app. cbn [filter].
  destruct (is_listed ga); cbn [andb].
  - rewrite distinct_by_app. cbn [app distinct_by].
    destruct (str_in _ _); cbn [negb andb]; rewrite filter_app; cbn [filter].
    + reflexivity.
    + now destruct (has_title n ga).
  - now rewrite !app_nil_r.
Qed.

Lemma media_titled_snoc (pre : list GoogleAlbum) (ga : GoogleAlbum)
    (album_file : string -> list string) (n : string) :
  albums_titled (pre ++ [ga]) n = (albums_titled pre n ++ [ga])%list ->
  media_titled (pre ++ [ga]) album_file n
  = (media_titled pre album_file n
     ++ distinct_by (fun i => i) (media_titled pre album_file n)
                    (album_file (ga_id ga)))%list.
Proof.
  intros H. unfold media_titled. rewrite H, flat_map_app.
  cbn [flat_map]. rewrite app_nil_r, distinct_by_app. f_equal.
  apply distinct_by_ext. intros k.
  pose proof (distinct_by_keys (fun i : string => i)
                (flat_map (fun ga => album_file (ga_id ga))
                          (albums_titled pre n)) [] k) as E.
  cbn [app] in *. rewrite !map_id in *. now symmetry.
Qed.

Lemma build_album_step_keeps (g : Globals) (asset_by_gpid : Dict Asset)
    (album_file : string -> list string) (pre : list GoogleAlbum)
    (ga : GoogleAlbum) (st : BuildState) :
  (forall k, str_in k (album_ids st)
             = str_in k (map ga_id (filter is_listed pre))) ->
  (forall n, dict_get n (album_asset_ids st)
             = match albums_titled pre n with
               | [] => None
               | _ :: _ => Some (media_titled pre album_file n)
               end) ->
  (forall n, dict_get n (album_models st)
             = model_titled g asset_by_gpid pre album_file n) ->
  let st' := build_album_step g asset_by_gpid album_file st ga in
  (forall k, str_in k (album_ids st')
             = str_in k (map ga_id (filter is_listed (pre ++ [ga]))))
  /\ (forall n, dict_get n (album_asset_ids st')
                = match albums_titled (pre ++ [ga]) n with
                  | [] => None
                  | _ :: _ => Some (media_titled (pre ++ [ga]) album_file n)
                  end)
  /\ (forall n, dict_get n (album_models st')
                = model_titled g asset_by_gpid (pre ++ [ga]) album_file n).
Proof.
  intros Hids Hmedia Hmodels st'.
  assert (Hsame :
    is_listed ga
    && negb (str_in (ga_id ga) (map ga_id (filter is_listed pre))) = false ->
    (forall k, str_in k (album_ids st)
               = str_in k (map ga_id (filter is_listed (pre ++ [ga]))))
    /\ (forall n, dict_get n (album_asset_ids st)
                  = match albums_titled (pre ++ [ga]) n with
                    | [] => None
                    | _ :: _ => Some (media_titled (pre ++ [ga]) album_file n)
                    end)
    /\ (forall n, dict_get n (album_models st)
                  = model_titled g asset_by_gpid (pre ++ [ga]) album_file n)).
  { intros Hskip.
    assert (Ht : forall n, albums_titled (pre ++ [ga]) n = albums_titled pre n).
    { intros n. rewrite albums_titled_snoc, Hskip. apply app_nil_r. }
    split; [|split].
    - intros k. rewrite Hids, filter_app, map_app, str_in_app.
      cbn [filter]. destruct (is_listed ga); cbn [map]; [|now rewrite orb_false_r].
      cbn [andb] in Hskip. apply negb_false_iff in Hskip.
      rewrite str_in_cons. cbn [str_in existsb]. rewrite orb_false_r.
      destruct (String.eqb_spec k (ga_id ga)) as [->|];
        [now rewrite Hskip|now rewrite orb_false_r].
    - intros n. rewrite Hmedia. unfold media_titled. now rewrite Ht.
    - intros n. rewrite Hmodels. unfold model_titled, media_titled.
      now rewrite Ht. }
  subst st'. unfold build_album_step.
  destruct (ga_has_mediaItemsCount ga) eqn:Ec;
    [|apply Hsame; unfold is_listed; now rewrite Ec].
  destruct (ga_title ga) as [album_name|] eqn:Et;
    [|apply Hsame; unfold is_listed; now rewrite Ec, Et].
  assert (Hl : is_listed ga = true) by (unfold is_listed; now rewrite Ec, Et).
  rewrite Hids.
  destruct (str_in (ga_id ga) (map ga_id (filter is_listed pre))) eqn:Eid;
    [apply Hsame; now rewrite Hl|].
  assert (Ht : forall n,
    albums_titled (pre ++ [ga]) n
    = (albums_titled pre n
       ++ (if (album_name =? n)%string then [ga] else []))%list).
  { intros n. rewrite albums_titled_snoc, Hl, Eid. unfold has_title.
    now rewrite Et. }
  rewrite add_google_assets_eq. cbv zeta.
  cbn [album_ids album_asset_ids album_models].
  assert (Hseen :
    match dict_get album_name (album_asset_ids st) with
    | Some s => s
    | None => []
    end = media_titled pre album_file album_name).
  { rewrite Hmedia. unfold media_titled.
    now destruct (albums_titled pre album_name). }
  rewrite Hseen.
  assert (Htn : albums_titled (pre ++ [ga]) album_name
                = (albums_titled pre album_name ++ [ga])%list)
    by (now rewrite Ht, String.eqb_refl).
  set (model := match dict_get album_name (album_models st) with
                | Some m => m
                | None => new_album_model_for g asset_by_gpid album_name ga
                end).
  set (new_ids := distinct_by (fun i : string => i)
                    (media_titled pre album_file album_name)
                    (album_file (ga_id ga))).
  assert (Hmodel :
    AlbumModel.get_final_name model = album_name
    /\ Some (AlbumModel.set_assets model
               (AlbumModel.assets model
                ++ mapped_assets asset_by_gpid new_ids))
       = model_titled g asset_by_gpid (pre ++ [ga]) album_file album_name).
  { unfold model. rewrite Hmodels. unfold model_titled.
    rewrite Htn, (media_titled_snoc _ _ _ _ Htn), mapped_assets_app.
    fold new_ids.
    destruct (albums_titled pre album_name) as [|ga0 T] eqn:ET.
    - destruct (new_album_model_for_fields g asset_by_gpid album_name ga)
        as (Hn & Ha & _).
      split; [exact Hn|]. cbn [app]. rewrite Ha.
      assert (E0 : media_titled pre album_file album_name = []).
      { unfold media_titled. now rewrite ET. }
      rewrite E0. reflexivity.
    - destruct (new_album_model_for_fields g asset_by_gpid album_name ga0)
        as (Hn & Ha & _).
      cbn [app]. split.
      + revert Hn. unfold AlbumModel.get_final_name.
        now destruct (new_album_model_for g asset_by_gpid album_name ga0).
      + now destruct (new_album_model_for g asset_by_gpid album_name ga0). }
  destruct Hmodel as (Hname & Hspec).
  assert (Hfinal :
    AlbumModel.get_final_name
      (AlbumModel.set_assets model
         (AlbumModel.assets model ++ mapped_assets asset_by_gpid new_ids))
    = album_name).
  { rewrite <- Hname. unfold AlbumModel.get_final_name. now destruct model. }
  rewrite Hfinal.
  split; [|split].
  - intros k. rewrite str_in_app, Hids, filter_app, map_app, str_in_app.
    cbn [filter]. now rewrite Hl.
  - intros n. rewrite dict_get_set.
    destruct (String.eqb_spec album_name n) as [<-|Hne].
    + rewrite Htn, (media_titled_snoc _ _ _ _ Htn).
      now destruct (albums_titled pre album_name).
    + assert (Htn' : albums_titled (pre ++ [ga]) n = albums_titled pre n).
      { rewrite Ht. apply String.eqb_neq in Hne. rewrite Hne.
        apply app_nil_r. }
      rewrite Hmedia. unfold media_titled. now rewrite Htn'.
  - intros n. rewrite dict_get_set.
    destruct (String.eqb_spec album_name n) as [<-|Hne].
    + exact Hspec.
    + assert (Htn' : albums_titled (pre ++ [ga]) n = albums_titled pre n).
      { rewrite Ht. apply String.eqb_neq in Hne. rewrite Hne.
        apply app_nil_r. }
      rewrite Hmodels. unfold model_titled, media_titled. now rewrite Htn'.
Qed.

Lemma build_album_fold_keeps (g : Globals) (asset_by_gpid : Dict Asset)
    (album_file : string -> list string) (google_albums : list GoogleAlbum) :
  forall (pre : list GoogleAlbum) (st : BuildState),
    (forall k, str_in k (album_ids st)
               = str_in k (map ga_id (filter is_listed pre))) ->
    (forall n, dict_get n (album_asset_ids st)
               = match albums_titled pre n with
                 | [] => None
                 | _ :: _ => Some (media_titled pre album_file n)
                 end) ->
    (forall n, dict_get n (album_models st)
               = model_titled g asset_by_gpid pre album_file n) ->
    forall n,
      dict_get n
        (album_models
           (fold_left (build_album_step g asset_by_gpid album_file)
                      google_albums st))
      = model_titled g asset_by_gpid (pre ++ google_albums) album_file n.
Proof.
  induction google_albums as [|ga l IH]; intros pre st H1 H2 H3 n.
  - cbn [fold_left]. rewrite app_nil_r. apply H3.
  - cbn [fold_left].
    destruct (build_album_step_keeps g asset_by_gpid album_file pre ga st
                H1 H2 H3) as (K1 & K2 & K3).
    replace (pre ++ ga :: l)%list with ((pre ++ [ga]) ++ l)%list
      by (now rewrite <- app_assoc).
    now apply IH.
Qed.

(** X18: [build_album_list] merges the Google albums by title.  Under a
    title it holds one model: the model built for the first album read
    with this title, an album being read once by id and only when it has a
    [mediaItemsCount] and a [title]; its assets are the assets mapped from
    the media of all the albums read with the title, each media id once, in
    the order of the files.  A title that no album read carries has no
    model, and a model holds mapped assets only. *)
Theorem build_album_list_merges_by_title (g : Globals)
    (asset_by_gpid : Dict Asset) (google_albums : list GoogleAlbum)
    (album_file : string -> list string) (album_name : string) :
  dict_get album_name
    (build_album_list g asset_by_gpid google_albums album_file)
  = model_titled g asset_by_gpid google_albums album_file album_name
  /\ forall m,
      dict_get album_name
        (build_album_list g asset_by_gpid google_albums album_file) = Some m ->
      AlbumModel.get_final_name m = album_name
      /\ AlbumModel.id m = None
      /\ forall a, In a (AlbumModel.assets m) ->
                   exists media_id,
                     In media_id
                        (media_titled google_albums album_file album_name)
                     /\ dict_get media_id asset_by_gpid = Some a.
Proof.
  assert (E : dict_get album_name
                (build_album_list g asset_by_gpid google_albums album_file)
              = model_titled g asset_by_gpid google_albums album_file
                             album_name).
  { unfold build_album_list.
    apply (build_album_fold_keeps g asset_by_gpid album_file google_albums []);
      reflexivity. }
  split; [exact E|]. intros m Hm. rewrite E in Hm.
  unfold model_titled in Hm.
  destruct (albums_titled google_albums album_name) as [|ga0 T];
    [discriminate|]. injection Hm as <-.
  destruct (new_album_model_for_fields g asset_by_gpid album_name ga0)
    as (Hn & _ & Hid).
  split; [|split].
  - revert Hn. unfold AlbumModel.get_final_name.
    now destruct (new_album_model_for g asset_by_gpid album_name ga0).
  - revert Hid.
    now destruct (new_album_model_for g asset_by_gpid album_name ga0).
  - intros a Ha.
    assert (Ha' : In a (mapped_assets asset_by_gpid
                          (media_titled google_albums album_file album_name)))
      by (now destruct (new_album_model_for g asset_by_gpid album_name ga0)).
    unfold mapped_assets in Ha'. apply in_flat_map in Ha'.
    destruct Ha' as (i & Hi & Hin). exists i. split; [exact Hi|].
    destruct (dict_get i asset_by_gpid) as [b|]; [|destruct Hin].
    destruct Hin as [->|[]]. reflexivity.
Qed.

Lemma build_album_list_merges_by_title_witness :
  exists m,
    dict_get "Trip"
      (build_album_list (example_globals 0 album_alps) three_media
                        [trip_album; trip_album_shared; trip_album] trip_files)
    = Some m
    /\ AlbumModel.assets m = [photo_a; photo_b; photo_c]
    /\ AlbumModel.get_final_name m = "Trip"
    /\ AlbumModel.id m = None.
Proof.
  eexists. split; [vm_compute; reflexivity|]. split; [reflexivity|].
  match goal with
  | |- AlbumModel.get_final_name ?m = _ /\ _ =>
      destruct (build_album_list_merges_by_title
                  (example_globals 0 album_alps) three_media
                  [trip_album; trip_album_shared; trip_album] trip_files
                  "Trip") as (_ & H);
      destruct (H m) as (Hn & Hi & _)
  end.
  - vm_compute. reflexivity.
  - split; [exact Hn|exact Hi].
Defined.

(** ** The ids of the loop *)

Lemma bind_returns {A B} (m : M A) (k : A -> M B) (w : World) (b : B) :
  fst (bind m k w) = Ret b ->
  exists a w1, m w = (Ret a, w1) /\ fst (k a w1) = Ret b.
Proof.
  unfold bind. destruct (m w) as [[a|e] w1]; [eauto|discriminate].
Qed.

Lemma create_album_returns (g : Globals) (album_name : string) (w w1 : World)
    (new_id : string) :
  create_album g album_name w = (Ret new_id, w1) ->
  payload (server w (trace w) (create_request g album_name))
  = PCreated new_id.
Proof.
  unfold create_album. erewrite bind_Ret by apply http_after.
  fold (create_request g album_name).
  unfold bind. rewrite check_api_response_checked. unfold checked.
  destruct (is_error_status _); [discriminate|].
  destruct (payload _); try discriminate. now intros [= -> _].
Qed.

Lemma reconcile_album_returns (g : Globals) (st st' : LoopState)
    (key : string) (album0 : AlbumModel.t) (w : World) :
  fst (reconcile_album g st (key, album0) w) = Ret st' ->
  let final_name := AlbumModel.get_final_name album0 in
  exists album_id,
    albums_done st'
    = (albums_done st ++ [(key, AlbumModel.set_id album0 (Some album_id))])%list
    /\ match dict_get final_name (album_to_id st) with
       | Some existing_id =>
           album_id = existing_id
           /\ album_to_id st' = album_to_id st
           /\ created_albums st' = created_albums st
       | None =>
           payload (server w (trace w) (create_request g final_name))
           = PCreated album_id
           /\ album_to_id st' = dict_set final_name album_id (album_to_id st)
           /\ created_albums st' = (created_albums st ++ [key])%list
       end.
Proof.
  intros H final_name. unfold reconcile_album in H. fold final_name in H.
  apply bind_returns in H. destruct H as ([[album ids] created] & w1 & H1 & H).
  apply bind_returns in H. destruct H as (? & w2 & _ & H).
  apply bind_returns in H. destruct H as (added & w3 & _ & H).
  apply bind_returns in H. destruct H as (uuids & w4 & _ & H).
  apply bind_returns in H. destruct H as (? & w5 & _ & H).
  apply bind_returns in H. destruct H as (? & w6 & _ & H).
  injection H as <-. cbn [albums_done album_to_id created_albums].
  revert H1. unfold dict_mem.
  destruct (dict_get final_name (album_to_id st)) as [existing_id|] eqn:E;
    cbn [negb].
  - intros [= <- <- <-]. exists existing_id. auto.
  - intros H1.
    destruct (bind_cases (create_album g final_name)
                (fun new_id =>
                   logging INFO "Album %s added!" [final_name] ;;;
                   ret (AlbumModel.set_id album0 (Some new_id),
                        dict_set final_name new_id (album_to_id st),
                        (created_albums st ++ [key])%list)) w)
      as [(new_id & w0 & Hc & E1)|(e & w0 & Hc & E1)];
      rewrite E1 in H1; [|discriminate].
    apply create_album_returns in Hc.
    revert H1. erewrite bind_Ret by apply logging_after.
    intros [= <- <- <-]. exists new_id. auto.
Qed.

Lemma final_name_set_id (a : AlbumModel.t) (v : option string) :
  AlbumModel.get_final_name (AlbumModel.set_id a v)
  = AlbumModel.get_final_name a.
Proof. reflexivity. Qed.

Lemma reconcile_loop_returns (g : Globals)
    (albums_to_create : Dict AlbumModel.t) :
  forall (st st' : LoopState) (w : World),
    fst (for_fold albums_to_create st (reconcile_album g) w) = Ret st' ->
    (forall n album_id,
        dict_get n (album_to_id st) = Some album_id ->
        dict_get n (album_to_id st') = Some album_id)
    /\ exists ids,
        List.length ids = List.length albums_to_create
        /\ albums_done st'
           = (albums_done st
              ++ map (fun p => (fst (fst p),
                                AlbumModel.set_id (snd (fst p)) (Some (snd p))))
                     (combine albums_to_create ids))%list
        /\ Forall (fun p =>
                     dict_get (AlbumModel.get_final_name (snd (fst p)))
                              (album_to_id st') = Some (snd p))
                  (combine albums_to_create ids)
        /\ exists created,
            created_albums st' = (created_albums st ++ created)%list
            /\ Forall (fun key =>
                         exists a,
                           In (key, a) albums_to_create
                           /\ dict_get (AlbumModel.get_final_name a)
                                       (album_to_id st) = None)
                      created.
Proof.
  induction albums_to_create as [|[key album0] l IH]; intros st st' w H.
  - cbn in H. injection H as <-. split; [auto|].
    exists []. cbn. rewrite app_nil_r. repeat split; auto.
    exists []. now rewrite app_nil_r.
  - cbn [for_fold] in H. apply bind_returns in H.
    destruct H as (st1 & w1 & H1 & H).
    apply IH in H.
    destruct H as (Hmono & ids & Hlen & Hdone & Hids & created & Hc & Hnew).
    assert (H1' : fst (reconcile_album g st (key, album0) w) = Ret st1)
      by (now rewrite H1).
    apply reconcile_album_returns in H1'. cbv zeta in H1'.
    destruct H1' as (album_id & Hd1 & Hcase).
    assert (Hstep :
      (forall n i, dict_get n (album_to_id st) = Some i ->
                   dict_get n (album_to_id st1) = Some i)
      /\ dict_get (AlbumModel.get_final_name album0) (album_to_id st1)
         = Some album_id
      /\ exists first,
          created_albums st1 = (created_albums st ++ first)%list
          /\ Forall (fun k =>
                       exists a,
                         In (k, a) ((key, album0) :: l)
                         /\ dict_get (AlbumModel.get_final_name a)
                                     (album_to_id st) = None)
                    first).
    { destruct (dict_get (AlbumModel.get_final_name album0) (album_to_id st))
        as [existing_id|] eqn:E.
      - destruct Hcase as (-> & -> & ->). repeat split; auto.
        exists []. now rewrite app_nil_r.
      - destruct Hcase as (_ & -> & ->). split; [|split].
        + intros n i Hn. rewrite dict_get_set.
          destruct (String.eqb_spec (AlbumModel.get_final_name album0) n)
            as [<-|]; [congruence|exact Hn].
        + now rewrite dict_get_set, String.eqb_refl.
        + exists [key]. split; [reflexivity|].
          constructor; [|constructor]. exists album0. split; [now left|exact E]. }
    destruct Hstep as (Hm1 & Hid & first & Hc1 & Hfirst).
    split; [auto|].
    exists (album_id :: ids). cbn [List.length combine map fst snd].
    split; [now rewrite Hlen|]. split; [|split].
    + rewrite Hdone, Hd1, <- app_assoc. reflexivity.
    + constructor; [cbn [fst snd]; auto|exact Hids].
    + exists (first ++ created)%list. split.
      * rewrite Hc, Hc1, <- app_assoc. reflexivity.
      * apply Forall_app. split; [exact Hfirst|].
        eapply Forall_impl; [|exact Hnew].
        intros k (a & Hin & Hnone). exists a. split; [now right|].
        destruct (dict_get (AlbumModel.get_final_name a) (album_to_id st))
          as [i|] eqn:Ei; [|reflexivity].
        apply Hm1 in Ei. congruence.
Qed.

(** X19: when the reconciliation loop ends, the table of ids still maps
    every name it held at the start to the same id, the albums are
    recorded in the order of the loop, and each carries the id that the
    table holds for its final name: an album whose name the server listed
    has the listed id, and albums that share a final name share one
    id. *)
Theorem reconcile_assigns_table_ids (g : Globals)
    (albums_to_create : Dict AlbumModel.t) (album_to_id0 : Dict string)
    (w : World) (st : LoopState) :
  fst (reconcile g albums_to_create album_to_id0 w) = Ret st ->
  (forall n album_id,
      dict_get n album_to_id0 = Some album_id ->
      dict_get n (album_to_id st) = Some album_id)
  /\ map fst (albums_done st) = map fst albums_to_create
  /\ Forall2 (fun item done =>
                fst done = fst item
                /\ exists album_id,
                    snd done = AlbumModel.set_id (snd item) (Some album_id)
                    /\ dict_get (AlbumModel.get_final_name (snd item))
                                (album_to_id st) = Some album_id)
             albums_to_create (albums_done st).
Proof.
  unfold reconcile. intros H.
  apply bind_returns in H. destruct H as (st1 & w1 & H1 & H).
  apply bind_returns in H. destruct H as (? & w2 & _ & H).
  injection H as ->.
  assert (H1' : fst (for_fold albums_to_create
                       (mkLoopState album_to_id0 [] [] [])
                       (reconcile_album g) w) = Ret st)
    by (now rewrite H1).
  apply reconcile_loop_returns in H1'.
  destruct H1' as (Hmono & ids & Hlen & Hdone & Hids & _).
  cbn [album_to_id albums_done app] in *.
  split; [exact Hmono|]. rewrite Hdone. clear Hdone Hmono H1.
  revert ids Hlen Hids.
  induction albums_to_create as [|item l IH]; intros ids Hlen Hids.
  - destruct ids; [|discriminate]. cbn. auto.
  - destruct ids as [|i ids]; [discriminate|].
    cbn [combine map fst snd] in *. inversion Hids as [|? ? Hi Hrest]; subst.
    injection Hlen as Hlen.
    destruct (IH ids Hlen Hrest) as (E & F).
    split; [now rewrite E|].
    constructor; [|exact F]. cbn [fst snd] in *. eauto.
Qed.

Lemma reconcile_assigns_table_ids_witness :
  exists st,
    fst (run (reconcile (example_globals 0 album_alps)
                [("Alps", album_alps); ("Beach", album_beach)]
                [("Alps", "id-alps")])
             creating_server) = Ret st
    /\ dict_get "Alps" (album_to_id st) = Some "id-alps"
    /\ map fst (albums_done st) = ["Alps"; "Beach"].
Proof.
  eexists. split; [vm_compute; reflexivity|].
  match goal with
  | |- dict_get _ (album_to_id ?s) = _ /\ _ =>
      destruct (reconcile_assigns_table_ids (example_globals 0 album_alps)
                  [("Alps", album_alps); ("Beach", album_beach)]
                  [("Alps", "id-alps")]
                  (world_with creating_server [] []) s)
        as (Hmono & Hkeys & _)
  end.
  - vm_compute. reflexivity.
  - split; [apply Hmono; reflexivity|exact Hkeys].
Defined.

(** ** The roots bound at the start *)

Lemma last_char_app_slash (p : string) : last_char (p ++ "/") = Some "/"%char.
Proof.
  induction p as [|c p IH]; [reflexivity|].
  cbn [append]. destruct p as [|c' p']; [reflexivity|exact IH].
Qed.

Lemma with_trailing_slash_returns (p q : string) (w w' : World) :
  with_trailing_slash p w = (Ret q, w') ->
  p <> "" /\ last_char q = Some "/"%char /\ (q = p \/ q = p ++ "/").
Proof.
  unfold with_trailing_slash.
  destruct (last_char p) as [c|] eqn:E; [|discriminate].
  assert (Hp : p <> "") by (intros ->; discriminate).
  destruct (Ascii.eqb_spec c "/"%char) as [->|Hc]; intros [= <- _].
  - auto.
  - split; [exact Hp|]. split; [apply last_char_app_slash|auto].
Qed.

(** X20: when the start of the script gets past the version gate, none of
    the two root paths and the API URL is empty, each is bound to the
    argument itself or to the argument followed by a slash, and ends with
    a slash; the API key is the one [determine_api_key] returned. *)
Theorem startup_roots_end_with_slash (args : Args) (w : World) (st : Startup) :
  fst (startup args w) = Ret st ->
  let rooted (arg bound : string) :=
    arg <> "" /\ last_char bound = Some "/"%char
    /\ (bound = arg \/ bound = arg ++ "/") in
  rooted (arg_local_root_path args) (st_local_root_path st)
  /\ rooted (arg_immich_root_path args) (st_immich_root_path st)
  /\ rooted (arg_api_url args) (st_root_url st)
  /\ fst (determine_api_key (arg_api_key args) (arg_api_key_type args) w)
     = Ret (Some (st_api_key st))
  /\ (arg_comments_and_likes_disabled args
      && arg_comments_and_likes_enabled args = false)
  /\ (major (st_version st) =? 1) && (minor (st_version st) <? 106) = false.
Proof.
  unfold startup. intros H.
  apply bind_returns in H. destruct H as ([api_key|] & w1 & H1 & H).
  2: { apply bind_returns in H. destruct H as (? & ? & _ & H). discriminate. }
  apply bind_returns in H. destruct H as (? & w2 & H2 & H).
  apply bind_returns in H. destruct H as (l & w3 & H3 & H).
  apply bind_returns in H. destruct H as (i & w4 & H4 & H).
  apply bind_returns in H. destruct H as (u & w5 & H5 & H).
  apply bind_returns in H. destruct H as (v & w6 & H6 & H).
  apply bind_returns in H. destruct H as (? & w7 & H7 & H).
  injection H as <-. cbn [st_local_root_path st_immich_root_path st_root_url
                          st_api_key st_version].
  apply with_trailing_slash_returns in H3, H4, H5.
  rewrite H1. cbn [fst].
  repeat (split; [assumption || reflexivity|]).
  split.
  - destruct (arg_comments_and_likes_disabled args
              && arg_comments_and_likes_enabled args); [|reflexivity].
    revert H2. erewrite bind_Ret by apply logging_after. discriminate.
  - destruct ((major v =? 1) && (minor v <? 106)); [|reflexivity].
    revert H7. erewrite bind_Ret by apply logging_after. discriminate.
Qed.

Lemma startup_roots_end_with_slash_witness :
  exists st,
    fst (startup example_args (world_with (version_server version_1_120) [] []))
    = Ret st
    /\ st_root_url st = "http://immich/api/"
    /\ last_char (st_local_root_path st) = Some "/"%char.
Proof.
  eexists. split; [vm_compute; reflexivity|].
  match goal with
  | |- st_root_url ?s = _ /\ _ =>
      destruct (startup_roots_end_with_slash example_args
                  (world_with (version_server version_1_120) [] []) s)
        as ((_ & Hl & _) & _ & (_ & _ & Hu) & _)
  end.
  - vm_compute. reflexivity.
  - split; [|exact Hl].
    destruct Hu as [Hu|Hu]; [discriminate Hu|exact Hu].
Defined.

(** ** The creation of the albums *)

Lemma fetch_albums_returns (g : Globals) (w w' : World)
    (albums : list AlbumEntry) :
  fetch_albums g w = (Ret albums, w') ->
  payload (server w (trace w) (albums_request g)) = PAlbums albums.
Proof.
  unfold fetch_albums. erewrite bind_Ret by apply http_after.
  fold (albums_request g).
  unfold bind. rewrite check_api_response_checked. unfold checked.
  destruct (is_error_status _); [discriminate|].
  destruct (payload _); try discriminate. now intros [= -> _].
Qed.

Lemma album_ids_by_name_get (albums : list AlbumEntry) (n : string) :
  dict_get n (album_ids_by_name albums)
  = option_map entry_id
      (find (fun a => (entry_albumName a =? n)%string) (rev albums)).
Proof.
  unfold album_ids_by_name.
  rewrite (dict_get_fold (fun a => Some (entry_albumName a, entry_id a)) _ n)
    by reflexivity.
  now destruct (find _ (rev albums)).
Qed.

(** X21: when the creation of the albums ends, an album name that the
    server listed is still bound to the id of the last album listed under
    it, the albums are recorded in the order in which they were given, and
    an album was created only for a final name that the server did not
    list. *)
Theorem create_albums_reuses_listed_albums (g : Globals)
    (albums_to_create : Dict AlbumModel.t) (w : World) (st : LoopState) :
  fst (create_albums g albums_to_create w) = Ret st ->
  exists listing,
    payload (server w (trace w) (albums_request g)) = PAlbums listing
    /\ (forall n e,
           find (fun a => (entry_albumName a =? n)%string) (rev listing)
           = Some e ->
           dict_get n (album_to_id st) = Some (entry_id e))
    /\ map fst (albums_done st) = map fst albums_to_create
    /\ Forall (fun key =>
                 exists a,
                   In (key, a) albums_to_create
                   /\ find (fun e => (entry_albumName e
                                      =? AlbumModel.get_final_name a)%string)
                           (rev listing) = None)
              (created_albums st).
Proof.
  unfold create_albums. intros H.
  apply bind_returns in H. destruct H as (? & w1 & H1 & H).
  apply bind_returns in H. destruct H as (listing & w2 & H2 & H).
  apply bind_returns in H. destruct H as (? & w3 & _ & H).
  apply bind_returns in H. destruct H as (users & w4 & _ & H).
  apply bind_returns in H. destruct H as (? & w5 & _ & H).
  apply bind_returns in H. destruct H as (st1 & w6 & H6 & H).
  apply bind_returns in H. destruct H as (? & w7 & _ & H).
  injection H as <-.
  rewrite logging_after in H1. injection H1 as _ <-.
  apply fetch_albums_returns in H2. cbn [trace after server] in H2.
  rewrite app_nil_r in H2.
  exists listing. split; [exact H2|].
  apply (f_equal fst) in H6. cbn [fst] in H6.
  unfold reconcile in H6.
  apply bind_returns in H6. destruct H6 as (st2 & w8 & H8' & H6).
  apply bind_returns in H6. destruct H6 as (? & w9 & _ & H6).
  injection H6 as ->.
  apply (f_equal fst) in H8'. cbn [fst] in H8'.
  apply reconcile_loop_returns in H8'.
  destruct H8' as (Hmono & ids & Hlen & Hdone & _ & created & Hc & Hnew).
  cbn [album_to_id albums_done created_albums app] in *.
  split; [|split].
  - intros n e He. apply Hmono. now rewrite album_ids_by_name_get, He.
  - rewrite Hdone, map_map. cbn [fst].
    clear - Hlen. revert ids Hlen.
    induction albums_to_create as [|item l IH]; intros ids Hlen;
      [reflexivity|].
    destruct ids as [|i ids]; [discriminate|]. cbn [map combine fst].
    injection Hlen as Hlen. f_equal; [|now apply IH].
    cbv zeta. now destruct (dict_mem _ _).
  - rewrite Hc. eapply Forall_impl; [|exact Hnew].
    intros key (a' & Hin & Hnone). apply in_map_iff in Hin.
    destruct Hin as ([k a] & E & Hin). cbv zeta in E. cbn [fst snd] in E.
    exists a. rewrite album_ids_by_name_get in Hnone.
    assert (Hfn : AlbumModel.get_final_name a' = AlbumModel.get_final_name a
                  /\ key = k).
    { destruct (dict_mem _ _); now injection E as <- <-. }
    destruct Hfn as (Hfn & ->). rewrite Hfn in Hnone.
    split; [exact Hin|].
    now destruct (find _ (rev listing)).
Qed.

Lemma create_albums_reuses_listed_albums_witness :
  exists st,
    fst (run (create_albums (example_globals 0 album_alps)
                [("Alps", album_alps); ("Beach", album_beach)])
             listing_creating_server) = Ret st
    /\ dict_get "Alps" (album_to_id st) = Some "id-alps"
    /\ created_albums st = ["Beach"].
Proof.
  eexists. split; [vm_compute; reflexivity|].
  match goal with
  | |- dict_get _ (album_to_id ?s) = _ /\ _ =>
      destruct (create_albums_reuses_listed_albums
                  (example_globals 0 album_alps)
                  [("Alps", album_alps); ("Beach", album_beach)]
                  (world_with listing_creating_server [] []) s)
        as (listing & Hl & Hids & _)
  end.
  - vm_compute. reflexivity.
  - split; [|reflexivity].
    injection Hl as <-. apply (Hids "Alps" (mkAlbumEntry "id-alps" "Alps" 1)).
    reflexivity.
Defined.

(** ** Synchronisation mode 1 *)

Lemma fetch_albums_cases (g : Globals) (w : World) :
  exists out,
    fetch_albums g w = (out, after w [albums_request g] [])
    /\ forall albums,
        out = Ret albums ->
        payload (server w (trace w) (albums_request g)) = PAlbums albums.
Proof.
  unfold fetch_albums.
  erewrite bind_Ret by apply http_after.
  fold (albums_request g).
  set (r := server w (trace w) (albums_request g)).
  unfold bind. rewrite check_api_response_checked. unfold checked.
  destruct (is_error_status (status_code r)).
  - eexists. split; [reflexivity|]. discriminate.
  - destruct (payload r) eqn:Hp;
      (eexists; split; [reflexivity|]; intros albums E;
       try discriminate; now injection E as ->).
Qed.

Lemma delete_loop_trace (g : Globals) (albums : list AlbumEntry) :
  forall (counts : Z * Z) (w : World),
  exists deleted rest,
    trace (snd (for_fold albums counts
      (fun counts album =>
         let '(empty_album_count, cleaned_album_count) := counts in
         if entry_assetCount album =? 0 then
           let empty_album_count := empty_album_count + 1 in
           logging INFO "Deleting empty album %s" [entry_albumName album] ;;;
           deleted <- delete_album g album ;;
           if deleted : bool then ret (empty_album_count, cleaned_album_count + 1)
           else ret (empty_album_count, cleaned_album_count)
         else ret counts) w))
    = (trace w ++ map (delete_request g) deleted)%list
    /\ filter is_empty_album albums = (deleted ++ rest)%list.
Proof.
  induction albums as [|a l IH]; intros [e c] w.
  - exists [], []. cbn. now rewrite app_nil_r.
  - cbn [for_fold filter]. unfold is_empty_album at 1.
    destruct (entry_assetCount a =? 0) eqn:E.
    + destruct (is_error_status
                  (status_code (server w (trace w) (delete_request g a))))
        eqn:Es.
      * erewrite bind_Exc.
        2: { erewrite bind_Ret by apply logging_after.
             erewrite bind_Exc.
             2: { apply delete_album_error. cbn [trace after server].
                  rewrite app_nil_r. exact Es. }
             reflexivity. }
        exists [a], (filter is_empty_album l). cbn [snd trace after map app].
        now rewrite app_nil_r.
      * erewrite bind_Ret.
        2: { erewrite bind_Ret by apply logging_after.
             erewrite bind_Ret.
             2: { apply delete_album_success. cbn [trace after server].
                  rewrite app_nil_r. exact Es. }
             reflexivity. }
        destruct (IH (e + 1, c + 1)
                     (after (after w [] [mkLog INFO "Deleting empty album %s"
                                               [entry_albumName a]])
                            [delete_request g a] []))
          as (deleted & rest & Ht & Hf).
        exists (a :: deleted), rest. cbv zeta in Ht |- *. rewrite Ht, Hf.
        cbn [trace after map app]. rewrite app_nil_r, <- app_assoc.
        split; reflexivity.
    + rewrite (bind_Ret _ _ w w (e, c)) by reflexivity.
      apply IH.
Qed.

(** X22: in synchronisation mode 1, whatever the server answers, the
    script lists the albums and then deletes albums only: each request
    after the listing is the DELETE of an album that the listing reports
    with [assetCount] 0, in the order of the listing.  No album with
    assets is deleted, and no library or asset is touched. *)
Theorem sync_mode_1_deletes_only_empty_albums (g : Globals) (fuel : nat)
    (w : World) :
  sync_mode g = 1 ->
  exists deleted,
    trace (snd (sync_mode_actions g fuel w))
    = (trace w ++ albums_request g :: map (delete_request g) deleted)%list
    /\ (deleted = []
        \/ exists listing rest,
            payload (server w (trace w) (albums_request g)) = PAlbums listing
            /\ filter is_empty_album listing = (deleted ++ rest)%list).
Proof.
  intros Hmode. unfold sync_mode_actions. rewrite Hmode.
  cbn [Z.eqb Z.leb Z.compare Pos.compare Pos.compare_cont].
  rewrite (bind_Ret _ _ w w tt) by reflexivity.
  unfold delete_empty_albums.
  assert (Hgen : forall m : M (Z * Z),
    (exists deleted,
        trace (snd (m w))
        = (trace w ++ albums_request g :: map (delete_request g) deleted)%list
        /\ (deleted = []
            \/ exists listing rest,
                payload (server w (trace w) (albums_request g))
                = PAlbums listing
                /\ filter is_empty_album listing = (deleted ++ rest)%list)) ->
    exists deleted,
        trace (snd ((m ;;; ret tt) w))
        = (trace w ++ albums_request g :: map (delete_request g) deleted)%list
        /\ (deleted = []
            \/ exists listing rest,
                payload (server w (trace w) (albums_request g))
                = PAlbums listing
                /\ filter is_empty_album listing = (deleted ++ rest)%list)).
  { intros m H. unfold bind, ret. now destruct (m w) as [[a|e] w1]. }
  apply Hgen. clear Hgen.
  erewrite bind_Ret by apply logging_after.
  set (w1 := after w [] _).
  destruct (fetch_albums_cases g w1) as (out & Ef & Hout).
  destruct out as [listing|e].
  2: { erewrite bind_Exc by exact Ef. exists []. unfold w1.
       cbn [snd trace after map]. rewrite app_nil_r. auto. }
  erewrite bind_Ret by exact Ef.
  specialize (Hout listing eq_refl). unfold w1 in Hout.
  cbn [trace after server] in Hout.
  rewrite app_nil_r in Hout.
  set (w2 := after w1 _ _).
  destruct (delete_loop_trace g listing (0, 0) w2)
    as (deleted & rest & Ht & Hf).
  exists deleted. split; [|right; eauto].
  cbv zeta in Ht |- *.
  match goal with
  | |- context [snd (bind ?m ?k w2)] =>
      destruct (bind_cases m k w2) as [(a & w3 & Hm & ->)|(e & w3 & Hm & ->)]
  end; rewrite Hm in Ht; cbn [snd] in Ht.
  - assert (Hlog : forall (m : M unit),
              (forall w0, trace (snd (m w0)) = trace w0) ->
              trace (snd ((m ;;; ret a) w3)) = trace w3).
    { intros m H. unfold bind, ret. specialize (H w3).
      now destruct (m w3) as [[[]|e] w4]. }
    rewrite Hlog.
    + rewrite Ht. unfold w2, w1. cbn [trace after].
      now rewrite app_nil_r, <- app_assoc.
    + intros w0. now destruct (0 <? fst a).
  - cbn [snd]. rewrite Ht. unfold w2, w1. cbn [trace after].
    now rewrite app_nil_r, <- app_assoc.
Qed.

Lemma sync_mode_1_deletes_only_empty_albums_witness :
  let w := world_with (listing_server 500) [] [] in
  exists deleted,
    trace (snd (sync_mode_actions sync_mode_1_globals 10 w))
    = (trace w
       ++ albums_request sync_mode_1_globals
          :: map (delete_request sync_mode_1_globals) deleted)%list
    /\ (deleted = []
        \/ exists listing rest,
            payload (server w (trace w) (albums_request sync_mode_1_globals))
            = PAlbums listing
            /\ filter is_empty_album listing = (deleted ++ rest)%list).
Proof.
  intros w.
  apply (sync_mode_1_deletes_only_empty_albums sync_mode_1_globals 10 w).
  reflexivity.
Defined.

(** ** The mode and new albums *)

Lemma str_in_snoc (s : string) (l : list string) :
  str_in s (l ++ [s]) = true.
Proof.
  unfold str_in. rewrite existsb_app. cbn. rewrite String.eqb_refl.
  now rewrite orb_true_r.
Qed.

Lemma bind_congr_ret {A B} (m : M A) (k1 k2 : A -> M B) (w : World) :
  (forall a w1, m w = (Ret a, w1) -> k1 a w1 = k2 a w1) ->
  bind m k1 w = bind m k2 w.
Proof. intros H. unfold bind. destruct (m w) as [[a|e] w1]; auto. Qed.

(** X23: for an album that has to be created, the mode plays no role:
    once created, its properties and its sharing are set in every mode,
    as in mode 2. *)
Theorem reconcile_album_new_album_ignores_mode (g : Globals) (st : LoopState)
    (key : string) (album0 : AlbumModel.t) (mode : Z) (w : World) :
  dict_get (AlbumModel.get_final_name album0) (album_to_id st) = None ->
  reconcile_album (set_update_album_props_mode g mode) st (key, album0) w
  = reconcile_album (set_update_album_props_mode g 2) st (key, album0) w.
Proof.
  intros Hnew. unfold reconcile_album, dict_mem. rewrite Hnew. cbn [negb].
  change (create_album (set_update_album_props_mode g mode))
    with (create_album g).
  change (create_album (set_update_album_props_mode g 2))
    with (create_album g).
  apply bind_congr_ret. intros [[album table] created] w1 Hm.
  assert (Hc : str_in key created = true).
  { revert Hm. unfold bind at 1.
    destruct (create_album g (AlbumModel.get_final_name album0) w)
      as [[new_id|e] w0]; [|discriminate].
    erewrite bind_Ret by apply logging_after.
    intros [= _ _ <- _]. apply str_in_snoc. }
  cbv beta iota zeta. rewrite Hc, !orb_true_r.
  reflexivity.
Qed.

Lemma reconcile_album_new_album_ignores_mode_witness :
  let g := example_globals 0 album_beach in
  let st := mkLoopState [("Alps", "id-alps")] [] [] [] in
  let w := world_with creating_server [] [] in
  reconcile_album (set_update_album_props_mode g 0) st ("Beach", album_beach) w
  = reconcile_album (set_update_album_props_mode g 2) st
                    ("Beach", album_beach) w.
Proof.
  intros g st w.
  apply (reconcile_album_new_album_ignores_mode g st "Beach" album_beach 0 w).
  reflexivity.
Defined.
